(** * UNRAVEL, [unravel/stream.py]: skeleton extraction, median trajectory,
    outlier filtering and section partitioning of a tractogram.

    The arrays of the source are lists; exceptions are values of [result];
    the floating-point arithmetic of numpy is kept abstract in the class
    [Scalar], so that every theorem holds for whatever the operations
    compute (IEEE doubles included), and is instantiated with exact
    rationals where a concrete run is evaluated. *)

From Stdlib Require Import ZArith QArith Qround Qabs Lia Bool.
From stdpp Require Import base tactics option list sorting.

Set Default Proof Using "Type".
Local Open Scope Z_scope.
Local Open Scope nat_scope.

(** ** Exceptions *)

Inductive exn := IndexError | AxisError | ValueError.

Inductive result (A : Type) : Type :=
| Ok (a : A)
| Raise (e : exn).
Arguments Ok {A} a.
Arguments Raise {A} e.

#[global] Instance result_ret : MRet result := fun _ a => Ok a.
#[global] Instance result_bind : MBind result := fun _ _ f m =>
  match m with Ok a => f a | Raise e => Raise e end.

(** ** Scalars: the float64 operations the source uses *)

Class Scalar (F : Type) := {
  fzero : F;
  fadd : F -> F -> F;
  fsub : F -> F -> F;
  fmul : F -> F -> F;
  fdiv : F -> F -> F;
  fneg : F -> F;
  fabs : F -> F;
  fsqrt : F -> F;
  fltb : F -> F -> bool;      (* a < b *)
  fleb : F -> F -> bool;      (* a <= b *)
  feqb : F -> F -> bool;      (* a == b *)
  of_Z : Z -> F;              (* int -> float *)
  ftrunc : F -> Z;            (* int(x) *)
  ffloor : F -> Z;            (* np.floor(x).astype(int) *)
  fpi : F                     (* np.pi *)
}.

(** A row of an (n,3) array. *)
Record V3 (F : Type) := mkV3 { vx : F; vy : F; vz : F }.
Arguments mkV3 {F} vx vy vz.
Arguments vx {F} v.
Arguments vy {F} v.
Arguments vz {F} v.

(** Libraries outside the repository's file: scikit-learn's KMeans and
    KernelDensity, [unravel.utils.xyz_to_spherical], and numpy's argsort of
    the default kind, which promises no order among equal keys.
    [kmeans_labels] stands for the labels of the one fit a call makes: KMeans
    is not seeded, and a second call may label the same rows the other way
    round. [kernel_density] is the estimate on rows without nan; the two
    places where the rows can hold nan raise before it is used. *)
Class Extern (F : Type) := {
  (* KMeans(n_clusters=2).fit(dirs).labels_ == 1, for at least two rows *)
  kmeans_labels : list (V3 F) -> list bool;
  (* np.exp(KernelDensity(kernel='gaussian', bandwidth=b).fit(X)
            .score_samples(X)), for the rows X of a two-column array *)
  kernel_density : F -> list (F * F) -> list F;
  (* xyz_to_spherical(v) = (r, theta, phi), row by row *)
  xyz_to_spherical : list (V3 F) -> list (V3 F);
  (* np.argsort(keys) of an integer array *)
  np_argsort : list Z -> list nat;
  (* keys.argsort() of a float array *)
  np_argsort_float : list F -> list nat
}.

(** ** Numpy helpers on plain lists *)

Section Numpy.
Context {A : Type}.

(* np.roll(a, 1): the last element comes first *)
Definition roll1 (a : list A) : list A :=
  match a with
  | [] => []
  | _ => drop (length a - 1) a ++ take (length a - 1) a
  end.

(* np.roll(a, -1): the first element goes last *)
Definition roll_1 (a : list A) : list A :=
  match a with
  | [] => []
  | x :: t => t ++ [x]
  end.

(* np.argwhere(mask) of a one-dimensional mask *)
Definition argwhere (mask : list bool) : list nat :=
  filter (fun i => mask !! i = Some true) (seq 0 (length mask)).

(* a[i] with Python's negative indices: IndexError out of range *)
Definition py_index (a : list A) (i : Z) : result A :=
  let n := Z.of_nat (length a) in
  let k := if (i <? 0)%Z then (i + n)%Z else i in
  if ((k <? 0)%Z || (n <=? k)%Z)%bool then Raise IndexError
  else match a !! Z.to_nat k with
       | Some x => Ok x
       | None => Raise IndexError
       end.

Fixpoint iter_n (n : nat) (f : A -> A) (x : A) : A :=
  match n with
  | O => x
  | S k => iter_n k f (f x)
  end.
End Numpy.

Definition bool_to_Z (b : bool) : Z := if b then 1%Z else 0%Z.

(** An index array as built by [np.array(list(filter(...)))] from the rows
    of an [argwhere] result: an integer array of shape (k,1) when some row is
    left, and the empty float64 array of shape (0,) otherwise, which numpy
    refuses as an index. *)
Inductive index_array :=
| IdxRows (rows : list nat)     (* int64, shape (k,1) *)
| IdxFlat (rows : list nat)     (* int64, shape (k,) *)
| IdxEmptyFloat.                (* float64, shape (0,) *)

Definition np_array_of_rows (rows : list nat) : index_array :=
  match rows with
  | [] => IdxEmptyFloat
  | _ => IdxRows rows
  end.

Definition idx_rows (a : index_array) : list nat :=
  match a with
  | IdxRows r | IdxFlat r => r
  | IdxEmptyFloat => []
  end.

(** The argument of [get_streamline_number_from_index]: a Python int, one
    row [idx[j]] of an index array (shape (1,)), or a whole index array of
    shape (k,1). *)
Inductive index_arg :=
| ArgInt (i : Z)
| ArgRow (i : nat)
| ArgRows (rows : list nat).

(** Its value: one streamline number, or an array of them. *)
Inductive owner :=
| OwnInt (n : nat)
| OwnArr (ns : list nat).

(** Insertion sort, as [np.sort] orders a column (ties keep their order). *)
Section Sort.
Context {A : Type} (leb : A -> A -> bool).

Fixpoint insert_sorted (x : A) (l : list A) : list A :=
  match l with
  | [] => [x]
  | y :: t => if leb x y then x :: l else y :: insert_sorted x t
  end.

Definition sort_by (l : list A) : list A := foldr insert_sorted [] l.
End Sort.

(* a stable argsort, which is one of the orders np.argsort may return: the
   positions of the keys in increasing order, equal keys in their order *)
Definition argsort {A : Type} (leb : A -> A -> bool) (keys : list A) : list nat :=
  snd <$> sort_by (fun a b => leb (fst a) (fst b)) (zip keys (seq 0 (length keys))).

(** ** Vectors and planes *)

Section Vectors.
Context {F : Type} `{Scalar F}.

Definition vzero : V3 F := mkV3 fzero fzero fzero.
Definition vadd (a b : V3 F) : V3 F :=
  mkV3 (fadd (vx a) (vx b)) (fadd (vy a) (vy b)) (fadd (vz a) (vz b)).
Definition vsub (a b : V3 F) : V3 F :=
  mkV3 (fsub (vx a) (vx b)) (fsub (vy a) (vy b)) (fsub (vz a) (vz b)).
Definition vmul (a b : V3 F) : V3 F :=
  mkV3 (fmul (vx a) (vx b)) (fmul (vy a) (vy b)) (fmul (vz a) (vz b)).
Definition vdivs (a : V3 F) (c : F) : V3 F :=
  mkV3 (fdiv (vx a) c) (fdiv (vy a) c) (fdiv (vz a) c).
Definition vscale (c : F) (a : V3 F) : V3 F :=
  mkV3 (fmul c (vx a)) (fmul c (vy a)) (fmul c (vz a)).
Definition vneg (a : V3 F) : V3 F := mkV3 (fneg (vx a)) (fneg (vy a)) (fneg (vz a)).
Definition vabs (a : V3 F) : V3 F := mkV3 (fabs (vx a)) (fabs (vy a)) (fabs (vz a)).
(* np.sum(v) of one row *)
Definition vsum3 (a : V3 F) : F := fadd (fadd (vx a) (vy a)) (vz a).
(* np.sum(a*b) and np.sum(a*b, axis=1) row by row *)
Definition vdot (a b : V3 F) : F := vsum3 (vmul a b).
(* np.linalg.norm(v) *)
Definition vnorm (a : V3 F) : F := fsqrt (vsum3 (vmul a a)).
(* np.cross(a, b) *)
Definition vcross (a b : V3 F) : V3 F :=
  mkV3 (fsub (fmul (vy a) (vz b)) (fmul (vz a) (vy b)))
       (fsub (fmul (vz a) (vx b)) (fmul (vx a) (vz b)))
       (fsub (fmul (vx a) (vy b)) (fmul (vy a) (vx b))).
(* v[k] for k in 0..2 *)
Definition vnth (a : V3 F) (k : nat) : F :=
  match k with 0 => vx a | 1 => vy a | _ => vz a end.

(* np.argmax(v), np.argmin(v): the first extremal component *)
Definition vargmax (a : V3 F) : nat :=
  let k := if fltb (vx a) (vy a) then 1 else 0 in
  if fltb (vnth a k) (vz a) then 2 else k.
Definition vargmin (a : V3 F) : nat :=
  let k := if fltb (vy a) (vx a) then 1 else 0 in
  if fltb (vz a) (vnth a k) then 2 else k.

Definition fsum (l : list F) : F := foldl fadd fzero l.
(* np.sum(rows, axis=0) and np.mean(rows, axis=0) *)
Definition vsum (l : list (V3 F)) : V3 F := foldl vadd vzero l.
Definition vmean (l : list (V3 F)) : V3 F :=
  vdivs (vsum l) (of_Z (Z.of_nat (length l))).

(* np.median of one column *)
Definition median (l : list F) : F :=
  let s := sort_by fleb l in
  let k := length s in
  if Nat.even k
  then fdiv (fadd (default fzero (s !! (k / 2 - 1))) (default fzero (s !! (k / 2))))
            (of_Z 2)
  else default fzero (s !! (k / 2)).
(* np.median(rows, axis=0) *)
Definition vmedian (l : list (V3 F)) : V3 F :=
  mkV3 (median (vx <$> l)) (median (vy <$> l)) (median (vz <$> l)).

(* np.where(x > 0, 1, -1) and np.where(x > 0, 1, 0) *)
Definition sign_pm (x : F) : Z := if fltb fzero x then 1%Z else (-1)%Z.
Definition sign_01 (x : F) : Z := if fltb fzero x then 1%Z else 0%Z.
End Vectors.

(** ** Loops that may raise *)

Fixpoint for_each {A S : Type} (l : list A) (body : S -> A -> result S) (st : S)
  : result S :=
  match l with
  | [] => Ok st
  | x :: t => st' ← body st x; for_each t body st'
  end.

(* a[i] for every i of a list, IndexError out of range *)
Definition rows_at {A : Type} (a : list A) (idx : list nat) : result (list A) :=
  mapM (fun i => py_index a (Z.of_nat i)) idx.

(* m[i, j] = v *)
Definition mat_set {A : Type} (m : list (list A)) (i j : nat) (v : A)
  : result (list (list A)) :=
  match m !! i with
  | Some row =>
      if decide (j < length row) then Ok (<[i := <[j := v]> row]> m)
      else Raise IndexError
  | None => Raise IndexError
  end.

(** ** The curve set ([ArraySequence]) and the occupancy volume *)

Record streams (F : Type) := mkStreams {
  s_data : list (V3 F);       (* _data: all points, flattened *)
  s_offsets : list nat;       (* _offsets: first point of each curve *)
  s_lengths : list nat        (* _lengths *)
}.
Arguments mkStreams {F} s_data s_offsets s_lengths.
Arguments s_data {F} s.
Arguments s_offsets {F} s.
Arguments s_lengths {F} s.

(** A 3D array in C order: voxel (x,y,z) is at [(x*Y + y)*Z + z]. *)
Record volume := mkVolume {
  v_shape : nat * nat * nat;
  v_data : list Z
}.

Definition vox_x (sh : nat * nat * nat) (p : nat) : nat := p / (sh.1.2 * sh.2).
Definition vox_y (sh : nat * nat * nat) (p : nat) : nat := (p / sh.2) mod sh.1.2.
Definition vox_z (sh : nat * nat * nat) (p : nat) : nat := p mod sh.2.

(* iterating over an ArraySequence *)
Definition curves {F : Type} (s : streams F) : list (list (V3 F)) :=
  zip_with (fun o l => take l (drop o (s_data s))) (s_offsets s) (s_lengths s).

(* remove_streamlines: the curves whose number is not in idx *)
Definition remove_streamlines {F : Type} (s : streams F) (idx : list nat)
  : list (list (V3 F)) :=
  snd <$> filter (fun p => p.1 ∉ idx) (zip (seq 0 (length (curves s))) (curves s)).

(* get_streamline_number_from_index. The subtraction offsets - index is
   done in int64, the type of the offsets: a Python int beyond int64 is
   refused with OverflowError before anything is looked up, and a difference
   beyond int64 wraps around. The differences are written here as they are
   when they stay within int64. *)
Definition get_streamline_number_from_index {F : Type} (s : streams F)
    (index : index_arg) : result owner :=
  let offsets := (Z.of_nat <$> s_offsets s) ++ [Z.of_nat (length (s_data s))] in
  let isin (ix : Z) := (fun o => bool_to_Z (0 <? o - ix)%Z) <$> offsets in
  let hits (row : list Z) :=
    argwhere (zip_with (fun r a => (r - a =? 1)%Z) (roll_1 row) row) in
  match index with
  | ArgInt i =>
      match hits (isin i) with
      | n :: _ => Ok (OwnInt n)
      | [] => Raise IndexError
      end
  | ArgRow _ => Raise AxisError      (* np.roll(isin, -1, axis=1), isin of one dimension *)
  | ArgRows rows => Ok (OwnArr (rows ≫= fun i => hits (isin (Z.of_nat i))))
  end.

(** ** Crossing detection, shared by the three consumers *)

(* np.argwhere(abs(np.roll(sign, 1) - sign) == 1) *)
Definition crossing_rows (sign : list Z) : list nat :=
  argwhere (zip_with (fun r s => (Z.abs (r - s) =? 1)%Z) (roll1 sign) sign).

(* list(filter(lambda x: x not in other, idx)) *)
Definition not_in (other idx : list nat) : list nat :=
  filter (fun x => x ∉ other) idx.

(* np.take_along_axis(streams_data, idx, axis=0) *)
Definition take_along_axis {A : Type} (a : list A) (idx : index_array)
  : result (list A) :=
  match idx with
  | IdxRows r => rows_at a r
  | IdxFlat _ => Raise ValueError
  | IdxEmptyFloat => Raise IndexError
  end.

(* streams_data[idx, :] *)
Definition fancy_rows {A : Type} (a : list A) (idx : index_array)
  : result (list A) :=
  match idx with
  | IdxRows r | IdxFlat r => rows_at a r
  | IdxEmptyFloat => Raise IndexError
  end.

Section Median.
Context {F : Type} `{Scalar F}.

Definition row (a : list (V3 F)) (k : nat) : V3 F := default vzero (a !! k).

(* tuple(np.average(indices) for indices in np.where(trk_roi == 1)) *)
Definition center_of_mass (roi : volume) : V3 F :=
  let ones := filter (fun p => v_data roi !! p = Some 1%Z)
                     (seq 0 (length (v_data roi))) in
  let avg (f : nat -> nat) :=
    fdiv (fsum ((fun p => of_Z (Z.of_nat (f p))) <$> ones))
         (of_Z (Z.of_nat (length ones))) in
  mkV3 (avg (vox_x (v_shape roi))) (avg (vox_y (v_shape roi)))
       (avg (vox_z (v_shape roi))).

(* the side of the plane (midpoint, normal) of every point: 1 or 0 *)
Definition plane_sign (data : list (V3 F)) (midpoint normal : V3 F) : list Z :=
  (fun p => sign_01 (vdot (vsub p midpoint) normal)) <$> data.

(* the indexes kept at node i by get_dist_from_median_trajectory *)
Definition median_crossings (s : streams F) (center : V3 F)
    (point_array : list (V3 F)) (i : nat) : index_array :=
  let midpoint := row point_array i in
  let normal := vsub (row point_array (i - 1)) (row point_array (i + 1)) in
  let sign := plane_sign (s_data s) midpoint normal in
  let idx := crossing_rows sign in
  let idx := not_in (s_offsets s) idx in
  let n_mp_com := vsub midpoint center in
  let com_filter :=
    argwhere ((fun p => fltb (vdot n_mp_com (vsub p center)) fzero) <$> s_data s) in
  np_array_of_rows (not_in com_filter idx).

(* for j, i_dist in enumerate(idx_dist): dist[i, owner(idx[j])] = i_dist *)
Definition record_dist (s : streams F) (i : nat) (dist : list (list F))
    (jd : nat * F) : result (list (list F)) :=
  n ← get_streamline_number_from_index s (ArgRow jd.1);
  match n with
  | OwnInt n => mat_set dist i n jd.2
  | OwnArr ns => for_each ns (fun d n => mat_set d i n jd.2) dist
  end.

Definition median_body (s : streams F) (center : V3 F)
    (point_array : list (V3 F)) (compute_dist : bool)
    (st : list (list F) * list (V3 F)) (i : nat)
  : result (list (list F) * list (V3 F)) :=
  if decide (i = 0) then Ok st
  else if decide (i = length point_array - 1) then Ok st
  else
    let idx := median_crossings s center point_array i in
    idx_pos ← take_along_axis (s_data s) idx;
    let med := vmedian idx_pos in
    let median_array := <[i := med]> st.2 in
    if negb compute_dist then Ok (st.1, median_array)
    else
      let idx_dist := (fun p => vnorm (vsub p med)) <$> idx_pos in
      dist ← for_each (zip (idx_rows idx) idx_dist) (record_dist s i) st.1;
      Ok (dist, median_array).

Definition get_dist_from_median_trajectory (s : streams F) (trk_roi : volume)
    (point_array : list (V3 F)) (compute_dist : bool)
  : result (list (list F) * list (V3 F)) :=
  let center := center_of_mass trk_roi in
  let dist := replicate (length point_array)
                        (replicate (length (s_offsets s)) fzero) in
  for_each (seq 0 (length point_array))
           (median_body s center point_array compute_dist)
           (dist, point_array).
End Median.

(** ** Orientation Resolver and Skeleton Builder: [extract_nodes] *)

Section Skeleton.
Context {F : Type} `{Scalar F} `{Extern F}.

(* a[mask] for a boolean mask *)
Definition mask_select {A : Type} (mask : list bool) (a : list A) : list A :=
  snd <$> filter (fun p => p.1 = true) (zip mask a).

(* np.percentile(a, q), linear interpolation between the two closest ranks *)
Definition percentile (a : list nat) (q : Z) : result F :=
  let srt := sort_by Nat.leb a in
  let n := Z.of_nat (length a) in
  let virtual := fmul (of_Z (n - 1)) (fdiv (of_Z q) (of_Z 100)) in
  let above := fleb (of_Z (n - 1)) virtual in
  let below := fltb virtual fzero in
  let previous := if below then 0%Z else if above then (-1)%Z else ffloor virtual in
  let next := if below then 0%Z else if above then (-1)%Z else (ffloor virtual + 1)%Z in
  lo ← py_index srt previous;
  hi ← py_index srt next;
  let gamma := fsub virtual (of_Z previous) in
  let diff := of_Z (Z.of_nat hi - Z.of_nat lo) in
  Ok (if fleb (fdiv (of_Z 1) (of_Z 2)) gamma
      then fsub (of_Z (Z.of_nat hi)) (fmul diff (fsub (of_Z 1) gamma))
      else fadd (of_Z (Z.of_nat lo)) (fmul diff gamma)).

(* Clustering of the end nodes and start/end assignment (lines 44-54,
   repeated at lines 409-419) *)
Definition end_points (s : streams F) : result (list (V3 F) * list (V3 F)) :=
  end_0 ← rows_at (s_data s) (s_offsets s);
  ends ← mapM (fun o => py_index (s_data s) (Z.of_nat o - 1)) (s_offsets s);
  let end_1 := roll_1 ends in
  let dirs := zip_with vsub end_1 end_0 in
  if decide (length dirs < 2) then Raise ValueError   (* KMeans: n_samples < n_clusters *)
  else
    let labels := kmeans_labels dirs in
    let pick (swap : bool) (k : nat) :=
      let flip := xorb swap (default false (labels !! k)) in
      if flip then default vzero (end_1 !! k) else default vzero (end_0 !! k) in
    Ok (pick false <$> seq 0 (length end_0), pick true <$> seq 0 (length end_0)).

(* The long, non-outlier curves [Q3 : Q3 + 1.5 IQR] (lines 56-60, repeated
   at lines 421-425) *)
Definition selec_streamlines (s : streams F) : result (list bool) :=
  q1 ← percentile (s_lengths s) 25;
  q3 ← percentile (s_lengths s) 75;
  let upper := fadd q3 (fmul (fdiv (of_Z 3) (of_Z 2)) (fsub q3 q1)) in
  Ok ((fun l => fltb q3 (of_Z (Z.of_nat l)) && negb (fltb upper (of_Z (Z.of_nat l))))
      <$> s_lengths s).

(* Their mean end points (lines 61-62, repeated at lines 426-427) *)
Definition mean_end_points (s : streams F) (start end_ : list (V3 F))
  : result (V3 F * V3 F) :=
  selec ← selec_streamlines s;
  Ok (vmean (mask_select selec start), vmean (mask_select selec end_)).

(* vote = np.sum(np.where(m_start - m_end > 0, 1, -1)) *)
Definition vote (m_start m_end : V3 F) : Z :=
  let d := vsub m_start m_end in
  (sign_pm (vx d) + sign_pm (vy d) + sign_pm (vz d))%Z.

(* line 71: the main axis outweighs the two others *)
Definition dominant_axis_rule (m_start m_end : V3 F) : bool :=
  let diff_abs := vabs (vsub m_start m_end) in
  let main_dir := vargmax diff_abs in
  fltb (fsub (vsum3 diff_abs) (vnth diff_abs main_dir)) (vnth diff_abs main_dir).

(* line 74: the smallest axis is under a quarter of the two others *)
Definition smallest_axis_rule (m_start m_end : V3 F) : bool :=
  let diff_abs := vabs (vsub m_start m_end) in
  let small_dir := vargmin diff_abs in
  fltb (vnth diff_abs small_dir)
       (fdiv (fsub (vsum3 diff_abs) (vnth diff_abs small_dir)) (of_Z 4)).

(* lines 67-79: whether m_start and m_end are exchanged *)
Definition swaps (m_start m_end : V3 F) : bool :=
  let diff_abs := vabs (vsub m_start m_end) in
  let main_dir := vargmax diff_abs in
  let small_dir := vargmin diff_abs in
  if dominant_axis_rule m_start m_end
  then fltb (vnth m_end main_dir) (vnth m_start main_dir)
  else if smallest_axis_rule m_start m_end
  then let idx := if decide (small_dir = 0) then 1 else 0 in
       fltb (vnth m_end idx) (vnth m_start idx)
  else (0 <? vote m_start m_end)%Z.

Definition orient (m : V3 F * V3 F) : V3 F * V3 F :=
  if swaps m.1 m.2 then (m.2, m.1) else m.

(* the rows kept by the two filters at the midplane of a window *)
Definition window_crossings (s : streams F) (m_start m_end : V3 F)
    (normal_previous normal_next : V3 F) : index_array :=
  let midpoint := vdivs (vadd m_start m_end) (of_Z 2) in
  let normal := vsub m_start m_end in
  let sign_previous :=
    (fun p => sign_pm (vdot (vsub p m_start) normal_previous)) <$> s_data s in
  let sign_next :=
    (fun p => sign_pm (vdot (vsub p m_end) normal_next)) <$> s_data s in
  let mp_sign_previous := sign_pm (vdot (vsub midpoint m_start) normal_previous) in
  let mp_sign_next := sign_pm (vdot (vsub midpoint m_end) normal_next) in
  let sign_previous := (fun x => bool_to_Z (x =? mp_sign_previous)%Z) <$> sign_previous in
  let sign_next := (fun x => bool_to_Z (x =? mp_sign_next)%Z) <$> sign_next in
  let idx_filter :=
    argwhere (zip_with (fun a b => negb (a + b =? 2)%Z) sign_next sign_previous) in
  let sign := plane_sign (s_data s) midpoint normal in
  let idx := crossing_rows sign in
  let idx := not_in (s_offsets s) idx in
  np_array_of_rows (not_in idx_filter idx).

(* the body of the two nested loops, for level j and window i *)
Definition bisect_window (s : streams F) (level : nat)
    (st : list (V3 F) * list (V3 F)) (ji : nat * nat)
  : result (list (V3 F) * list (V3 F)) :=
  let '(point_array, normal_array) := st in
  let '(j, i) := ji in
  let stride := 2 ^ (level - j - 1) in
  let m_start := row point_array (stride * 2 * i) in
  let m_end := row point_array (stride * (2 * i + 2)) in
  let midpoint := vdivs (vadd m_start m_end) (of_Z 2) in
  let normal := vsub m_start m_end in
  let normal_array := <[stride * (2 * i + 1) := normal]> normal_array in
  let normal_previous := row normal_array (stride * (2 * i)) in
  let normal_next := row normal_array (stride * (2 * i + 2)) in
  let idx := window_crossings s m_start m_end normal_previous normal_next in
  match fancy_rows (s_data s) idx with
  | Ok points => Ok (<[stride * (2 * i + 1) := vmean points]> point_array, normal_array)
  | Raise IndexError => Ok (<[stride * (2 * i + 1) := midpoint]> point_array, normal_array)
  | Raise e => Raise e
  end.

(* for j in range(level): for i in range(2**j) *)
Definition windows (level : nat) : list (nat * nat) :=
  j ← seq 0 level; (fun i => (j, i)) <$> seq 0 (2 ^ j).

(* lines 85-137 *)
Definition bisect (s : streams F) (level : nat) (m_start m_end : V3 F)
  : result (list (V3 F)) :=
  let size := 2 ^ level + 1 in
  let point_array := <[size - 1 := m_end]> (<[0 := m_start]> (replicate size vzero)) in
  let normal := vsub m_start m_end in
  let normal_array := <[size - 1 := normal]> (<[0 := normal]> (replicate size vzero)) in
  st ← for_each (windows level) (bisect_window s level) (point_array, normal_array);
  Ok st.1.

(* lines 44-79: the resolved start and end centres *)
Definition resolved_centers (s : streams F) : result (V3 F * V3 F) :=
  se ← end_points s;
  m ← mean_end_points s se.1 se.2;
  Ok (orient m).

Definition extract_nodes (s : streams F) (trk_roi : volume) (level : nat)
    (smooth : bool) : result (list (V3 F)) :=
  m ← resolved_centers s;
  let '(m_start, m_end) := m in
  point_array ← bisect s level m_start m_end;
  if smooth
  then r ← get_dist_from_median_trajectory s trk_roi point_array false; Ok r.2
  else Ok point_array.
End Skeleton.

(** ** Density Outlier Filter: [remove_outlier_streamlines] *)

Record outlier_options (F : Type) := mkOptions {
  outlier_ratio : F;
  remove_outlier_dir : bool;
  bandwidth : F;
  neighbors_required : Z;
  bandwidth_dir : F;
  neighbors_required_dir : Z;
  keep_ratio : F
}.
Arguments outlier_ratio {F} o.
Arguments remove_outlier_dir {F} o.
Arguments bandwidth {F} o.
Arguments neighbors_required {F} o.
Arguments bandwidth_dir {F} o.
Arguments neighbors_required_dir {F} o.
Arguments keep_ratio {F} o.

(* a[:k] *)
Definition py_prefix {A : Type} (a : list A) (k : Z) : list A :=
  if (k <? 0)%Z then take (Z.to_nat (Z.of_nat (length a) + k)) a
  else take (Z.to_nat k) a.

(* np.concatenate((a, b)) of two index arrays *)
Definition concatenate (a b : index_array) : result index_array :=
  match a, b with
  | IdxRows x, IdxRows y => Ok (IdxRows (x ++ y))
  | IdxFlat x, IdxFlat y => Ok (IdxFlat (x ++ y))
  | _, _ => Raise ValueError
  end.

Section Outliers.
Context {F : Type} `{Scalar F} `{Extern F}.

(* lines 346-353: the unit normal of the plane at node i, and the dot
   product of every point with it *)
Definition outlier_normal (point_array : list (V3 F)) (i : nat) : V3 F :=
  let normal := vsub (row point_array (i - 1)) (row point_array (i + 1)) in
  vdivs normal (vnorm normal).

Definition outlier_dot (s : streams F) (point_array : list (V3 F)) (i : nat) : list F :=
  (fun p => vdot (vsub p (row point_array i)) (outlier_normal point_array i)) <$> s_data s.

(* lines 354-356: the rows kept at node i *)
Definition outlier_crossings (s : streams F) (point_array : list (V3 F)) (i : nat)
  : index_array :=
  let sign := sign_01 <$> outlier_dot s point_array i in
  let idx := crossing_rows sign in
  np_array_of_rows (not_in (s_offsets s) idx).

(* lines 358-376: the density of every crossing in its plane. Where the
   normal runs along the last axis, y_comp is 0/0, the rows of points_2D
   hold nan and KernelDensity.fit raises ValueError. *)
Definition crossing_density (s : streams F) (point_array : list (V3 F)) (i : nat)
    (bw : F) (idx : index_array) : result (list F) :=
  let midpoint := row point_array i in
  let normal := outlier_normal point_array i in
  let dot := outlier_dot s point_array i in
  idx_pos ← take_along_axis (s_data s) idx;
  dot_pos ← rows_at dot (idx_rows idx);
  let proj_onto_plane :=
    zip_with (fun p d => vadd (vsub (vsub p midpoint) (vscale d normal)) midpoint)
             idx_pos dot_pos in
  let z_vec := mkV3 (of_Z 0) (of_Z 0) (of_Z 1) in
  let y_comp := vsub z_vec (vscale (vdot z_vec normal) normal) in
  if feqb (vnorm y_comp) fzero then Raise ValueError
  else
    let y_comp := vdivs y_comp (vnorm y_comp) in
    let x_comp := vcross y_comp normal in
    let points_2D :=
      (fun p => (vdot p (vneg x_comp), vdot p (vneg y_comp))) <$> proj_onto_plane in
    Ok ((fun d => fmul d (of_Z (Z.of_nat (length points_2D))))
          <$> kernel_density bw points_2D).

(* the body of the loop over the nodes, lines 339-383 *)
Definition density_body (s : streams F) (point_array : list (V3 F)) (bw : F)
    (dens : list (list F)) (i : nat) : result (list (list F)) :=
  if decide (i = 0) then Ok dens
  else if decide (i = length point_array - 1) then Ok dens
  else
    let idx := outlier_crossings s point_array i in
    kde ← crossing_density s point_array i bw idx;
    n ← get_streamline_number_from_index s (ArgRows (idx_rows idx));
    let n := match n with OwnInt k => [k] | OwnArr ks => ks end in
    let kde_decrease_idx := np_argsort_float (fneg <$> kde) in
    cols ← rows_at n kde_decrease_idx;
    vals ← rows_at kde kde_decrease_idx;
    for_each (zip cols vals) (fun d cv => mat_set d i cv.1 cv.2) dens.

Definition density_map (s : streams F) (point_array : list (V3 F)) (bw : F)
  : result (list (list F)) :=
  for_each (seq 0 (length point_array)) (density_body s point_array bw)
           (replicate (length point_array) (replicate (length (s_offsets s)) fzero)).

(* lines 385-392: the outlier flags of the interior nodes *)
Definition outlier_flags (dens : list (list F)) (t : F) : list (list bool) :=
  let flag_row (r : list F) :=
    let nz := filter (fun d => feqb d fzero = false) r in
    let m := fdiv (fsum nz) (of_Z (Z.of_nat (length nz))) in
    (fun d => fleb d t && negb (feqb d fzero) && negb (fltb m d)) <$> r in
  take (length dens - 2) (drop 1 (flag_row <$> dens)).

(* np.sum(a, axis=0) of a boolean array with [cols] columns *)
Definition column_count (cols : nat) (a : list (list bool)) : list Z :=
  (fun c => Z.of_nat (length (filter (fun r => r !! c = Some true) a)))
  <$> seq 0 cols.

(* n_sign: at how many interior nodes each curve is an outlier *)
Definition outlier_node_count (cols : nat) (dens : list (list F)) (t : F) : list Z :=
  column_count cols (outlier_flags dens t).

(* n_val: at how many nodes each curve has a recorded crossing *)
Definition crossed_node_count (cols : nat) (dens : list (list F)) : list Z :=
  column_count cols (fmap (M := list) (fltb fzero) <$> dens).

(* line 397: the curves that are outliers on more than outlier_ratio of
   the nodes they cross *)
Definition flagged (o : outlier_options F) (n_sign n_val : list Z) : list nat :=
  argwhere (zip_with (fun sg v => fltb (fmul (of_Z v) (outlier_ratio o)) (of_Z sg))
                     n_sign n_val).

(* line 399: more than keep_ratio of the curves would be removed *)
Definition capped (o : outlier_options F) (n_sign : list Z) (n_idx : list nat) : bool :=
  fltb (fmul (keep_ratio o) (of_Z (Z.of_nat (length n_sign))))
       (of_Z (Z.of_nat (length n_idx))).

(* lines 401-403: the first keep_num_idx curves by decreasing n_sign *)
Definition worst_first (o : outlier_options F) (n_sign : list Z) : list nat :=
  let sorted_indexes := np_argsort (Z.opp <$> n_sign) in
  let keep_num_idx := ftrunc (fmul (of_Z (Z.of_nat (length n_sign))) (keep_ratio o)) in
  py_prefix sorted_indexes keep_num_idx.

(* lines 394-403: the curves removed for their position *)
Definition position_outliers (o : outlier_options F) (cols : nat)
    (dens : list (list F)) (t : F) : index_array :=
  let n_sign := outlier_node_count cols dens t in
  let n_val := crossed_node_count cols dens in
  let n_idx := flagged o n_sign n_val in
  if capped o n_sign n_idx then IdxFlat (worst_first o n_sign) else IdxRows n_idx.

(* lines 405-451: the curves removed for their direction. Where no curve
   is selected as long, m_start and m_end are means of nothing, the rows of
   X hold nan and KernelDensity.fit raises ValueError. *)
Definition direction_outliers (s : streams F) (o : outlier_options F)
  : result index_array :=
  se ← end_points s;
  selec ← selec_streamlines s;
  m ← mean_end_points s se.1 se.2;
  match mask_select selec se.1 with
  | [] => Raise ValueError
  | _ :: _ =>
      let average_dir := vsub m.2 m.1 in
      let sph := xyz_to_spherical (zip_with vsub se.2 se.1) in
      let sph_a := default vzero (head (xyz_to_spherical [average_dir])) in
      let wrap (x : F) :=
        let x := if fltb x (fneg fpi) then fadd x (fmul (of_Z 2) fpi) else x in
        fdiv (fmul x (of_Z 180)) fpi in
      let X := (fun a => (wrap (fsub (vy a) (vy sph_a)), wrap (fsub (vz a) (vz sph_a))))
               <$> sph in
      let nb := neighbors_required_dir o in
      let bw := fmul (bandwidth_dir o) (of_Z nb) in
      let dens :=
        (fun d => fmul d (of_Z (Z.of_nat (length X)))) <$> kernel_density bw X in
      let thresh := fdiv (of_Z nb) (fmul (fmul (of_Z 2) fpi) (fmul bw bw)) in
      Ok (IdxRows (argwhere ((fun d => fltb d thresh) <$> dens)))
  end.

(* line 334: the bandwidth scaled by the number of neighbours, and line 386:
   the density under which a crossing is an outlier *)
Definition scaled_bandwidth (o : outlier_options F) : F :=
  fmul (bandwidth o) (of_Z (neighbors_required o)).
Definition density_threshold (o : outlier_options F) : F :=
  fdiv (of_Z (neighbors_required o))
       (fmul (fmul (of_Z 2) fpi) (fmul (scaled_bandwidth o) (scaled_bandwidth o))).

(* the indexes handed to remove_streamlines *)
Definition removed_indexes (s : streams F) (point_array : list (V3 F))
    (o : outlier_options F) : result index_array :=
  dens ← density_map s point_array (scaled_bandwidth o);
  let n_idx := position_outliers o (length (s_offsets s)) dens (density_threshold o) in
  if remove_outlier_dir o
  then n_idx_gaus ← direction_outliers s o; concatenate n_idx n_idx_gaus
  else Ok n_idx.

(* the curves of the tractogram that is saved *)
Definition remove_outlier_streamlines (s : streams F) (point_array : list (V3 F))
    (o : outlier_options F) : result (list (list (V3 F))) :=
  n_idx ← removed_indexes s point_array o;
  Ok (remove_streamlines s (idx_rows n_idx)).
End Outliers.

(** ** Section Partitioner: [get_roi_sections_from_nodes] *)

(* the flat position of a[x, y, z], with Python's negative indices *)
Definition vol_index (sh : nat * nat * nat) (x y z : Z) : result nat :=
  let norm (k : Z) (dim : nat) : result nat :=
    let k' := if (k <? 0)%Z then (k + Z.of_nat dim)%Z else k in
    if ((k' <? 0)%Z || (Z.of_nat dim <=? k')%Z)%bool then Raise IndexError
    else Ok (Z.to_nat k') in
  x' ← norm x sh.1.1;
  y' ← norm y sh.1.2;
  z' ← norm z sh.2;
  Ok ((x' * sh.1.2 + y') * sh.2 + z').

(* the face neighbours of a voxel (connectivity=1) *)
Definition neighbours (sh : nat * nat * nat) (p : nat) : list nat :=
  let '(X, Y, Z) := sh in
  let x := vox_x sh p in
  let y := vox_y sh p in
  let z := vox_z sh p in
  (if decide (0 < x) then [p - Y * Z] else [])
  ++ (if decide (x + 1 < X) then [p + Y * Z] else [])
  ++ (if decide (0 < y) then [p - Z] else [])
  ++ (if decide (y + 1 < Y) then [p + Z] else [])
  ++ (if decide (0 < z) then [p - 1] else [])
  ++ (if decide (z + 1 < Z) then [p + 1] else []).

(** [skimage.morphology.flood(image, seed, tolerance, connectivity=1)]: the
    voxels joined to the seed through face neighbours whose value is within
    the tolerance of the seed's value, grown one layer at a time. *)
Definition flood_step (sh : nat * nat * nat) (image : list Z) (low high : Z)
    (region : list bool) : list bool :=
  imap (fun p v =>
          default false (region !! p)
          || ((low <=? v)%Z && (v <=? high)%Z
              && existsb (fun q => default false (region !! q)) (neighbours sh p)))
       image.

Definition flood (sh : nat * nat * nat) (image : list Z) (seed : nat) (tolerance : Z)
  : list bool :=
  let seed_value := default 0%Z (image !! seed) in
  let start := imap (fun p _ => bool_decide (p = seed)) image in
  iter_n (length image)
         (flood_step sh image (seed_value - Z.abs tolerance) (seed_value + Z.abs tolerance))
         start.

Section Partition.
Context {F : Type} `{Scalar F}.

(* one row of xyz_flat: the centre of a voxel *)
Definition voxel_center (sh : nat * nat * nat) (p : nat) : V3 F :=
  let half := fdiv (of_Z 1) (of_Z 2) in
  mkV3 (fadd (of_Z (Z.of_nat (vox_x sh p))) half)
       (fadd (of_Z (Z.of_nat (vox_y sh p))) half)
       (fadd (of_Z (Z.of_nat (vox_z sh p))) half).

(* try: point_array[i-2] except IndexError: point_array[i-1] *)
Definition previous_node (point_array : list (V3 F)) (i : nat) : result (V3 F) :=
  match py_index point_array (Z.of_nat i - 2) with
  | Raise IndexError => py_index point_array (Z.of_nat i - 1)
  | r => r
  end.

(* try: point_array[i+1] except IndexError: point_array[i] *)
Definition next_node (point_array : list (V3 F)) (i : nat) : result (V3 F) :=
  match py_index point_array (Z.of_nat i + 1) with
  | Raise IndexError => py_index point_array (Z.of_nat i)
  | r => r
  end.

(* sign_mp_slice of one voxel: between the two bounding planes *)
Definition slab_test (m_previous m_start m_end m_next xyz : V3 F) : Z :=
  let midpoint := vdivs (vadd m_start m_end) (of_Z 2) in
  let n_start := vsub m_previous m_end in
  let n_end := vsub m_start m_next in
  let sign_xyz_start := sign_pm (vdot n_start (vsub m_start xyz)) in
  let sign_xyz_end := sign_pm (vdot n_end (vsub xyz m_end)) in
  let sign_mp_start := sign_pm (vdot n_start (vsub m_start midpoint)) in
  let sign_mp_end := sign_pm (vdot n_end (vsub midpoint m_end)) in
  let both := (bool_to_Z (sign_xyz_start =? sign_mp_start)%Z
               + bool_to_Z (sign_xyz_end =? sign_mp_end)%Z)%Z in
  bool_to_Z (both =? 2)%Z.

(* sign_mp_com of one voxel: same side as the midpoint from the centre *)
Definition com_test (center m_start m_end xyz : V3 F) : Z :=
  let midpoint := vdivs (vadd m_start m_end) (of_Z 2) in
  sign_01 (vdot (vsub midpoint center) (vsub xyz center)).

(* lines 516-556: the voxels given label i, from the four reference nodes
   of the section *)
Definition label_section (trk_roi : volume) (center : V3 F) (simplify_shape : bool)
    (mask : list Z) (i : nat) (m_previous m_start m_end m_next : V3 F)
  : result (list Z) :=
  let midpoint := vdivs (vadd m_start m_end) (of_Z 2) in
  let sh := v_shape trk_roi in
  let roi_mp_slice :=
    imap (fun p v => (slab_test m_previous m_start m_end m_next (voxel_center sh p) * v)%Z)
         (v_data trk_roi) in
  let roi_mp_com :=
    imap (fun p v => (com_test center m_start m_end (voxel_center sh p) * v)%Z)
         (v_data trk_roi) in
  let roi := zip_with Z.add roi_mp_slice roi_mp_com in
  roi ← (if simplify_shape
         then
           dot ← vol_index sh (ffloor (vx midpoint)) (ffloor (vy midpoint))
                              (ffloor (vz midpoint));
           at_dot ← py_index roi (Z.of_nat dot);
           if (at_dot =? 2)%Z
           then
             let roi_connec := flood sh (zip_with Z.mul roi roi_mp_slice) dot 1 in
             Ok ((fun b : bool => if b then 2%Z else 0%Z) <$> roi_connec)
           else Ok roi
         else Ok roi);
  Ok (zip_with (fun r m => if (r =? 2)%Z then Z.of_nat i else m) roi mask).

(* the body of the loop over the nodes, lines 501-556 *)
Definition section_body (trk_roi : volume) (center : V3 F)
    (point_array : list (V3 F)) (simplify_shape : bool)
    (mask : list Z) (i : nat) : result (list Z) :=
  if decide (i = 0) then Ok mask
  else
    m_previous ← previous_node point_array i;
    m_start ← py_index point_array (Z.of_nat i - 1);
    m_end ← py_index point_array (Z.of_nat i);
    m_next ← next_node point_array i;
    label_section trk_roi center simplify_shape mask i m_previous m_start m_end m_next.

Definition get_roi_sections_from_nodes (trk_roi : volume)
    (point_array : list (V3 F)) (simplify_shape : bool) : result (list Z) :=
  let center := center_of_mass trk_roi in
  for_each (seq 0 (length point_array))
           (section_body trk_roi center point_array simplify_shape)
           (replicate (length (v_data trk_roi)) 0%Z).
End Partition.

(** ** Smoothing: [smooth_streamlines] *)

(* a[i] = v with Python's negative indices: IndexError out of range *)
Definition py_set {A : Type} (a : list A) (i : Z) (v : A) : result (list A) :=
  let n := Z.of_nat (length a) in
  let k := if (i <? 0)%Z then (i + n)%Z else i in
  if ((k <? 0)%Z || (n <=? k)%Z)%bool then Raise IndexError
  else Ok (<[Z.to_nat k := v]> a).

(* dst[idx] = src[idx] for an integer index array idx *)
Definition copy_rows {A : Type} (dst src : list A) (idx : list Z) : result (list A) :=
  vals ← mapM (py_index src) idx;
  for_each (zip idx vals) (fun d iv => py_set d iv.1 iv.2) dst.

Section Smoothing.
Context {F : Type} `{Scalar F}.

(* lines 583-595: the curve set that is saved *)
Definition smooth_streamlines (s : streams F) : result (streams F) :=
  let point := s_data s in
  let smoothed_point :=
    (fun v => vdivs v (of_Z 3))
    <$> zip_with vadd (zip_with vadd (roll1 point) point) (roll_1 point) in
  let starts := Z.of_nat <$> s_offsets s in
  let ends := (fun o => (o - 1)%Z) <$> starts in
  data ← copy_rows smoothed_point point starts;
  data ← copy_rows data point ends;
  Ok (mkStreams data (s_offsets s) (s_lengths s)).
End Smoothing.

(** ** Exact rational arithmetic as an instance, for concrete runs *)

(* the root of a rational, exact on squares: sqrt(a/b) = sqrt(a*b)/b *)
Definition Qsqrt (q : Q) : Q :=
  Qmake (Z.sqrt (Qnum q * Zpos (Qden q))) (Qden q).

#[global] Instance Q_scalar : Scalar Q := {|
  fzero := 0%Q;
  fadd := Qplus;
  fsub := Qminus;
  fmul := Qmult;
  fdiv := Qdiv;
  fneg := Qopp;
  fabs := Qabs;
  fsqrt := Qsqrt;
  fltb := fun a b => negb (Qle_bool b a);
  fleb := Qle_bool;
  feqb := Qeq_bool;
  of_Z := inject_Z;
  ftrunc := fun q => Z.quot (Qnum q) (Zpos (Qden q));
  ffloor := Qfloor;
  fpi := Qmake 355 113
|}.

(** Stand-ins for the external libraries: curves are labelled by the sign of
    the last component of their direction; the kernel density is the value
    of the Gaussian kernel at distance zero for every pair of points,
    n * 1/(2 pi b^2) / n, which is the Gaussian estimate itself when the rows
    are all equal and bounds it from above otherwise; the spherical
    coordinates are left as the vector itself; the sorts are stable. *)
#[global] Instance Q_extern : Extern Q := {|
  kmeans_labels := fun dirs => (fun d => negb (Qle_bool 0 (vz d))) <$> dirs;
  kernel_density := fun b X =>
    (fun _ => 1 / (2 * Qmake 355 113 * (b * b)))%Q <$> X;
  xyz_to_spherical := fun v => v;
  np_argsort := argsort Z.leb;
  np_argsort_float := argsort Qle_bool
|}.

Definition qv (x y z : Z) : V3 Q := mkV3 (inject_Z x) (inject_Z y) (inject_Z z).

(* a straight curve along the last axis, from height z0, at (x, y) *)
Definition line (x y z0 : Z) (n : nat) : list (V3 Q) :=
  (fun k => qv x y (z0 + Z.of_nat k)) <$> seq 0 n.

(* the ArraySequence of a list of curves *)
Definition streams_of {F : Type} (cs : list (list (V3 F))) : streams F :=
  mkStreams (concat cs)
            (fst (foldl (fun acc c => (acc.1 ++ [acc.2], acc.2 + length c)) ([], 0) cs))
            (length <$> cs).

(** ** Bundles and skeletons used in the concrete runs *)

(* two straight curves of four points each; the second starts where the
   plane z = 3/2 has just been crossed by the first *)
Definition two_lines : streams Q := streams_of [line 0 0 0 4; line 1 0 0 4].

(* a bundle of eight straight curves of 4 to 11 points along the last axis,
   two of which (10 and 11 points) are long without being outliers *)
Definition eight_lines : streams Q :=
  streams_of [line 0 0 0 4; line 1 0 0 5; line 0 1 0 6; line 1 1 0 7;
              line 0 0 0 8; line 1 0 0 9; line 0 1 0 10; line 1 1 0 11].

(* its occupancy volume: the 2 x 2 x 11 voxels the curves run through *)
Definition eight_lines_roi : volume := mkVolume (2, 2, 11) (replicate 44 1%Z).

(* an occupancy volume of 2 x 2 x 6 voxels with five empty voxels, and a
   skeleton of four nodes along its last axis *)
Definition block_roi : volume :=
  mkVolume (2, 2, 6) [1; 1; 1; 1; 1; 1;  1; 1; 0; 1; 1; 1;
                      1; 1; 1; 1; 1; 1;  0; 0; 0; 0; 1; 1]%Z.
Definition block_nodes : list (V3 Q) :=
  [mkV3 (1 # 2) (1 # 2) 0; mkV3 (1 # 2) (1 # 2) 2; mkV3 (1 # 2) (1 # 2) 4;
   mkV3 (1 # 2) (1 # 2) 6]%Q.

(* a curve made of its first point followed by n-1 copies of its last *)
Definition segment (a b : V3 Q) (n : nat) : list (V3 Q) := a :: replicate (n - 1) b.

(* two curves and a skeleton of three nodes on the last axis; the first
   curve jumps from below the plane of node 1 to beyond the plane of node 2 *)
Definition jump_bundle : streams Q :=
  streams_of [[qv 0 0 1; qv 0 0 5]; [qv 1 0 1; qv 1 0 3]].
Definition three_nodes : list (V3 Q) := [qv 0 0 0; qv 0 0 2; qv 0 0 4].

(* ten curves of 4 to 11 points with end points on the last axis, from
   (0,0,0) to (0,0,3), but for one of the three long ones (11 points), which
   starts at (6,6,0); four of the shorter curves are stored backwards, which
   is what the two clusters of directions tell apart *)
Definition vote_bundle : streams Q :=
  streams_of [segment (qv 0 0 0) (qv 0 0 3) 4; segment (qv 0 0 3) (qv 0 0 0) 5;
              segment (qv 0 0 0) (qv 0 0 3) 6; segment (qv 0 0 3) (qv 0 0 0) 7;
              segment (qv 0 0 0) (qv 0 0 3) 8; segment (qv 0 0 3) (qv 0 0 0) 9;
              segment (qv 0 0 3) (qv 0 0 0) 10;
              segment (qv 6 6 0) (qv 0 0 3) 11;
              segment (qv 0 0 0) (qv 0 0 3) 11; segment (qv 0 0 0) (qv 0 0 3) 11].

Definition two_nodes : list (V3 Q) := [qv 0 0 0; qv 0 0 4].
Definition default_options : outlier_options Q :=
  mkOptions Q (1 # 2) false (1 # 5) 5%Z 1%Q 10%Z (1 # 2).
Definition direction_options : outlier_options Q :=
  mkOptions Q (1 # 2) true (1 # 5) 5%Z 1%Q 10%Z (1 # 2).

(* a straight curve along the first axis, from x0, at (y, z) *)
Definition xline (y z x0 : Z) (n : nat) : list (V3 Q) :=
  (fun k => qv (x0 + Z.of_nat k) y z) <$> seq 0 n.

(* four curves of 4 to 7 points that lie on one another along the first
   axis, and a skeleton of three nodes on that axis. The four crossings of the
   plane of the middle node are one and the same point, where the Gaussian
   estimate is four times the kernel at distance zero. *)
Definition stacked_lines : streams Q :=
  streams_of [xline 0 0 0 4; xline 0 0 0 5; xline 0 0 0 6; xline 0 0 0 7].
Definition x_nodes : list (V3 Q) := [qv 0 0 0; qv 2 0 0; qv 4 0 0].

(* a slab of 4 x 4 x 1 occupied voxels and a skeleton of four nodes that
   runs along the first axis and bends into the second *)
Definition bent_roi : volume := mkVolume (4, 4, 1) (replicate 16 1%Z).
Definition bent_nodes : list (V3 Q) :=
  [mkV3 (3 # 4) (3 # 4) (1 # 2); mkV3 (9 # 4) (3 # 4) (1 # 2);
   mkV3 (13 # 4) (7 # 4) (1 # 2); mkV3 (13 # 4) (13 # 4) (1 # 2)]%Q.

(** ** Auxiliary notions used in the statements *)

Section SpecNotions.
Context {F : Type} `{Scalar F}.

(** The consistency filter in the words of the spec (4.2): a crossing is
    kept when it lies on the side of the start-plane and of the end-plane
    on which the midpoint lies. *)
Definition passes_consistency (m_start normal_start m_end normal_end midpoint p : V3 F)
  : bool :=
  (sign_pm (vdot (vsub p m_start) normal_start)
   =? sign_pm (vdot (vsub midpoint m_start) normal_start))%Z
  && (sign_pm (vdot (vsub p m_end) normal_end)
      =? sign_pm (vdot (vsub midpoint m_end) normal_end))%Z.

(** The majority vote in the words of the spec (4.1): for every curve, the
    sign of (start - end), summed componentwise. *)
Definition per_curve_vote (start end_ : list (V3 F)) : Z :=
  foldr Z.add 0%Z (zip_with vote start end_).

(** The Section Partitioner in the words of the spec (4.5): the first
    bounding plane uses node[i-2], or node[i-1] at the start of the sequence. *)
Definition clamped_previous_node (point_array : list (V3 F)) (i : nat) : result (V3 F) :=
  if decide (i < 2) then py_index point_array (Z.of_nat i - 1)
  else py_index point_array (Z.of_nat i - 2).

Definition section_body_clamped (trk_roi : volume) (center : V3 F)
    (point_array : list (V3 F)) (simplify_shape : bool)
    (mask : list Z) (i : nat) : result (list Z) :=
  if decide (i = 0) then Ok mask
  else
    m_previous ← clamped_previous_node point_array i;
    m_start ← py_index point_array (Z.of_nat i - 1);
    m_end ← py_index point_array (Z.of_nat i);
    m_next ← next_node point_array i;
    label_section trk_roi center simplify_shape mask i m_previous m_start m_end m_next.

Definition partition_sections_clamped (trk_roi : volume)
    (point_array : list (V3 F)) (simplify_shape : bool) : result (list Z) :=
  for_each (seq 0 (length point_array))
           (section_body_clamped trk_roi (center_of_mass trk_roi) point_array simplify_shape)
           (replicate (length (v_data trk_roi)) 0%Z).
End SpecNotions.


(* the position np.roll(sign, 1) compares position p with *)
Definition cyclic_pred (n p : nat) : nat := if decide (p = 0) then n - 1 else p - 1.

(* the voxel that holds the midpoint of section i, where the flood fill is
   seeded *)
Definition seed_voxel {F : Type} `{Scalar F} (trk_roi : volume)
    (point_array : list (V3 F)) (i : nat) : result nat :=
  let midpoint := vdivs (vadd (row point_array (i - 1)) (row point_array i)) (of_Z 2) in
  vol_index (v_shape trk_roi) (ffloor (vx midpoint)) (ffloor (vy midpoint))
            (ffloor (vz midpoint)).

(* every voxel of the occupancy volume is 0 or 1 *)
Definition binary_mask (trk_roi : volume) : Prop :=
  Forall (fun v => v = 0%Z \/ v = 1%Z) (v_data trk_roi).

(** What the cap of the outlier filter needs of the arithmetic: truncation
    of a number that is not below zero is not below zero and not above the
    number, a product of such numbers is not below zero, products commute,
    and "not below an integer" goes down to smaller integers. Rationals
    satisfy it, and so do IEEE doubles. *)
Record ratio_arith (F : Type) `{Scalar F} : Prop := {
  trunc_not_negative : forall x, fltb x fzero = false -> (0 <= ftrunc x)%Z;
  trunc_not_above : forall x, fltb x fzero = false -> fltb x (of_Z (ftrunc x)) = false;
  mul_not_negative : forall k n,
    fltb k fzero = false -> (0 <= n)%Z -> fltb (fmul (of_Z n) k) fzero = false;
  mul_commutes : forall a b, fmul a b = fmul b a;
  not_below_smaller : forall x a b,
    (a <= b)%Z -> fltb x (of_Z b) = false -> fltb x (of_Z a) = false
}.

(** What the cap needs of [np.argsort]: its result lists every position
    once, and no key at a position listed earlier is above a key at a position
    listed later. Equal keys may come in any order. *)
Record argsort_sorts (F : Type) `{Extern F} : Prop := {
  np_argsort_perm : forall keys, np_argsort keys ≡ₚ seq 0 (length keys);
  np_argsort_sorted : forall keys k r c,
    r ∈ take k (np_argsort keys) -> c ∈ drop k (np_argsort keys) ->
    exists kr kc, keys !! r = Some kr /\ keys !! c = Some kc /\ (kr <= kc)%Z
}.

(** The curve set that stores the non-empty curves [cs] one after the
    other: the data is their concatenation, the offsets are the running sums
    of their lengths. *)
Fixpoint offsets_from {A : Type} (o : nat) (cs : list (list A)) : list nat :=
  match cs with
  | [] => []
  | c :: t => o :: offsets_from (o + length c) t
  end.

Definition arrayseq {F : Type} (cs : list (list (V3 F))) (s : streams F) : Prop :=
  s_data s = concat cs
  /\ s_offsets s = offsets_from 0 cs
  /\ s_lengths s = length <$> cs
  /\ Forall (fun c => c ≠ []) cs.

(* the row of the first point of curve k *)
Definition start_of {A : Type} (cs : list (list A)) (k : nat) : nat :=
  length (concat (take k cs)).

(* point j of curve c is stored at row p, and is not the first point *)
Definition inside_curve {A : Type} (cs : list (list A)) (p c : nat) : Prop :=
  exists curve j, cs !! c = Some curve /\ 0 < j < length curve /\ p = start_of cs c + j.

(* the row a Python index stands for in an array of n rows *)
Definition py_row (n : nat) (i : Z) : nat :=
  Z.to_nat (if (i <? 0)%Z then (i + Z.of_nat n)%Z else i).

(* what is known of the density map while it is filled *)
Definition density_known {F : Type} `{Scalar F} (cs : list (list (V3 F))) (s : streams F)
    (point_array : list (V3 F)) (d : list (list F)) : Prop :=
  length d = length point_array
  /\ forall r row, d !! r = Some row ->
       length row = length cs
       /\ forall c e, row !! c = Some e ->
            e = fzero
            \/ (0 < r < length point_array - 1
                /\ exists p, p ∈ idx_rows (outlier_crossings s point_array r)
                             /\ inside_curve cs p c).

(* section i, computed alone on an empty labelled volume, labels voxel p *)
Definition section_claims {F : Type} `{Scalar F} (trk_roi : volume) (point_array : list (V3 F))
    (simplify_shape : bool) (i p : nat) : Prop :=
  i ≠ 0
  /\ exists m,
       section_body trk_roi (center_of_mass trk_roi) point_array simplify_shape
                    (replicate (length (v_data trk_roi)) 0%Z) i = Ok m
       /\ m !! p = Some (Z.of_nat i).

(* entry k of l is entry 2k of l' *)
Definition doubled {A : Type} (l l' : list A) : Prop := forall k, l' !! (2 * k) = l !! k.

(* the arrays of level [level] sit at the even places of those of the next *)
Definition nested {F : Type} (level : nat) (st st' : list (V3 F) * list (V3 F)) : Prop :=
  doubled st.1 st'.1 /\ doubled st.2 st'.2
  /\ length st.1 = 2 ^ level + 1 /\ length st.2 = 2 ^ level + 1
  /\ length st'.1 = 2 * 2 ^ level + 1 /\ length st'.2 = 2 * 2 ^ level + 1.

(* the two arrays at the end of the loops of lines 92-137; [bisect] returns
   the first *)
Definition bisect_arrays {F : Type} `{Scalar F} (s : streams F) (level : nat)
    (m_start m_end : V3 F) : result (list (V3 F) * list (V3 F)) :=
  let size := 2 ^ level + 1 in
  let point_array := <[size - 1 := m_end]> (<[0 := m_start]> (replicate size vzero)) in
  let normal := vsub m_start m_end in
  let normal_array := <[size - 1 := normal]> (<[0 := normal]> (replicate size vzero)) in
  for_each (windows level) (bisect_window s level) (point_array, normal_array).

(* the node of a window: the mean of the kept crossings, or the midpoint
   when there is none *)
Definition window_node {F : Type} `{Scalar F} (s : streams F)
    (m_start m_end normal_previous normal_next : V3 F) : V3 F :=
  match fancy_rows (s_data s)
          (window_crossings s m_start m_end normal_previous normal_next) with
  | Ok points => vmean points
  | Raise _ => vdivs (vadd m_start m_end) (of_Z 2)
  end.

(* window i of level j has its node and its normal in the two arrays *)
Definition settled {F : Type} `{Scalar F} (s : streams F) (level : nat)
    (st : list (V3 F) * list (V3 F)) (ji : nat * nat) : Prop :=
  let stride := 2 ^ (level - ji.1 - 1) in
  let m_start := row st.1 (stride * 2 * ji.2) in
  let m_end := row st.1 (stride * (2 * ji.2 + 2)) in
  st.1 !! (stride * (2 * ji.2 + 1))
    = Some (window_node s m_start m_end (row st.2 (stride * (2 * ji.2)))
                        (row st.2 (stride * (2 * ji.2 + 2))))
  /\ st.2 !! (stride * (2 * ji.2 + 1)) = Some (vsub m_start m_end).

(* the state of the loops before window i0 of level j0 *)
Definition settled_before {F : Type} `{Scalar F} (s : streams F) (level j0 i0 : nat)
    (st : list (V3 F) * list (V3 F)) : Prop :=
  length st.1 = 2 ^ level + 1 /\ length st.2 = 2 ^ level + 1
  /\ forall j i, j < level -> i < 2 ^ j -> j < j0 \/ (j = j0 /\ i < i0) ->
       settled s level st (j, i).

(** What the selection of the long curves needs of the arithmetic: the
    floor of a number from 0 up to, but not including, an integer m lies in
    0 .. m-1, and adding or subtracting 0 times a number to an integer does
    not make it smaller than itself. *)
Record uniform_arith (F : Type) `{Scalar F} : Prop := {
  floor_in_range : forall v m,
    fltb v fzero = false -> fleb (of_Z m) v = false -> (0 <= ffloor v < m)%Z;
  lerp_down : forall c x, fltb (fsub (of_Z c) (fmul (of_Z 0) x)) (of_Z c) = false;
  lerp_up : forall c x, fltb (fadd (of_Z c) (fmul (of_Z 0) x)) (of_Z c) = false
}.

(** What the orientation rules need of the arithmetic: |a - b| = |b - a|,
    of a < b and b < a at most one holds, and of a - b > 0 and b - a > 0 at
    most one holds. *)
Record order_arith (F : Type) `{Scalar F} : Prop := {
  abs_sub_sym : forall a b, fabs (fsub a b) = fabs (fsub b a);
  lt_asym : forall a b, fltb a b = true -> fltb b a = false;
  pos_sub_asym : forall a b, fltb fzero (fsub a b) = true -> fltb fzero (fsub b a) = false
}.

(** * Properties *)

(** ** Loops and indexing *)

Lemma bind_Ok {A B : Type} (m : result A) (f : A -> result B) (b : B) :
  m ≫= f = Ok b -> exists a, m = Ok a /\ f a = Ok b.
Proof. destruct m as [a|e]; [eauto | discriminate]. Qed.

Lemma for_each_invariant {A S : Type} (P : S -> Prop) (Q : A -> Prop)
    (body : S -> A -> result S) (l : list A) :
  (forall st x st', P st -> Q x -> body st x = Ok st' -> P st') ->
  Forall Q l ->
  forall st st', P st -> for_each l body st = Ok st' -> P st'.
Proof.
  intros Hbody Hl. induction Hl as [|x t Hx _ IH]; simpl; intros st st' HP Hrun.
  - by inversion Hrun; subst.
  - apply bind_Ok in Hrun as (st1 & H1 & H2). eauto.
Qed.

Lemma for_each_total {A S : Type} (P : S -> Prop) (Q : A -> Prop)
    (body : S -> A -> result S) (l : list A) :
  (forall st x, P st -> Q x -> exists st', body st x = Ok st' /\ P st') ->
  Forall Q l ->
  forall st, P st -> exists st', for_each l body st = Ok st' /\ P st'.
Proof.
  intros Hbody Hl. induction Hl as [|x t Hx _ IH]; simpl; intros st HP.
  - eauto.
  - destruct (Hbody st x HP Hx) as (st1 & -> & HP1). simpl. eauto.
Qed.

Lemma for_each_seq_invariant {St : Type} (P : nat -> St -> Prop)
    (body : St -> nat -> result St) (a n : nat) (st st' : St) :
  P a st ->
  (forall k st1 st2, a <= k < a + n -> P k st1 -> body st1 k = Ok st2 -> P (S k) st2) ->
  for_each (seq a n) body st = Ok st' -> P (a + n) st'.
Proof.
  revert a st. induction n as [|n IH]; simpl; intros a st HP Hstep Hrun.
  - injection Hrun as <-. by rewrite Nat.add_0_r.
  - apply bind_Ok in Hrun as (st1 & Hbody & Hrun).
    replace (a + S n) with (S a + n) by lia. apply (IH (S a) st1).
    + apply (Hstep a st st1); [lia|done..].
    + intros k s1 s2 Hk. apply Hstep. lia.
    + done.
Qed.

Lemma for_each_app {A St : Type} (body : St -> A -> result St) (l1 l2 : list A) (st : St) :
  for_each (l1 ++ l2) body st = st1 ← for_each l1 body st; for_each l2 body st1.
Proof.
  revert st. induction l1 as [|x t IH]; intros st; simpl; [done|].
  destruct (body st x) as [st1|e]; simpl; [apply IH|done].
Qed.

Lemma for_each_bind {A B St : Type} (f : A -> list B) (body : St -> B -> result St)
    (l : list A) (st : St) :
  for_each (l ≫= f) body st = for_each l (fun st x => for_each (f x) body st) st.
Proof.
  revert st. induction l as [|x t IH]; intros st; [done|].
  change ((x :: t) ≫= f) with (f x ++ (t ≫= f)). rewrite for_each_app. simpl.
  destruct (for_each (f x) body st); simpl; [apply IH|done].
Qed.

Lemma for_each_fmap {A B St : Type} (g : A -> B) (body : St -> B -> result St)
    (l : list A) (st : St) :
  for_each (g <$> l) body st = for_each l (fun st x => body st (g x)) st.
Proof.
  revert st. induction l as [|x t IH]; intros st; simpl; [done|].
  destruct (body st (g x)); simpl; [apply IH|done].
Qed.

Lemma py_index_nat {A : Type} (a : list A) (i : nat) (x : A) :
  a !! i = Some x -> py_index a (Z.of_nat i) = Ok x.
Proof.
  intros Hx. unfold py_index. pose proof (lookup_lt_Some _ _ _ Hx) as Hlt.
  destruct (Z.ltb_spec (Z.of_nat i) 0); [lia|].
  destruct (Z.ltb_spec (Z.of_nat i) 0); [lia|].
  destruct (Z.leb_spec (Z.of_nat (length a)) (Z.of_nat i)); [lia|].
  simpl. by rewrite Nat2Z.id, Hx.
Qed.

Lemma py_index_raises {A : Type} (a : list A) (i : Z) (e : exn) :
  py_index a i = Raise e -> e = IndexError.
Proof.
  unfold py_index. repeat case_match; congruence.
Qed.

Lemma mapM_raises {A B : Type} (f : A -> result B) (l : list A) (e : exn) :
  (forall x e', f x = Raise e' -> e' = IndexError) ->
  mapM f l = Raise e -> e = IndexError.
Proof.
  intros Hf. revert e. induction l as [|x t IH]; simpl; intros e; [discriminate|].
  destruct (f x) as [y|e'] eqn:Hx; simpl.
  - destruct (mapM f t) as [ys|e''] eqn:Ht; simpl; [discriminate|].
    intros [= <-]. by apply IH.
  - intros [= <-]. by eapply Hf.
Qed.

Lemma rows_at_raises {A : Type} (a : list A) (idx : list nat) (e : exn) :
  rows_at a idx = Raise e -> e = IndexError.
Proof. apply mapM_raises. intros x e'. apply py_index_raises. Qed.

Lemma rows_at_Ok {A : Type} (a : list A) (idx : list nat) :
  Forall (fun i => i < length a) idx ->
  exists rows, rows_at a idx = Ok rows /\ length rows = length idx.
Proof.
  induction 1 as [|i t Hi _ (rows & IH & Hlen)]; simpl; [by exists []|].
  destruct (lookup_lt_is_Some_2 a i Hi) as [x Hx].
  unfold rows_at in *. simpl. rewrite (py_index_nat _ _ _ Hx). simpl.
  rewrite IH. simpl. exists (x :: rows). by rewrite <- Hlen.
Qed.

Lemma rows_at_length {A : Type} (a : list A) (idx : list nat) (rows : list A) :
  rows_at a idx = Ok rows -> length rows = length idx.
Proof.
  unfold rows_at. revert rows. induction idx as [|i t IH]; simpl; intros rows.
  - by intros [= <-].
  - intros Hrun. apply bind_Ok in Hrun as (x & _ & Hrun).
    apply bind_Ok in Hrun as (ys & Hys & [= <-]). simpl. by rewrite (IH ys).
Qed.

Lemma argwhere_spec (mask : list bool) (p : nat) :
  p ∈ argwhere mask <-> mask !! p = Some true.
Proof.
  unfold argwhere. rewrite list_elem_of_filter, elem_of_seq. split; [tauto|].
  intros Hp. split; [done|]. apply lookup_lt_Some in Hp. lia.
Qed.

Lemma argwhere_lt (mask : list bool) :
  Forall (fun p => p < length mask) (argwhere mask).
Proof.
  apply Forall_forall. intros p Hp%argwhere_spec. by eapply lookup_lt_Some.
Qed.

Lemma argwhere_NoDup (mask : list bool) : NoDup (argwhere mask).
Proof. unfold argwhere. apply NoDup_filter, NoDup_seq. Qed.

Lemma idx_rows_np_array (rows : list nat) : idx_rows (np_array_of_rows rows) = rows.
Proof. by destruct rows. Qed.

(** ** Crossing detection *)

Lemma roll1_lookup {A : Type} (a : list A) (p : nat) :
  p < length a -> roll1 a !! p = a !! cyclic_pred (length a) p.
Proof.
  intros Hp. unfold roll1, cyclic_pred. destruct a as [|x t] eqn:Ha; [simpl in Hp; lia|].
  rewrite <- Ha in *. assert (0 < length a) by (subst; simpl; lia).
  destruct (decide (p = 0)) as [->|Hne].
  - rewrite lookup_app_l by (rewrite length_drop; lia).
    rewrite lookup_drop. f_equal. lia.
  - rewrite lookup_app_r by (rewrite length_drop; lia).
    rewrite length_drop, lookup_take_lt by lia. f_equal. lia.
Qed.

(** A row is reported exactly when the point and the one before it in the
    flattened order (the last point, for row 0) are on different sides. *)
Lemma crossing_rows_spec (sign : list Z) (p : nat) :
  p ∈ crossing_rows sign <->
  exists a b, sign !! cyclic_pred (length sign) p = Some a /\ sign !! p = Some b
              /\ Z.abs (a - b) = 1%Z.
Proof.
  unfold crossing_rows. rewrite argwhere_spec, lookup_zip_with_Some. split.
  - intros (a & b & Heq & Ha & Hb). exists a, b.
    rewrite roll1_lookup in Ha by (by eapply lookup_lt_Some).
    repeat split; [done..|]. symmetry in Heq. by apply Z.eqb_eq in Heq.
  - intros (a & b & Ha & Hb & Heq). exists a, b.
    rewrite roll1_lookup by (by eapply lookup_lt_Some).
    repeat split; [|done..]. symmetry. by apply Z.eqb_eq.
Qed.

Lemma crossing_rows_lt (sign : list Z) :
  Forall (fun p => p < length sign) (crossing_rows sign).
Proof.
  apply Forall_forall. intros p (a & b & _ & Hb & _)%crossing_rows_spec.
  by eapply lookup_lt_Some.
Qed.

Lemma not_in_spec (other idx : list nat) (p : nat) :
  p ∈ not_in other idx <-> p ∈ idx /\ p ∉ other.
Proof. unfold not_in. rewrite list_elem_of_filter. tauto. Qed.

Lemma not_in_Forall (P : nat -> Prop) (other idx : list nat) :
  Forall P idx -> Forall P (not_in other idx).
Proof.
  rewrite !Forall_forall. intros Hall p [Hp _]%not_in_spec. auto.
Qed.

(** C3: whatever the plane, none of the three crossing detectors (the
    Skeleton Builder's window, the median estimator, the outlier filter)
    reports the first point of a curve, that is the pair made of the last
    point of curve k-1 (or of the last curve, for k = 0) and the first point
    of curve k. *)
Theorem curve_boundary_never_crossing {F : Type} `{Scalar F}
    (s : streams F) (k o : nat) :
  s_offsets s !! k = Some o ->
  (forall m_start m_end normal_previous normal_next,
     o ∉ idx_rows (window_crossings s m_start m_end normal_previous normal_next))
  /\ (forall center point_array i, o ∉ idx_rows (median_crossings s center point_array i))
  /\ (forall point_array i, o ∉ idx_rows (outlier_crossings s point_array i)).
Proof.
  intros Ho. apply list_elem_of_lookup_2 in Ho.
  repeat split; intros; unfold window_crossings, median_crossings, outlier_crossings;
    rewrite idx_rows_np_array, ?not_in_spec, ?not_in_spec; tauto.
Qed.

Lemma curve_boundary_never_crossing_witness :
  s_offsets two_lines !! 1 = Some 4
  /\ 4 ∈ crossing_rows (plane_sign (s_data two_lines) (qv 0 0 2) (qv 0 0 (-4)))
  /\ 4 ∉ idx_rows (outlier_crossings two_lines [qv 0 0 0; qv 0 0 2; qv 0 0 4] 1).
Proof.
  split; [reflexivity|]. split.
  - vm_compute. do 2 right. left.
  - apply (curve_boundary_never_crossing two_lines 1 4). reflexivity.
Defined.

(** ** Frame of the writes into the distance map *)

Lemma mat_set_frame {A : Type} (m m' : list (list A)) (i j : nat) (v : A) :
  mat_set m i j v = Ok m' ->
  length m' = length m /\ forall r, r ≠ i -> m' !! r = m !! r.
Proof.
  unfold mat_set. destruct (m !! i) as [rw|]; [|discriminate].
  case_decide; [|discriminate]. intros [= <-]. split.
  - apply length_insert.
  - intros r Hr. by apply list_lookup_insert_ne.
Qed.

Section MedianFrame.
Context {F : Type} `{Scalar F}.

Lemma record_dist_frame (s : streams F) (i : nat) (dist dist' : list (list F))
    (jd : nat * F) :
  record_dist s i dist jd = Ok dist' ->
  length dist' = length dist /\ forall r, r ≠ i -> dist' !! r = dist !! r.
Proof.
  unfold record_dist. intros Hrun. apply bind_Ok in Hrun as (n & _ & Hrun).
  destruct n as [n|ns]; [by apply mat_set_frame in Hrun|].
  eapply (for_each_invariant
            (fun d => length d = length dist /\ forall r, r ≠ i -> d !! r = dist !! r)
            (fun _ => True)); [| by apply Forall_true | | exact Hrun]; [|done].
  intros d c d' [Hlen Hrows] _ Hset. apply mat_set_frame in Hset as [Hlen' Hrows'].
  split; [congruence|]. intros r Hr. by rewrite Hrows', Hrows.
Qed.

(** One pass of the loop body leaves the rows other than [i] alone, and
    [i] is neither the first nor the last row when something is written. *)
Lemma median_body_frame (s : streams F) (center : V3 F) (point_array : list (V3 F))
    (compute_dist : bool) (st st' : list (list F) * list (V3 F)) (i : nat) :
  median_body s center point_array compute_dist st i = Ok st' ->
  length st'.1 = length st.1 /\ length st'.2 = length st.2
  /\ (forall r, r = 0 \/ r = length point_array - 1 ->
                st'.1 !! r = st.1 !! r /\ st'.2 !! r = st.2 !! r).
Proof.
  unfold median_body. case_decide as H0; [by intros [= <-]|].
  case_decide as Hlast; [by intros [= <-]|].
  intros Hrun. apply bind_Ok in Hrun as (idx_pos & _ & Hrun).
  assert (Hi : forall r, r = 0 \/ r = length point_array - 1 -> r ≠ i)
    by (intros r [-> | ->]; congruence).
  destruct compute_dist; simpl in Hrun.
  - apply bind_Ok in Hrun as (dist & Hdist & [= <-]). simpl.
    assert (length dist = length st.1
            /\ forall r, r ≠ i -> dist !! r = st.1 !! r) as [Hlen Hrows].
    { eapply (for_each_invariant
                (fun d => length d = length st.1
                          /\ forall r, r ≠ i -> d !! r = st.1 !! r)
                (fun _ => True)); [| by apply Forall_true | | exact Hdist]; [|done].
      intros d jd d' [Hlen Hrows] _ Hrec.
      apply record_dist_frame in Hrec as [Hlen' Hrows'].
      split; [congruence|]. intros r Hr. by rewrite Hrows', Hrows. }
    rewrite length_insert. split; [done|]. split; [done|]. intros r Hr. split.
    + by apply Hrows, Hi.
    + apply list_lookup_insert_ne. specialize (Hi r Hr). congruence.
  - injection Hrun as <-. simpl. rewrite length_insert.
    split; [done|]. split; [done|]. intros r Hr. split; [done|].
    apply list_lookup_insert_ne. specialize (Hi r Hr). congruence.
Qed.

(** The frame of [get_dist_from_median_trajectory]: sizes are kept, the
    first and the last node are the input's, and the first and the last
    row of the distance map are zero. *)
Lemma get_dist_frame (s : streams F) (trk_roi : volume) (point_array : list (V3 F))
    (compute_dist : bool) (dist : list (list F)) (median_array : list (V3 F)) :
  get_dist_from_median_trajectory s trk_roi point_array compute_dist
    = Ok (dist, median_array) ->
  length median_array = length point_array
  /\ length dist = length point_array
  /\ forall r, r = 0 \/ r = length point_array - 1 ->
       median_array !! r = point_array !! r
       /\ dist !! r = replicate (length point_array)
                                (replicate (length (s_offsets s)) fzero) !! r.
Proof.
  unfold get_dist_from_median_trajectory. intros Hrun.
  set (zeros := replicate (length point_array) (replicate (length (s_offsets s)) fzero)) in *.
  eapply (for_each_invariant
            (fun st => length st.2 = length point_array
                       /\ length st.1 = length point_array
                       /\ forall r, r = 0 \/ r = length point_array - 1 ->
                            st.2 !! r = point_array !! r /\ st.1 !! r = zeros !! r)
            (fun _ => True)) in Hrun; [exact Hrun | | by apply Forall_true |].
  - intros st i st' (Hl2 & Hl1 & Hends) _ Hbody.
    apply median_body_frame in Hbody as (Hl1' & Hl2' & Hends').
    split; [congruence|]. split; [congruence|]. intros r Hr.
    destruct (Hends' r Hr) as [E1 E2]. destruct (Hends r Hr) as [E3 E4].
    split; congruence.
  - simpl. unfold zeros. by rewrite length_replicate.
Qed.
End MedianFrame.

(** ** The Skeleton Builder *)

Lemma fancy_rows_raises {A : Type} (a : list A) (idx : index_array) (e : exn) :
  fancy_rows a idx = Raise e -> e = IndexError.
Proof.
  destruct idx; simpl; [apply rows_at_raises..|]. by intros [= <-].
Qed.

Lemma windows_spec (level j i : nat) :
  (j, i) ∈ windows level <-> j < level /\ i < 2 ^ j.
Proof.
  unfold windows. rewrite list_elem_of_bind. split.
  - intros (j' & Hi & Hj). apply list_elem_of_fmap in Hi as (i' & [= -> ->] & Hi).
    apply elem_of_seq in Hi, Hj. lia.
  - intros [Hj Hi]. exists j. split; [|apply elem_of_seq; lia].
    apply list_elem_of_fmap. exists i. split; [done|]. apply elem_of_seq. lia.
Qed.

(** The node written for window i of level j lies strictly between the two
    end nodes. *)
Lemma window_mid_between (level j i : nat) :
  j < level -> i < 2 ^ j ->
  0 < 2 ^ (level - j - 1) * (2 * i + 1) < 2 ^ level.
Proof.
  intros Hj Hi.
  assert (Hpow : 2 ^ level = 2 ^ (level - j - 1) * (2 * 2 ^ j)).
  { rewrite <- (Nat.pow_succ_r' 2 j), <- Nat.pow_add_r. f_equal. lia. }
  assert (0 < 2 ^ (level - j - 1)) by (apply Nat.neq_0_lt_0, Nat.pow_nonzero; lia).
  rewrite Hpow. split; [nia|]. apply Nat.mul_lt_mono_pos_l; lia.
Qed.

Lemma odd_multiple_ne_even (stride q a b : nat) :
  0 < stride -> stride * (2 * a + 1) ≠ stride * q * (2 * b).
Proof.
  intros Hpos E. rewrite <- Nat.mul_assoc in E.
  apply Nat.mul_cancel_l in E; [|lia].
  replace (q * (2 * b)) with (2 * (q * b)) in E by lia. lia.
Qed.

Lemma stride_split (level j jw : nat) :
  jw <= j -> j < level ->
  2 ^ (level - jw - 1) = 2 ^ (level - j - 1) * 2 ^ (j - jw).
Proof. intros Hle Hlt. rewrite <- Nat.pow_add_r. f_equal. lia. Qed.

(** The node written by a later window is none of the three nodes of an
    earlier one. *)
Lemma later_mid_apart (level j i jw iw : nat) :
  j < level -> jw < j \/ (jw = j /\ iw < i) ->
  let mid := 2 ^ (level - j - 1) * (2 * i + 1) in
  let stride := 2 ^ (level - jw - 1) in
  mid ≠ stride * 2 * iw /\ mid ≠ stride * (2 * iw) /\ mid ≠ stride * (2 * iw + 1)
  /\ mid ≠ stride * (2 * iw + 2).
Proof.
  intros Hj Hearlier mid stride. unfold mid, stride.
  assert (0 < 2 ^ (level - j - 1)) as Hpos by (apply Nat.neq_0_lt_0, Nat.pow_nonzero; lia).
  rewrite (stride_split level j jw) by lia.
  set (s' := 2 ^ (level - j - 1)) in *.
  repeat split.
  - rewrite <- (Nat.mul_assoc _ 2 iw). by apply odd_multiple_ne_even.
  - by apply odd_multiple_ne_even.
  - destruct Hearlier as [Hlt|[-> Hlt]].
    + replace (j - jw) with (S (j - jw - 1)) by lia. rewrite Nat.pow_succ_r'.
      intros E. rewrite <- Nat.mul_assoc in E. apply Nat.mul_cancel_l in E; [|lia].
      rewrite <- Nat.mul_assoc in E. lia.
    + rewrite Nat.sub_diag. simpl. intros E. rewrite Nat.mul_1_r in E.
      apply Nat.mul_cancel_l in E; lia.
  - replace (2 * iw + 2) with (2 * (iw + 1)) by lia. by apply odd_multiple_ne_even.
Qed.

Lemma own_mid_apart (stride i : nat) :
  0 < stride ->
  stride * (2 * i + 1) ≠ stride * 2 * i /\ stride * (2 * i + 1) ≠ stride * (2 * i)
  /\ stride * (2 * i + 1) ≠ stride * (2 * i + 2).
Proof. intros Hpos. repeat split; nia. Qed.

Section SkeletonProofs.
Context {F : Type} `{Scalar F} `{Extern F}.

(** A window never raises: the empty index array is caught. *)
Lemma bisect_window_total (s : streams F) (level : nat)
    (st : list (V3 F) * list (V3 F)) (ji : nat * nat) :
  exists p, bisect_window s level st ji
            = Ok (<[2 ^ (level - ji.1 - 1) * (2 * ji.2 + 1) := p]> st.1,
                  <[2 ^ (level - ji.1 - 1) * (2 * ji.2 + 1) :=
                      vsub (row st.1 (2 ^ (level - ji.1 - 1) * 2 * ji.2))
                           (row st.1 (2 ^ (level - ji.1 - 1) * (2 * ji.2 + 2)))]> st.2).
Proof.
  destruct st as [pa na], ji as [j i]. unfold bisect_window. simpl.
  match goal with |- context [fancy_rows ?a ?b] => destruct (fancy_rows a b) as [pts|e] eqn:Hf end.
  - eauto.
  - apply fancy_rows_raises in Hf as ->. eauto.
Qed.

(** [bisect] always returns; its result has 2^level + 1 nodes, the first
    and the last being the two centres it was given. *)
Lemma bisect_spec (s : streams F) (level : nat) (m_start m_end : V3 F) :
  exists point_array,
    bisect s level m_start m_end = Ok point_array
    /\ length point_array = 2 ^ level + 1
    /\ point_array !! 0 = Some m_start
    /\ point_array !! (2 ^ level) = Some m_end.
Proof.
  unfold bisect.
  set (size := 2 ^ level + 1).
  set (pa0 := <[size - 1 := m_end]> (<[0 := m_start]> (replicate size vzero))).
  set (na0 := <[size - 1 := vsub m_start m_end]>
                (<[0 := vsub m_start m_end]> (replicate size vzero))).
  assert (Hpos : 0 < 2 ^ level) by (apply Nat.neq_0_lt_0, Nat.pow_nonzero; lia).
  destruct (for_each_total
              (fun st : list (V3 F) * list (V3 F) =>
                 length st.1 = size /\ st.1 !! 0 = Some m_start
                 /\ st.1 !! (2 ^ level) = Some m_end)
              (fun ji => ji.1 < level /\ ji.2 < 2 ^ ji.1)
              (bisect_window s level) (windows level)) with (st := (pa0, na0))
    as (st' & Hrun & Hlen & Hfirst & Hlast).
  - intros st ji (Hlen & Hfirst & Hlast) [Hj Hi].
    destruct (bisect_window_total s level st ji) as [p Hp].
    destruct (window_mid_between level ji.1 ji.2 Hj Hi) as [Hlo Hhi].
    eexists. split; [exact Hp|]. simpl. rewrite length_insert.
    split; [done|]. split; rewrite list_lookup_insert_ne by lia; done.
  - apply Forall_forall. intros [j i] Hji%windows_spec. done.
  - simpl. unfold pa0, size. rewrite !length_insert, length_replicate.
    split; [done|]. split.
    + rewrite list_lookup_insert_ne by lia.
      apply list_lookup_insert_eq. rewrite length_replicate. lia.
    + replace (2 ^ level + 1 - 1) with (2 ^ level) by lia.
      apply list_lookup_insert_eq. rewrite length_insert, length_replicate. lia.
  - rewrite Hrun. simpl. eauto.
Qed.
(** [bisect] is the first array of [bisect_arrays]. *)
Lemma bisect_arrays_fst (s : streams F) (level : nat) (m_start m_end : V3 F) :
  bisect s level m_start m_end = st ← bisect_arrays s level m_start m_end; Ok st.1.
Proof. reflexivity. Qed.

Lemma row_insert_ne (a : list (V3 F)) (k m : nat) (v : V3 F) :
  m ≠ k -> row (<[m := v]> a) k = row a k.
Proof. intros Hne. unfold row. by rewrite list_lookup_insert_ne. Qed.

(** What a window writes, the caught IndexError included. *)
Lemma bisect_window_eq (s : streams F) (level j i : nat)
    (point_array normal_array : list (V3 F)) :
  let stride := 2 ^ (level - j - 1) in
  let m_start := row point_array (stride * 2 * i) in
  let m_end := row point_array (stride * (2 * i + 2)) in
  let normals := <[stride * (2 * i + 1) := vsub m_start m_end]> normal_array in
  bisect_window s level (point_array, normal_array) (j, i)
  = Ok (<[stride * (2 * i + 1) :=
            window_node s m_start m_end (row normals (stride * (2 * i)))
                        (row normals (stride * (2 * i + 2)))]> point_array,
        normals).
Proof.
  intros stride m_start m_end normals.
  unfold bisect_window, window_node. fold stride. fold m_start. fold m_end. fold normals.
  match goal with |- context [fancy_rows ?a ?b] =>
    destruct (fancy_rows a b) as [pts|e] eqn:Hf end; [done|].
  by apply fancy_rows_raises in Hf as ->.
Qed.

(** A window that is settled writes what is there already. *)
Lemma settled_fixed (s : streams F) (level j i : nat) (st : list (V3 F) * list (V3 F)) :
  settled s level st (j, i) -> bisect_window s level st (j, i) = Ok st.
Proof.
  destruct st as [pa na]. unfold settled. cbn [fst snd]. intros [Hp Hn].
  rewrite bisect_window_eq. cbv zeta.
  rewrite (list_insert_id na) by done. by rewrite (list_insert_id pa).
Qed.

(** A window settles itself and leaves the earlier windows settled: it
    writes one node, which none of them reads or holds. *)
Lemma bisect_window_settles (s : streams F) (level j i : nat)
    (st st' : list (V3 F) * list (V3 F)) :
  j < level -> i < 2 ^ j ->
  settled_before s level j i st ->
  bisect_window s level st (j, i) = Ok st' ->
  settled_before s level j (S i) st'.
Proof.
  destruct st as [pa na]. intros Hj Hi (Hlp & Hln & Hset).
  cbn [fst snd] in Hlp, Hln.
  rewrite bisect_window_eq. cbv zeta. intros [= <-].
  destruct (window_mid_between level j i Hj Hi) as [Hlo Hhi].
  assert (0 < 2 ^ (level - j - 1)) as Hpos by (apply Nat.neq_0_lt_0, Nat.pow_nonzero; lia).
  destruct (own_mid_apart (2 ^ (level - j - 1)) i Hpos) as (Ho1 & Ho2 & Ho3).
  unfold settled_before. cbn [fst snd]. rewrite !length_insert.
  split; [done|]. split; [done|].
  intros jw iw Hjw Hiw Hearlier.
  destruct (decide (jw = j /\ iw = i)) as [[-> ->]|Hother].
  - unfold settled. cbn [fst snd].
    rewrite !list_lookup_insert_eq by lia.
    by rewrite !(row_insert_ne pa) by done.
  - assert (jw < j \/ (jw = j /\ iw < i)) as Hbefore by lia.
    destruct (later_mid_apart level j i jw iw Hj Hbefore) as (Hl1 & Hl2 & Hl3 & Hl4).
    specialize (Hset jw iw Hjw Hiw Hbefore). revert Hset.
    unfold settled. cbn [fst snd].
    rewrite !list_lookup_insert_ne by done.
    by rewrite !row_insert_ne by done.
Qed.

(** At the end of the loops every window is settled. *)
Lemma bisect_arrays_settled (s : streams F) (level : nat) (m_start m_end : V3 F)
    (st : list (V3 F) * list (V3 F)) :
  bisect_arrays s level m_start m_end = Ok st ->
  forall j i, j < level -> i < 2 ^ j -> settled s level st (j, i).
Proof.
  unfold bisect_arrays, windows. cbv zeta. rewrite for_each_bind. intros Hrun.
  apply (for_each_seq_invariant (fun j st => settled_before s level j 0 st)) in Hrun.
  - destruct Hrun as (_ & _ & Hset). intros j i Hj Hi. apply Hset; [done..|]. left. lia.
  - unfold settled_before. cbn [fst snd]. rewrite !length_insert, !length_replicate.
    split; [done|]. split; [done|]. intros j i _ _ Hlt. lia.
  - intros j st1 st2 Hj Hbefore. rewrite for_each_fmap. intros Hinner.
    apply (for_each_seq_invariant (fun i st => settled_before s level j i st)) in Hinner.
    + destruct Hinner as (Hlp & Hln & Hset). split; [done|]. split; [done|].
      intros jw iw Hjw Hiw Hearlier. apply Hset; [done..|].
      destruct (decide (jw = j)) as [->|]; [right; simpl; lia|left; lia].
    + done.
    + intros i st3 st4 Hi Hinv. apply bisect_window_settles; [lia|simpl in Hi; lia|done].
Qed.

Lemma bisect_arrays_total (s : streams F) (level : nat) (m_start m_end : V3 F) :
  exists st, bisect_arrays s level m_start m_end = Ok st.
Proof.
  unfold bisect_arrays. cbv zeta.
  edestruct (for_each_total (fun _ : list (V3 F) * list (V3 F) => True) (fun _ => True)
               (bisect_window s level) (windows level)) as (st & Hrun & _);
    [| by apply Forall_forall | exact I | eauto].
  intros st ji _ _. destruct (bisect_window_total s level st ji) as [p Hp]. eauto.
Qed.

End SkeletonProofs.

Section SkeletonClaims.
Context {F : Type} `{Scalar F} `{Extern F}.

(** C5: the Skeleton Builder never raises: for every bundle, every level
    and every pair of centres its loops return a skeleton. In what they
    return, every window is at rest: running the window again on the
    returned arrays changes nothing. So the node of a window at which no
    curve point passes the crossing and consistency filters is the
    geometric midpoint (m_start + m_end)/2 of its two bracketing nodes in
    the returned skeleton, and the node of a window that keeps crossings is
    their mean. The fall-back itself holds in any state of the loops: with
    no kept crossing, the window stores the midpoint and does not raise. *)
Theorem degenerate_window_gets_midpoint (s : streams F) (level : nat)
    (centre_0 centre_1 : V3 F) :
  (exists skeleton normals,
     bisect_arrays s level centre_0 centre_1 = Ok (skeleton, normals)
     /\ bisect s level centre_0 centre_1 = Ok skeleton
     /\ forall j i, j < level -> i < 2 ^ j ->
          let stride := 2 ^ (level - j - 1) in
          let m_start := row skeleton (stride * 2 * i) in
          let m_end := row skeleton (stride * (2 * i + 2)) in
          let idx := window_crossings s m_start m_end (row normals (stride * (2 * i)))
                                      (row normals (stride * (2 * i + 2))) in
          bisect_window s level (skeleton, normals) (j, i) = Ok (skeleton, normals)
          /\ (idx_rows idx = [] ->
              skeleton !! (stride * (2 * i + 1))
              = Some (vdivs (vadd m_start m_end) (of_Z 2)))
          /\ (forall points, fancy_rows (s_data s) idx = Ok points ->
              skeleton !! (stride * (2 * i + 1)) = Some (vmean points)))
  /\ (forall j i point_array normal_array,
        let stride := 2 ^ (level - j - 1) in
        let m_start := row point_array (stride * 2 * i) in
        let m_end := row point_array (stride * (2 * i + 2)) in
        let normals := <[stride * (2 * i + 1) := vsub m_start m_end]> normal_array in
        idx_rows (window_crossings s m_start m_end (row normals (stride * (2 * i)))
                                   (row normals (stride * (2 * i + 2)))) = [] ->
        bisect_window s level (point_array, normal_array) (j, i)
        = Ok (<[stride * (2 * i + 1) := vdivs (vadd m_start m_end) (of_Z 2)]> point_array,
              normals)).
Proof.
  split.
  - destruct (bisect_arrays_total s level centre_0 centre_1) as [[skeleton normals] Hrun].
    exists skeleton, normals. split; [done|].
    split; [by rewrite bisect_arrays_fst, Hrun|].
    intros j i Hj Hi stride m_start m_end idx.
    pose proof (bisect_arrays_settled s level centre_0 centre_1 _ Hrun j i Hj Hi) as Hset.
    split; [by apply settled_fixed|].
    destruct Hset as [Hp _]. cbn [fst snd] in Hp.
    fold stride in Hp. fold m_start in Hp. fold m_end in Hp.
    unfold window_node in Hp. fold idx in Hp. split.
    + intros Hempty. rewrite Hp. f_equal.
      revert Hempty. unfold idx, window_crossings. rewrite idx_rows_np_array.
      by intros ->.
    + intros points Hpoints. by rewrite Hp, Hpoints.
  - intros j i point_array normal_array stride m_start m_end normals Hempty.
    unfold bisect_window. fold stride. fold m_start. fold m_end. fold normals.
    revert Hempty. unfold window_crossings. rewrite idx_rows_np_array.
    by intros ->.
Qed.

(** The median pass returns, in median-only mode, as soon as every interior
    node keeps a crossing. *)
Lemma median_crossings_in_range (s : streams F) (center : V3 F)
    (point_array : list (V3 F)) (i : nat) :
  Forall (fun p => p < length (s_data s))
         (idx_rows (median_crossings s center point_array i)).
Proof.
  unfold median_crossings. rewrite idx_rows_np_array.
  do 2 apply not_in_Forall.
  eapply Forall_impl; [apply crossing_rows_lt|].
  intros p. unfold plane_sign. by rewrite length_fmap.
Qed.

Lemma get_dist_median_only_total (s : streams F) (trk_roi : volume)
    (point_array : list (V3 F)) :
  (forall i, 0 < i < length point_array - 1 ->
     idx_rows (median_crossings s (center_of_mass trk_roi) point_array i) ≠ []) ->
  exists r, get_dist_from_median_trajectory s trk_roi point_array false = Ok r.
Proof.
  intros Hcross. unfold get_dist_from_median_trajectory.
  edestruct (for_each_total (fun _ : list (list F) * list (V3 F) => True)
               (fun i => i < length point_array)
               (median_body s (center_of_mass trk_roi) point_array false)
               (seq 0 (length point_array)))
    as (st' & Hrun & _); [| apply Forall_forall; intros i Hi%elem_of_seq; lia
                          | exact I | eauto].
  intros st i _ Hi. unfold median_body.
  case_decide; [eauto|]. case_decide; [eauto|].
  pose proof (median_crossings_in_range s (center_of_mass trk_roi) point_array i) as Hrange.
  specialize (Hcross i ltac:(lia)).
  destruct (median_crossings s (center_of_mass trk_roi) point_array i) as [r|r|] eqn:E;
    simpl in *.
  - destruct (rows_at_Ok _ _ Hrange) as (rows & -> & _). simpl. eauto.
  - exfalso. unfold median_crossings in E.
    match type of E with np_array_of_rows ?l = _ => destruct l; discriminate end.
  - done.
Qed.
End SkeletonClaims.

Section SkeletonEnds.
Context {F : Type} `{Scalar F} `{Extern F}.

(** C1: once the orientation is resolved into the centres (m_start, m_end),
    [extract_nodes] without smoothing returns for every level; with
    smoothing it returns as soon as every interior node of the bisected
    skeleton keeps a crossing in the median pass; and whatever it returns,
    smoothed or not, has exactly 2^level + 1 nodes, the first being m_start
    and the last m_end. *)
Theorem extract_nodes_size_and_ends (s : streams F) (trk_roi : volume)
    (level : nat) (smooth : bool) (m_start m_end : V3 F) :
  resolved_centers s = Ok (m_start, m_end) ->
  (exists point_array, extract_nodes s trk_roi level false = Ok point_array)
  /\ (forall bisected,
        bisect s level m_start m_end = Ok bisected ->
        (forall i, 0 < i < 2 ^ level ->
           idx_rows (median_crossings s (center_of_mass trk_roi) bisected i) ≠ []) ->
        exists point_array, extract_nodes s trk_roi level true = Ok point_array)
  /\ (forall point_array,
        extract_nodes s trk_roi level smooth = Ok point_array ->
        length point_array = 2 ^ level + 1
        /\ point_array !! 0 = Some m_start
        /\ point_array !! (2 ^ level) = Some m_end).
Proof.
  intros Hres. unfold extract_nodes. rewrite Hres. simpl.
  destruct (bisect_spec s level m_start m_end) as (pa & Hpa & Hlen & Hfirst & Hlast).
  rewrite Hpa. simpl. split; [eauto|]. split.
  - intros ? [= <-] Hcross.
    destruct (get_dist_median_only_total s trk_roi pa) as [r ->]; [|simpl; eauto].
    intros i Hi. apply Hcross. lia.
  - intros res Hrun. destruct smooth.
    + apply bind_Ok in Hrun as ([dist med] & Hdist & [= <-]). simpl.
      apply get_dist_frame in Hdist as (Hl & _ & Hends).
      split; [congruence|].
      split; [rewrite <- Hfirst; apply Hends; by left|].
      rewrite <- Hlast. replace (2 ^ level) with (length pa - 1) by lia.
      apply Hends. by right.
    + by injection Hrun as <-.
Qed.

(** C10: [get_dist_from_median_trajectory] writes interior entries only.
    Whatever it returns, with or without distances, the median-adjusted
    array has the size of the input and the same first and last node, and
    the first and last row of the distance map are all zero; hence a
    skeleton returned by [extract_nodes] with smoothing has the same two
    end nodes as the one returned without. *)
Theorem median_pass_keeps_end_nodes (s : streams F) (trk_roi : volume)
    (point_array : list (V3 F)) (compute_dist : bool)
    (dist : list (list F)) (median_array : list (V3 F)) :
  get_dist_from_median_trajectory s trk_roi point_array compute_dist
    = Ok (dist, median_array) ->
  length median_array = length point_array
  /\ median_array !! 0 = point_array !! 0
  /\ last median_array = last point_array
  /\ length dist = length point_array
  /\ (forall r, r = 0 \/ r = length point_array - 1 -> r < length point_array ->
        dist !! r = Some (replicate (length (s_offsets s)) fzero))
  /\ (forall level smoothed raw,
        extract_nodes s trk_roi level true = Ok smoothed ->
        extract_nodes s trk_roi level false = Ok raw ->
        smoothed !! 0 = raw !! 0 /\ last smoothed = last raw).
Proof.
  intros Hrun. apply get_dist_frame in Hrun as (Hlen & Hdlen & Hends).
  split; [done|]. split; [apply Hends; by left|].
  split; [rewrite !last_lookup, Hlen; apply Hends; right; lia|].
  split; [done|]. split.
  - intros r Hr Hlt. destruct (Hends r Hr) as [_ ->]. by apply lookup_replicate_2.
  - intros level smoothed raw. unfold extract_nodes.
    destruct (resolved_centers s) as [[ms me]|e]; simpl; [|discriminate].
    destruct (bisect s level ms me) as [pa|e]; simpl; [|discriminate].
    intros Hs [= <-]. apply bind_Ok in Hs as ([d m] & Hd & [= <-]). simpl.
    apply get_dist_frame in Hd as (Hl & _ & Hm).
    split; [apply Hm; by left|].
    rewrite !last_lookup, Hl. apply Hm. right. lia.
Qed.
End SkeletonEnds.

Lemma degenerate_window_gets_midpoint_witness :
  exists m_start m_end skeleton,
    resolved_centers eight_lines = Ok (m_start, m_end)
    /\ bisect eight_lines 4 m_start m_end = Ok skeleton
    /\ extract_nodes eight_lines eight_lines_roi 4 false = Ok skeleton
    /\ skeleton !! 14 = Some (mkV3 (1 # 2) (2 # 2) (18 # 2))
    /\ skeleton !! 16 = Some (mkV3 (1 # 2) (2 # 2) (19 # 2))
    /\ skeleton !! 15
       = Some (vdivs (vadd (row skeleton 14) (row skeleton 16)) 2%Q).
Proof.
  destruct (proj1 (degenerate_window_gets_midpoint eight_lines 4
                     (mkV3 (1 # 2) (2 # 2) (0 # 2)) (mkV3 (1 # 2) (2 # 2) (19 # 2))))
    as (skeleton & normals & Harrays & Hrun & Hwindows).
  exists (mkV3 (1 # 2) (2 # 2) (0 # 2)), (mkV3 (1 # 2) (2 # 2) (19 # 2)), skeleton.
  split; [vm_compute; reflexivity|]. split; [exact Hrun|].
  vm_compute in Harrays. injection Harrays as <- <-.
  split; [vm_compute; reflexivity|].
  split; [vm_compute; reflexivity|].
  split; [vm_compute; reflexivity|].
  refine (proj1 (proj2 (Hwindows 3 7 _ _)) _); [lia | simpl; lia |].
  vm_compute. reflexivity.
Defined.

Lemma extract_nodes_size_and_ends_witness :
  exists point_array,
    extract_nodes eight_lines eight_lines_roi 2 true = Ok point_array
    /\ length point_array = 5
    /\ point_array !! 0 = Some (mkV3 (1 # 2) (2 # 2) (0 # 2))
    /\ point_array !! 4 = Some (mkV3 (1 # 2) (2 # 2) (19 # 2)).
Proof.
  eexists. split; [vm_compute; reflexivity|].
  refine (proj2 (proj2 (extract_nodes_size_and_ends eight_lines eight_lines_roi 2 true
                          (mkV3 (1 # 2) (2 # 2) (0 # 2)) (mkV3 (1 # 2) (2 # 2) (19 # 2)) _))
                _ _); vm_compute; reflexivity.
Defined.

Lemma median_pass_keeps_end_nodes_witness :
  exists dist median_array,
    get_dist_from_median_trajectory eight_lines eight_lines_roi
      [qv 0 0 1; qv 0 0 3; qv 0 0 6; qv 0 0 8] false = Ok (dist, median_array)
    /\ median_array !! 1 ≠ Some (qv 0 0 3)
    /\ median_array !! 0 = Some (qv 0 0 1)
    /\ last median_array = Some (qv 0 0 8).
Proof.
  eexists _, _. split; [vm_compute; reflexivity|].
  split; [vm_compute; discriminate|].
  edestruct (median_pass_keeps_end_nodes eight_lines eight_lines_roi
               [qv 0 0 1; qv 0 0 3; qv 0 0 6; qv 0 0 8] false)
    as (_ & Hfirst & Hlast & _); [vm_compute; reflexivity|].
  split; [exact Hfirst | exact Hlast].
Defined.

(** ** The Section Partitioner *)

Lemma py_index_Ok {A : Type} (a : list A) (i : Z) :
  (- Z.of_nat (length a) <= i < Z.of_nat (length a))%Z ->
  exists x, py_index a i = Ok x /\
            a !! Z.to_nat (if (i <? 0)%Z then i + Z.of_nat (length a) else i)%Z = Some x.
Proof.
  intros Hi. unfold py_index.
  set (k := if (i <? 0)%Z then (i + Z.of_nat (length a))%Z else i).
  assert (0 <= k < Z.of_nat (length a))%Z as Hk
      by (unfold k; destruct (Z.ltb_spec i 0); lia).
  destruct (Z.ltb_spec k 0); [lia|]. destruct (Z.leb_spec (Z.of_nat (length a)) k); [lia|].
  simpl. destruct (lookup_lt_is_Some_2 a (Z.to_nat k)) as [x Hx]; [lia|].
  rewrite Hx. eauto.
Qed.

Lemma py_index_out {A : Type} (a : list A) (i : Z) :
  (Z.of_nat (length a) <= i)%Z -> py_index a i = Raise IndexError.
Proof.
  intros Hi. unfold py_index. destruct (Z.ltb_spec i 0); [lia|].
  destruct (Z.ltb_spec i 0); [lia|]. by destruct (Z.leb_spec (Z.of_nat (length a)) i); [|lia].
Qed.

Lemma iter_n_invariant {A : Type} (P : A -> Prop) (f : A -> A) (n : nat) (x : A) :
  (forall y, P y -> P (f y)) -> P x -> P (iter_n n f x).
Proof. intros Hf. revert x. induction n as [|n IH]; simpl; auto. Qed.

(** What the flood fill reaches is the seed or has a value within the
    tolerance of the seed's. *)
Lemma flood_sound (sh : nat * nat * nat) (image : list Z) (seed : nat)
    (tolerance : Z) (p : nat) :
  flood sh image seed tolerance !! p = Some true ->
  p = seed
  \/ exists v, image !! p = Some v
               /\ (default 0 (image !! seed) - Z.abs tolerance <= v
                   <= default 0 (image !! seed) + Z.abs tolerance)%Z.
Proof.
  unfold flood. revert p.
  apply (iter_n_invariant
           (fun region : list bool => forall p, region !! p = Some true ->
              p = seed
              \/ exists v, image !! p = Some v
                           /\ (default 0 (image !! seed) - Z.abs tolerance <= v
                               <= default 0 (image !! seed) + Z.abs tolerance)%Z)).
  - intros region IH p. unfold flood_step. rewrite list_lookup_imap.
    intros (v & Hv & Hp)%fmap_Some. symmetry in Hp.
    apply orb_true_iff in Hp as [Hp|Hp].
    + apply IH. destruct (region !! p) as [[]|]; simpl in Hp; congruence.
    + apply andb_true_iff in Hp as [Hp _]. apply andb_true_iff in Hp as [Hlo Hhi].
      right. exists v. split; [done|]. lia.
  - intros p. rewrite list_lookup_imap. intros (v & Hv & Hp)%fmap_Some.
    left. symmetry in Hp. by apply bool_decide_eq_true in Hp.
Qed.

Lemma flood_length (sh : nat * nat * nat) (image : list Z) (seed : nat) (tolerance : Z) :
  length (flood sh image seed tolerance) = length image.
Proof.
  unfold flood. apply (iter_n_invariant (fun region : list bool => length region = length image)).
  - intros region _. unfold flood_step. by rewrite length_imap.
  - by rewrite length_imap.
Qed.

Section PartitionProofs.
Context {F : Type} `{Scalar F}.

Lemma slab_test_01 (a b c d x : V3 F) : slab_test a b c d x = 0%Z \/ slab_test a b c d x = 1%Z.
Proof. unfold slab_test, bool_to_Z. case_match; auto. Qed.

Lemma com_test_01 (c a b x : V3 F) : com_test c a b x = 0%Z \/ com_test c a b x = 1%Z.
Proof. unfold com_test, sign_01. case_match; auto. Qed.

(** For the first section (i = 1) the reference [point_array[i-2]] is
    [point_array[-1]], the last node, and no IndexError is raised; for the
    last section [point_array[i+1]] does raise and the reference falls back
    to [point_array[i]]. *)
Lemma previous_node_wraps (point_array : list (V3 F)) :
  previous_node point_array 1
    = match last point_array with Some x => Ok x | None => Raise IndexError end
  /\ next_node point_array (length point_array - 1)
    = match last point_array with Some x => Ok x | None => Raise IndexError end.
Proof.
  destruct (decide (length point_array = 0)) as [Hnil|Hne].
  - apply nil_length_inv in Hnil as ->. done.
  - rewrite last_lookup. unfold previous_node, next_node.
    destruct (py_index_Ok point_array (Z.of_nat 1 - 2)) as (x & -> & Hx); [lia|].
    rewrite py_index_out by lia.
    destruct (py_index_Ok point_array (Z.of_nat (length point_array - 1)))
      as (y & -> & Hy); [lia|].
    destruct (Z.ltb_spec (Z.of_nat 1 - 2) 0); [|lia].
    destruct (Z.ltb_spec (Z.of_nat (length point_array - 1)) 0); [lia|].
    assert (Z.to_nat (Z.of_nat 1 - 2 + Z.of_nat (length point_array))
            = pred (length point_array)) as E1 by lia.
    assert (Z.to_nat (Z.of_nat (length point_array - 1))
            = pred (length point_array)) as E2 by lia.
    rewrite E1 in Hx. rewrite E2 in Hy. rewrite Hx. rewrite Hx in Hy. by injection Hy as ->.
Qed.

Lemma py_index_nat_inv {A : Type} (a : list A) (i : nat) (x : A) :
  py_index a (Z.of_nat i) = Ok x -> a !! i = Some x.
Proof.
  unfold py_index. destruct (Z.ltb_spec (Z.of_nat i) 0); [lia|].
  case_match; [discriminate|]. rewrite Nat2Z.id.
  destruct (a !! i); [by intros [= ->] | discriminate].
Qed.

(* the occupancy values of the two filtered volumes, voxel by voxel *)
Lemma roi_sum_lookup (f g : nat -> Z -> Z) (vd : list Z) (p : nat) :
  zip_with Z.add (imap f vd) (imap g vd) !! p = (fun v => (f p v + g p v)%Z) <$> vd !! p.
Proof. rewrite lookup_zip_with, !list_lookup_imap. by destruct (vd !! p). Qed.

Lemma roi_image_lookup (f g : nat -> Z -> Z) (vd : list Z) (p : nat) :
  zip_with Z.mul (zip_with Z.add (imap f vd) (imap g vd)) (imap f vd) !! p
  = (fun v => ((f p v + g p v) * f p v)%Z) <$> vd !! p.
Proof.
  rewrite lookup_zip_with, roi_sum_lookup, list_lookup_imap. by destruct (vd !! p).
Qed.

(** One pass of the loop: a voxel keeps its label or takes label [i], and it
    takes label [i] inside the occupancy mask only. *)
Lemma section_body_spec (trk_roi : volume) (center : V3 F) (point_array : list (V3 F))
    (simplify_shape : bool) (mask mask' : list Z) (i : nat) :
  (simplify_shape = true -> binary_mask trk_roi) ->
  length mask = length (v_data trk_roi) ->
  section_body trk_roi center point_array simplify_shape mask i = Ok mask' ->
  length mask' = length (v_data trk_roi)
  /\ forall p l, mask' !! p = Some l ->
       mask !! p = Some l
       \/ (i ≠ 0 /\ l = Z.of_nat i /\ exists v, v_data trk_roi !! p = Some v /\ v ≠ 0%Z).
Proof.
  intros Hbin Hlen. unfold section_body. case_decide as Hi; [intros [= <-]; auto|].
  intros Hrun.
  apply bind_Ok in Hrun as (m_previous & _ & Hrun).
  apply bind_Ok in Hrun as (m_start & _ & Hrun).
  apply bind_Ok in Hrun as (m_end & _ & Hrun).
  apply bind_Ok in Hrun as (m_next & _ & Hrun). unfold label_section in Hrun.
  apply bind_Ok in Hrun as (roi & Hroi & [= <-]).
  set (sl := fun p v => (slab_test m_previous m_start m_end m_next
                           (voxel_center (v_shape trk_roi) p) * v)%Z) in *.
  set (cm := fun p v => (com_test center m_start m_end
                           (voxel_center (v_shape trk_roi) p) * v)%Z) in *.
  assert (Hsum : forall p v, v_data trk_roi !! p = Some v -> (sl p v + cm p v = 2)%Z -> v ≠ 0%Z).
  { intros p v _ Hv ->. unfold sl, cm in Hv. lia. }
  assert (length roi = length (v_data trk_roi)
          /\ forall p, roi !! p = Some 2%Z ->
                exists v, v_data trk_roi !! p = Some v /\ v ≠ 0%Z) as [Hrlen Hin].
  { destruct simplify_shape.
    - apply bind_Ok in Hroi as (dot & _ & Hroi).
      apply bind_Ok in Hroi as (at_dot & Hdot & Hroi).
      apply py_index_nat_inv in Hdot. rewrite roi_sum_lookup in Hdot.
      apply fmap_Some in Hdot as (vd & Hvd & ->).
      destruct (Z.eqb_spec (sl dot vd + cm dot vd) 2) as [Htwo|_]; injection Hroi as <-.
      + split; [by rewrite length_fmap, flood_length, length_zip_with, length_zip_with,
                           !length_imap, !Nat.min_id|].
        intros p Hp. rewrite list_lookup_fmap in Hp.
        apply fmap_Some in Hp as ([] & Hp & Hb); [|discriminate].
        apply flood_sound in Hp as [->|(w & Hw & Hrange)]; [eauto|].
        rewrite roi_image_lookup in Hw. rewrite roi_image_lookup, Hvd in Hrange.
        apply fmap_Some in Hw as (v & Hv & ->). exists v. split; [done|].
        intros ->. simpl in Hrange.
        pose proof (proj1 (Forall_lookup _ _) (Hbin eq_refl) dot vd Hvd) as Hb01.
        unfold sl, cm in Htwo, Hrange.
        destruct (slab_test_01 m_previous m_start m_end m_next
                    (voxel_center (v_shape trk_roi) dot)) as [E|E];
          destruct (com_test_01 center m_start m_end
                      (voxel_center (v_shape trk_roi) dot)) as [E'|E'];
          rewrite E, E' in *; simpl in Hb01; lia.
      + split; [by rewrite length_zip_with, !length_imap, Nat.min_id|].
        intros p Hp. rewrite roi_sum_lookup in Hp.
        apply fmap_Some in Hp as (v & Hv & Hp). eauto.
    - injection Hroi as <-.
      split; [by rewrite length_zip_with, !length_imap, Nat.min_id|].
      intros p Hp. rewrite roi_sum_lookup in Hp.
      apply fmap_Some in Hp as (v & Hv & Hp). eauto. }
  split; [rewrite length_zip_with; lia|].
  intros p l Hp. apply lookup_zip_with_Some in Hp as (r & m & -> & Hr & Hm).
  destruct (Z.eqb_spec r 2) as [->|_]; [right|by left]. auto.
Qed.

(** A pass of the loop returns when no flood fill is asked for, and when
    the midpoint of the section lies in a voxel of the volume. *)
Lemma section_body_total (trk_roi : volume) (center : V3 F) (point_array : list (V3 F))
    (simplify_shape : bool) (mask : list Z) (i : nat) :
  i < length point_array ->
  (simplify_shape = true -> i ≠ 0 ->
   exists dot, seed_voxel trk_roi point_array i = Ok dot /\ dot < length (v_data trk_roi)) ->
  exists mask', section_body trk_roi center point_array simplify_shape mask i = Ok mask'.
Proof.
  intros Hi Hseed. unfold section_body. case_decide as H0; [eauto|].
  unfold previous_node, next_node.
  destruct (py_index_Ok point_array (Z.of_nat i - 2)) as (a & -> & _); [lia|].
  destruct (py_index_Ok point_array (Z.of_nat i - 1)) as (b & -> & Hb); [lia|].
  destruct (py_index_Ok point_array (Z.of_nat i)) as (c & Hc & Hc'); [lia|].
  assert (exists d, match py_index point_array (Z.of_nat i + 1) with
                    | Raise IndexError => py_index point_array (Z.of_nat i)
                    | r => r
                    end = Ok d) as [d ->].
  { destruct (decide (i + 1 < length point_array)).
    - destruct (py_index_Ok point_array (Z.of_nat i + 1)) as (d & -> & _); [lia|eauto].
    - rewrite py_index_out by lia. eauto. }
  rewrite Hc. simpl. unfold label_section.
  destruct simplify_shape; simpl; [|eauto].
  destruct (Hseed eq_refl H0) as (dot & Hdot & Hlt). unfold seed_voxel, row in Hdot.
  destruct (Z.ltb_spec (Z.of_nat i - 1) 0); [lia|].
  destruct (Z.ltb_spec (Z.of_nat i) 0); [lia|].
  replace (Z.to_nat (Z.of_nat i - 1)) with (i - 1) in Hb by lia.
  rewrite Nat2Z.id in Hc'. rewrite Hb, Hc' in Hdot. simpl in Hdot. rewrite Hdot. simpl.
  match goal with |- context [py_index ?roi _] =>
    destruct (lookup_lt_is_Some_2 roi dot) as [v Hv];
      [by rewrite length_zip_with, !length_imap, Nat.min_id|];
      rewrite (py_index_nat _ _ _ Hv)
  end.
  simpl. destruct (v =? 2)%Z; simpl; eauto.
Qed.

(** C6: with a binary occupancy volume when the flood-fill cleanup is on,
    and with any volume when it is off, every labelled volume returned by
    [get_roi_sections_from_nodes] has the size of the occupancy volume, its
    nonzero labels lie in 1 .. node_count - 1 and stand on voxels of the
    occupancy mask only. Without the cleanup the function always returns;
    with it, it returns when the midpoint of every section lies in a voxel
    of the volume. *)
Theorem section_labels_within_range_and_mask (trk_roi : volume)
    (point_array : list (V3 F)) (simplify_shape : bool) :
  (simplify_shape = true -> binary_mask trk_roi) ->
  (exists mask, get_roi_sections_from_nodes trk_roi point_array false = Ok mask)
  /\ ((forall i, 0 < i < length point_array ->
         exists dot, seed_voxel trk_roi point_array i = Ok dot
                     /\ dot < length (v_data trk_roi)) ->
      exists mask, get_roi_sections_from_nodes trk_roi point_array true = Ok mask)
  /\ forall mask,
       get_roi_sections_from_nodes trk_roi point_array simplify_shape = Ok mask ->
       length mask = length (v_data trk_roi)
       /\ forall p l, mask !! p = Some l -> l ≠ 0%Z ->
            (1 <= l <= Z.of_nat (length point_array) - 1)%Z
            /\ exists v, v_data trk_roi !! p = Some v /\ v ≠ 0%Z.
Proof.
  intros Hbin. unfold get_roi_sections_from_nodes.
  assert (Hreturns : forall simplify,
            (simplify = true -> forall i, 0 < i < length point_array ->
               exists dot, seed_voxel trk_roi point_array i = Ok dot
                           /\ dot < length (v_data trk_roi)) ->
            exists mask,
              for_each (seq 0 (length point_array))
                (section_body trk_roi (center_of_mass trk_roi) point_array simplify)
                (replicate (length (v_data trk_roi)) 0%Z) = Ok mask).
  { intros simplify Hseed.
    edestruct (for_each_total (fun _ : list Z => True) (fun i => i < length point_array)
                 (section_body trk_roi (center_of_mass trk_roi) point_array simplify)
                 (seq 0 (length point_array))) as (mask & Hrun & _);
      [| apply Forall_forall; intros i Hi%elem_of_seq; lia | exact I | eauto].
    intros mask i _ Hi.
    destruct (section_body_total trk_roi (center_of_mass trk_roi) point_array
                simplify mask i Hi) as [mask' Hm]; [|eauto].
    intros Hs Hi0. apply (Hseed Hs). lia. }
  split; [by apply Hreturns|]. split; [intros Hseed; apply Hreturns; auto|].
  intros mask Hrun.
  eapply (for_each_invariant
            (fun m : list Z =>
               length m = length (v_data trk_roi)
               /\ forall p l, m !! p = Some l -> l ≠ 0%Z ->
                    (1 <= l <= Z.of_nat (length point_array) - 1)%Z
                    /\ exists v, v_data trk_roi !! p = Some v /\ v ≠ 0%Z)
            (fun i => i < length point_array)) in Hrun; [exact Hrun| | |].
  - intros m i m' [Hlen Hlab] Hi Hbody.
    apply section_body_spec in Hbody as [Hlen' Hstep]; [|done..].
    split; [done|]. intros p l Hp Hl.
    destruct (Hstep p l Hp) as [Hold|(Hi0 & -> & Hv)]; [eauto|]. split; [lia|done].
  - apply Forall_forall. intros i Hi%elem_of_seq. lia.
  - split; [by rewrite length_replicate|].
    intros p l Hp%lookup_replicate_1 Hl. destruct Hp as [-> _]. done.
Qed.
End PartitionProofs.

Lemma section_labels_within_range_and_mask_witness :
  exists mask,
    get_roi_sections_from_nodes block_roi block_nodes true = Ok mask
    /\ mask !! 2 = Some 2%Z
    /\ forall p l, mask !! p = Some l -> l ≠ 0%Z ->
         (1 <= l <= 3)%Z /\ exists v, v_data block_roi !! p = Some v /\ v ≠ 0%Z.
Proof.
  eexists. split; [vm_compute; reflexivity|]. split; [reflexivity|].
  refine (proj2 (proj2 (proj2 (section_labels_within_range_and_mask
                                 block_roi block_nodes true _)) _ _)).
  - intros _. unfold binary_mask. simpl.
    repeat (apply Forall_cons_2; [first [by left | by right]|]). apply Forall_nil_2.
  - vm_compute. reflexivity.
Defined.

(** ** The crossings of the Density Outlier Filter *)

Section OutlierCrossings.
Context {F : Type} `{Scalar F} `{Extern F}.

(** What the Skeleton Builder keeps passes the consistency filter of the
    spec for the window's two planes: [passes_consistency] is that filter. *)
Lemma window_crossings_consistent (s : streams F) (m_start m_end : V3 F)
    (normal_previous normal_next : V3 F) (p : nat) :
  p ∈ idx_rows (window_crossings s m_start m_end normal_previous normal_next) ->
  exists x, s_data s !! p = Some x
    /\ passes_consistency m_start normal_previous m_end normal_next
         (vdivs (vadd m_start m_end) (of_Z 2)) x = true.
Proof.
  unfold window_crossings. rewrite idx_rows_np_array, not_in_spec.
  intros [[Hcross _]%not_in_spec Hfilter].
  apply crossing_rows_spec in Hcross as (_ & b & _ & Hb & _).
  unfold plane_sign in Hb. rewrite list_lookup_fmap in Hb.
  apply fmap_Some in Hb as (x & Hx & _). exists x. split; [done|].
  rewrite argwhere_spec, lookup_zip_with, !list_lookup_fmap, Hx in Hfilter.
  simpl in Hfilter. unfold passes_consistency.
  repeat match goal with |- context [Z.eqb ?a ?b] => destruct (Z.eqb_spec a b) end;
    simpl in *; congruence.
Qed.

(** C7, as the code has it: at every node the Density Outlier Filter keeps
    every row whose point and the point before it are on different sides of
    the plane, unless the row is the first of a curve; it applies neither the
    start/end-plane consistency filter nor the centre-of-mass filter. *)
Theorem outlier_crossings_only_drop_curve_starts (s : streams F)
    (point_array : list (V3 F)) (i p : nat) :
  p ∈ idx_rows (outlier_crossings s point_array i)
  <-> (p ∉ s_offsets s)
      /\ exists a b,
           (sign_01 <$> outlier_dot s point_array i)
             !! cyclic_pred (length (s_data s)) p = Some a
           /\ (sign_01 <$> outlier_dot s point_array i) !! p = Some b
           /\ Z.abs (a - b) = 1%Z.
Proof.
  unfold outlier_crossings. rewrite idx_rows_np_array, not_in_spec, crossing_rows_spec.
  unfold outlier_dot at 1. rewrite !length_fmap. tauto.
Qed.
End OutlierCrossings.

(** C7, as the claim has it, fails: row 1 of [jump_bundle], the point
    (0,0,5), is kept at node 1 although it lies beyond the end-plane at
    node 2, on the other side than the node itself. *)
Lemma outlier_filter_keeps_inconsistent_crossing :
  1 ∈ idx_rows (outlier_crossings jump_bundle three_nodes 1)
  /\ passes_consistency (row three_nodes 0) (vsub (row three_nodes 0) (row three_nodes 2))
                        (row three_nodes 2) (vsub (row three_nodes 0) (row three_nodes 2))
                        (row three_nodes 1) (row (s_data jump_bundle) 1) = false.
Proof. split; [vm_compute; left | vm_compute; reflexivity]. Qed.

(** ** The orientation tie-break *)

Section Orientation.
Context {F : Type} `{Scalar F} `{Extern F}.

(** C8, as the code has it: when neither the dominant-axis rule nor the
    smallest-axis rule applies, the vote is the sum over the three axes of
    the sign (+1 or -1) of the component of mean_start - mean_end, and the
    two centres are exchanged exactly when that sum is positive. *)
Theorem tie_break_votes_over_axes (m_start m_end : V3 F) :
  dominant_axis_rule m_start m_end = false ->
  smallest_axis_rule m_start m_end = false ->
  vote m_start m_end
    = (sign_pm (fsub (vx m_start) (vx m_end)) + sign_pm (fsub (vy m_start) (vy m_end))
       + sign_pm (fsub (vz m_start) (vz m_end)))%Z
  /\ orient (m_start, m_end)
     = if (0 <? vote m_start m_end)%Z then (m_end, m_start) else (m_start, m_end).
Proof.
  intros Hdom Hsmall. split; [reflexivity|].
  unfold orient, swaps. simpl. by rewrite Hdom, Hsmall.
Qed.
End Orientation.

Lemma tie_break_votes_over_axes_witness :
  orient (qv 3 3 0, qv 0 0 2) = (qv 0 0 2, qv 3 3 0).
Proof.
  refine (proj2 (tie_break_votes_over_axes (qv 3 3 0) (qv 0 0 2) _ _)); reflexivity.
Defined.

(** C8, as the claim has it, fails: in [vote_bundle] neither rule applies
    and the centres are exchanged, although the signs of (start - end) summed
    over every curve, and over the three long curves the centres are the mean
    of, are negative. *)
Lemma tie_break_is_not_a_vote_over_curves :
  exists start end_ selec m_start m_end,
    end_points vote_bundle = Ok (start, end_)
    /\ selec_streamlines vote_bundle = Ok selec
    /\ mean_end_points vote_bundle start end_ = Ok (m_start, m_end)
    /\ dominant_axis_rule m_start m_end = false
    /\ smallest_axis_rule m_start m_end = false
    /\ orient (m_start, m_end) = (m_end, m_start)
    /\ per_curve_vote start end_ = (-26)%Z
    /\ per_curve_vote (mask_select selec start) (mask_select selec end_) = (-5)%Z.
Proof.
  eexists _, _, _, _, _.
  split; [vm_compute; reflexivity|]. split; [vm_compute; reflexivity|].
  split; [vm_compute; reflexivity|]. repeat split; vm_compute; reflexivity.
Qed.

(** ** The distance map *)

Lemma mat_set_entries {A : Type} (m m' : list (list A)) (i j : nat) (v : A) :
  mat_set m i j v = Ok m' ->
  forall r row', m' !! r = Some row' ->
    exists row, m !! r = Some row /\ length row' = length row
      /\ forall c e, row' !! c = Some e -> (r = i /\ c = j /\ e = v) \/ row !! c = Some e.
Proof.
  unfold mat_set. destruct (m !! i) as [rw|] eqn:Hrw; [|discriminate].
  case_decide as Hj; [|discriminate]. intros [= <-] r row' Hr.
  destruct (decide (r = i)) as [->|Hne].
  - rewrite list_lookup_insert_eq in Hr by (by eapply lookup_lt_Some).
    injection Hr as <-. exists rw. split; [done|]. split; [apply length_insert|].
    intros c e Hc. destruct (decide (c = j)) as [->|Hcj].
    + rewrite list_lookup_insert_eq in Hc by done. injection Hc as <-. by left.
    + rewrite list_lookup_insert_ne in Hc by done. by right.
  - rewrite list_lookup_insert_ne in Hr by done. exists row'. auto.
Qed.

Section DistanceMap.
Context {F : Type} `{Scalar F}.

(** The loop does nothing on a skeleton of at most two nodes. *)
Lemma get_dist_two_nodes (s : streams F) (trk_roi : volume) (point_array : list (V3 F))
    (compute_dist : bool) :
  length point_array <= 2 ->
  get_dist_from_median_trajectory s trk_roi point_array compute_dist
  = Ok (replicate (length point_array) (replicate (length (s_offsets s)) fzero),
        point_array).
Proof.
  intros Hlen. unfold get_dist_from_median_trajectory.
  destruct point_array as [|a [|b [|c t]]]; simpl in *; try done; lia.
Qed.

End DistanceMap.

Section DistanceRaises.
Context {F : Type} `{Scalar F}.

Lemma median_body_first_interior (s : streams F) (center : V3 F)
    (point_array : list (V3 F)) (st : list (list F) * list (V3 F)) :
  3 <= length point_array ->
  median_body s center point_array true st 1 = Raise IndexError
  \/ median_body s center point_array true st 1 = Raise AxisError.
Proof.
  intros Hlen. unfold median_body. rewrite decide_False by done.
  rewrite decide_False by lia.
  destruct (median_crossings s center point_array 1) as [r|r|] eqn:Hidx;
    [| unfold median_crossings in Hidx;
       match type of Hidx with np_array_of_rows ?l = _ => destruct l; discriminate end
     | by left].
  assert (r ≠ []) as Hr.
  { unfold median_crossings in Hidx.
    match type of Hidx with np_array_of_rows ?l = _ => destruct l; [discriminate|] end.
    by injection Hidx as <-. }
  simpl take_along_axis.
  destruct (rows_at (s_data s) r) as [idx_pos|e] eqn:Hpos;
    [|apply rows_at_raises in Hpos as ->; by left].
  apply rows_at_length in Hpos. right. simpl.
  destruct r as [|p r']; [done|]. destruct idx_pos as [|x xs]; [done|]. reflexivity.
Qed.

(** With distances asked for, the pass raises on every skeleton that has an
    interior node: IndexError when the first interior node keeps no crossing,
    and otherwise AxisError, from [get_streamline_number_from_index], which
    is handed one row [idx[j]] of shape (1,) and rolls it along axis 1. *)
Theorem distances_raise_with_interior_nodes (s : streams F) (trk_roi : volume)
    (point_array : list (V3 F)) :
  3 <= length point_array ->
  get_dist_from_median_trajectory s trk_roi point_array true = Raise IndexError
  \/ get_dist_from_median_trajectory s trk_roi point_array true = Raise AxisError.
Proof.
  intros Hlen. unfold get_dist_from_median_trajectory.
  destruct (length point_array) as [|[|n]] eqn:Hn; [lia..|].
  change (seq 0 (S (S n))) with (0 :: 1 :: seq 2 n). rewrite <- Hn.
  set (st := (replicate _ _, point_array)).
  change (for_each (0 :: 1 :: seq 2 n) ?body st)
    with (st1 ← body st 0; st2 ← body st1 1; for_each (seq 2 n) body st2).
  assert (median_body s (center_of_mass trk_roi) point_array true st 0 = Ok st) as ->
      by (unfold median_body; by rewrite decide_True).
  simpl mbind.
  destruct (median_body_first_interior s (center_of_mass trk_roi) point_array st)
    as [E | E]; [lia | rewrite !E; by left | rewrite !E; by right].
Qed.

(** The first interior node, case by case. *)
Lemma median_body_first_interior_error (s : streams F) (center : V3 F)
    (point_array : list (V3 F)) (st : list (list F) * list (V3 F)) :
  3 <= length point_array ->
  median_body s center point_array true st 1
  = Raise (match idx_rows (median_crossings s center point_array 1) with
           | [] => IndexError
           | _ :: _ => AxisError
           end).
Proof.
  intros Hlen. unfold median_body. rewrite decide_False by done.
  rewrite decide_False by lia.
  pose proof (median_crossings_in_range s center point_array 1) as Hrange.
  destruct (median_crossings s center point_array 1) as [r|r|] eqn:Hidx;
    [| unfold median_crossings in Hidx;
       match type of Hidx with np_array_of_rows ?l = _ => destruct l; discriminate end
     | done].
  assert (r ≠ []) as Hr.
  { unfold median_crossings in Hidx.
    match type of Hidx with np_array_of_rows ?l = _ => destruct l; [discriminate|] end.
    by injection Hidx as <-. }
  simpl in Hrange. simpl take_along_axis.
  destruct (rows_at_Ok _ _ Hrange) as (idx_pos & -> & Hpos). simpl.
  destruct r as [|p r']; [done|]. destruct idx_pos as [|x xs]; [done|]. reflexivity.
Qed.

(** C4, on the code: the distance map is never filled. On a skeleton
    with an interior node the call with compute_dist true does not return:
    it raises IndexError when the first interior node keeps no crossing, and
    otherwise AxisError at the first distance it is about to record, from
    [get_streamline_number_from_index], which is handed the row [idx[j]] of
    shape (1,) and rolls it along axis 1. So whatever it returns belongs to a
    skeleton of at most two nodes: the map is then all zero, with a row for
    each node, and the nodes are the input's. *)
Theorem distance_map_is_never_recorded (s : streams F) (trk_roi : volume)
    (point_array : list (V3 F)) :
  let crossings := idx_rows (median_crossings s (center_of_mass trk_roi) point_array 1) in
  (3 <= length point_array ->
   (crossings = [] ->
    get_dist_from_median_trajectory s trk_roi point_array true = Raise IndexError)
   /\ (crossings ≠ [] ->
       get_dist_from_median_trajectory s trk_roi point_array true = Raise AxisError))
  /\ (forall dist median_array,
        get_dist_from_median_trajectory s trk_roi point_array true
          = Ok (dist, median_array) ->
        length point_array <= 2
        /\ dist = replicate (length point_array) (replicate (length (s_offsets s)) fzero)
        /\ median_array = point_array).
Proof.
  intros crossings.
  assert (3 <= length point_array ->
          get_dist_from_median_trajectory s trk_roi point_array true
          = Raise (match crossings with [] => IndexError | _ :: _ => AxisError end))
    as Hraise.
  { intros Hlen. unfold get_dist_from_median_trajectory.
    destruct (length point_array) as [|[|n]] eqn:Hn; [lia..|].
    change (seq 0 (S (S n))) with (0 :: 1 :: seq 2 n). rewrite <- Hn.
    set (st := (replicate _ _, point_array)).
    change (for_each (0 :: 1 :: seq 2 n) ?body st)
      with (st1 ← body st 0; st2 ← body st1 1; for_each (seq 2 n) body st2).
    assert (median_body s (center_of_mass trk_roi) point_array true st 0 = Ok st) as ->
        by (unfold median_body; by rewrite decide_True).
    simpl mbind.
    by rewrite (median_body_first_interior_error s _ point_array st) by lia. }
  split.
  - intros Hlen. rewrite (Hraise Hlen). split.
    + by intros ->.
    + intros Hne. by destruct crossings.
  - intros dist median_array Hrun.
    destruct (decide (length point_array <= 2)) as [Hshort|Hlong].
    + rewrite get_dist_two_nodes in Hrun by done. by injection Hrun as <- <-.
    + rewrite Hraise in Hrun by lia. discriminate.
Qed.
End DistanceRaises.

Lemma distance_map_is_never_recorded_witness :
  get_dist_from_median_trajectory eight_lines eight_lines_roi
    [qv 0 0 1; qv 0 0 3; qv 0 0 8] true = Raise AxisError
  /\ get_dist_from_median_trajectory eight_lines eight_lines_roi
       [qv 0 0 1; qv 0 0 8] true
     = Ok (replicate 2 (replicate 8 0%Q), [qv 0 0 1; qv 0 0 8]).
Proof.
  split.
  - refine (proj2 (proj1 (distance_map_is_never_recorded eight_lines eight_lines_roi
                            [qv 0 0 1; qv 0 0 3; qv 0 0 8]) _) _).
    + simpl. lia.
    + vm_compute. discriminate.
  - vm_compute. reflexivity.
Defined.

Lemma distances_raise_with_interior_nodes_witness :
  get_dist_from_median_trajectory eight_lines eight_lines_roi
    [qv 0 0 1; qv 0 0 3; qv 0 0 6; qv 0 0 8] true = Raise AxisError.
Proof.
  destruct (distances_raise_with_interior_nodes eight_lines eight_lines_roi
              [qv 0 0 1; qv 0 0 3; qv 0 0 6; qv 0 0 8]) as [Hidx|Haxis];
    [simpl; lia | | exact Haxis].
  vm_compute in Hidx. discriminate.
Defined.

(** ** Sorting *)

Section SortProofs.
Context {A : Type} (leb : A -> A -> bool).
Hypothesis leb_total : forall a b, leb a b = true \/ leb b a = true.
Hypothesis leb_trans : forall a b c, leb a b = true -> leb b c = true -> leb a c = true.

Lemma insert_sorted_perm (x : A) (l : list A) : insert_sorted leb x l ≡ₚ x :: l.
Proof.
  induction l as [|y t IH]; simpl; [done|].
  destruct (leb x y); [done|]. by rewrite IH, Permutation_swap.
Qed.

Lemma sort_by_perm (l : list A) : sort_by leb l ≡ₚ l.
Proof.
  unfold sort_by. induction l as [|x t IH]; simpl; [done|].
  by rewrite insert_sorted_perm, IH.
Qed.

Lemma insert_sorted_sorted (x : A) (l : list A) :
  StronglySorted (fun a b => leb a b = true) l ->
  StronglySorted (fun a b => leb a b = true) (insert_sorted leb x l).
Proof using leb_total leb_trans.
  induction 1 as [|y t Hsorted IH Hy]; simpl; [by repeat constructor|].
  destruct (leb x y) eqn:Hxy.
  - constructor; [by constructor|]. constructor; [done|].
    eapply Forall_impl; [exact Hy|]. intros z Hz. by eapply leb_trans.
  - constructor; [done|]. rewrite insert_sorted_perm. constructor; [|done].
    destruct (leb_total x y); congruence.
Qed.

Lemma sort_by_sorted (l : list A) :
  StronglySorted (fun a b => leb a b = true) (sort_by leb l).
Proof using leb_total leb_trans.
  unfold sort_by. induction l as [|x t IH]; simpl; [constructor|].
  by apply insert_sorted_sorted.
Qed.
End SortProofs.

(** [argsort] on integer keys: a rearrangement of the positions, along
    which the keys never decrease. *)
Lemma argsort_perm (keys : list Z) : argsort Z.leb keys ≡ₚ seq 0 (length keys).
Proof.
  unfold argsort. rewrite sort_by_perm. by rewrite snd_zip by (by rewrite length_seq).
Qed.

Lemma argsort_split_sorted (keys : list Z) (k r c : nat) :
  r ∈ take k (argsort Z.leb keys) -> c ∈ drop k (argsort Z.leb keys) ->
  exists kr kc, keys !! r = Some kr /\ keys !! c = Some kc /\ (kr <= kc)%Z.
Proof.
  unfold argsort.
  set (sp := sort_by (fun a b : Z * nat => (a.1 <=? b.1)%Z) (zip keys (seq 0 (length keys)))).
  rewrite <- fmap_take, <- fmap_drop.
  intros ([kr r'] & -> & Hr)%list_elem_of_fmap ([kc c'] & -> & Hc)%list_elem_of_fmap.
  simpl. exists kr, kc.
  assert (Hzip : forall x i, (x, i) ∈ sp -> keys !! i = Some x).
  { intros x i Hx. unfold sp in Hx. rewrite sort_by_perm in Hx.
    apply list_elem_of_lookup in Hx as [j Hj].
    apply lookup_zip_with_Some in Hj as (x' & i' & [= <- <-] & Hx' & Hi').
    apply lookup_seq in Hi' as [-> _]. done. }
  split; [apply Hzip; by eapply subseteq_take|].
  split; [apply Hzip; by eapply subseteq_drop|].
  assert (Hsorted : StronglySorted (fun a b : Z * nat => (a.1 <=? b.1)%Z = true) sp).
  { apply sort_by_sorted.
    - intros a b. rewrite !Z.leb_le. lia.
    - intros a b c. rewrite !Z.leb_le. lia. }
  rewrite <- (take_drop k sp) in Hsorted.
  apply Z.leb_le. exact (StronglySorted_app_1_elem_of _ _ _ _ _ Hsorted Hr Hc).
Qed.

(** ** Counting the removed curves *)

Lemma length_filter_zip_fst {A B : Type} (P : A -> Prop) `{forall x, Decision (P x)}
    (l : list A) (k : list B) :
  length l = length k ->
  length (filter (fun p => P p.1) (zip l k)) = length (filter P l).
Proof.
  revert k. induction l as [|x l IH]; intros [|y k] Hlen; simpl in *; try done.
  rewrite !filter_cons. simpl. destruct (decide (P x)); simpl; rewrite IH by lia; done.
Qed.

Lemma length_filter_not_in (idx : list nat) (n : nat) :
  NoDup idx -> Forall (fun i => i < n) idx ->
  length (filter (fun i => i ∉ idx) (seq 0 n)) + length idx = n.
Proof.
  intros Hnd Hlt.
  assert (filter (fun i => i ∉ idx) (seq 0 n) ++ idx ≡ₚ seq 0 n) as Hperm.
  { apply NoDup_Permutation.
    - apply NoDup_app. split; [apply NoDup_filter, NoDup_seq|]. split; [|done].
      intros i [Hi _]%list_elem_of_filter. exact Hi.
    - apply NoDup_seq.
    - intros i. rewrite elem_of_app, list_elem_of_filter, elem_of_seq. split.
      + intros [[_ Hi]|Hi]; [lia|]. rewrite Forall_forall in Hlt. specialize (Hlt i Hi). lia.
      + intros Hi. destruct (decide (i ∈ idx)); [by right|]. left. split; [done|lia]. }
  apply Permutation_length in Hperm. rewrite length_app, length_seq in Hperm. done.
Qed.

Lemma remove_streamlines_length {F : Type} (s : streams F) (idx : list nat) :
  NoDup idx -> Forall (fun i => i < length (curves s)) idx ->
  length (remove_streamlines s idx) + length idx = length (curves s).
Proof.
  intros Hnd Hlt. unfold remove_streamlines. rewrite length_fmap.
  pose proof (length_filter_zip_fst (fun i => i ∉ idx)
                (seq 0 (length (curves s))) (curves s)) as E.
  rewrite length_seq in E. specialize (E eq_refl).
  etrans; [|by apply length_filter_not_in]. f_equal. exact E.
Qed.

Lemma curves_length {F : Type} (s : streams F) :
  length (s_offsets s) = length (s_lengths s) -> length (curves s) = length (s_offsets s).
Proof. intros Hlen. unfold curves. rewrite length_zip_with. lia. Qed.

Lemma column_count_length (cols : nat) (a : list (list bool)) :
  length (column_count cols a) = cols.
Proof. unfold column_count. by rewrite length_fmap, length_seq. Qed.

Section CapProofs.
Context {F : Type} `{Scalar F} `{Extern F}.

Lemma flagged_rows (o : outlier_options F) (n_sign n_val : list Z) :
  NoDup (flagged o n_sign n_val)
  /\ Forall (fun i => i < length n_sign) (flagged o n_sign n_val).
Proof.
  unfold flagged. split; [apply argwhere_NoDup|].
  eapply Forall_impl; [apply argwhere_lt|]. intros i. rewrite length_zip_with. lia.
Qed.

Lemma worst_first_rows (o : outlier_options F) (n_sign : list Z) :
  argsort_sorts F ->
  NoDup (worst_first o n_sign)
  /\ Forall (fun i => i < length n_sign) (worst_first o n_sign).
Proof.
  intros [Hsorts _]. unfold worst_first, py_prefix.
  set (srt := np_argsort (Z.opp <$> n_sign)).
  assert (srt ≡ₚ seq 0 (length n_sign)) as Hperm
      by (unfold srt; by rewrite Hsorts, length_fmap).
  assert (NoDup srt) by (rewrite Hperm; apply NoDup_seq).
  assert (Forall (fun i => i < length n_sign) srt) as Hlt.
  { rewrite Hperm. apply Forall_forall. intros i Hi%elem_of_seq. lia. }
  case_match; (split; [eapply sublist_NoDup; [done|apply sublist_take]
                      | by apply Forall_take]).
Qed.
End CapProofs.

Section CapClaim.
Context {F : Type} `{Scalar F} `{Extern F}.

(** X23. Without the direction pass and with a keep_ratio that is not
    below zero, the curves removed number at most keep_ratio times the number
    of curves; and when more would be removed, the curves removed are the
    first int(count * keep_ratio) of [np.argsort(-n_sign)]: whatever order
    the sort gives to curves of equal outlier-node-count, none of the curves
    kept is an outlier on more nodes than a curve removed. *)
Theorem position_removals_within_keep_ratio (s : streams F)
    (point_array : list (V3 F)) (o : outlier_options F) (kept : list (list (V3 F))) :
  ratio_arith F ->
  argsort_sorts F ->
  length (s_offsets s) = length (s_lengths s) ->
  remove_outlier_dir o = false ->
  fltb (keep_ratio o) fzero = false ->
  remove_outlier_streamlines s point_array o = Ok kept ->
  exists dens,
    density_map s point_array (scaled_bandwidth o) = Ok dens
    /\ let n := length (curves s) in
       let n_sign := outlier_node_count n dens (density_threshold o) in
       let n_idx := flagged o n_sign (crossed_node_count n dens) in
       let removed := if capped o n_sign n_idx then worst_first o n_sign else n_idx in
       kept = remove_streamlines s removed
       /\ length kept + length removed = n
       /\ fltb (fmul (keep_ratio o) (of_Z (Z.of_nat n)))
               (of_Z (Z.of_nat (length removed))) = false
       /\ (capped o n_sign n_idx = true ->
           removed = take (Z.to_nat (ftrunc (fmul (of_Z (Z.of_nat n)) (keep_ratio o))))
                          (np_argsort (Z.opp <$> n_sign))
           /\ forall r c sr sc,
                r ∈ removed -> c < n -> c ∉ removed ->
                n_sign !! r = Some sr -> n_sign !! c = Some sc -> (sc <= sr)%Z).
Proof.
  intros Hlaws Hsorts Hwf Hdir Hkeep Hrun. unfold remove_outlier_streamlines in Hrun.
  apply bind_Ok in Hrun as (n_idx & Hidx & [= <-]). unfold removed_indexes in Hidx.
  apply bind_Ok in Hidx as (dens & Hdens & Hidx). rewrite Hdir in Hidx.
  injection Hidx as <-. exists dens. split; [done|].
  rewrite (curves_length s Hwf). unfold position_outliers.
  set (n := length (s_offsets s)).
  set (n_sign := outlier_node_count n dens (density_threshold o)).
  set (n_idx := flagged o n_sign (crossed_node_count n dens)).
  assert (length n_sign = n) as Hn by apply column_count_length.
  assert (0 <= Z.of_nat n)%Z as Hn0 by lia.
  pose proof (mul_not_negative F Hlaws _ _ Hkeep Hn0) as Hprod.
  pose proof (trunc_not_negative F Hlaws _ Hprod) as Htrunc.
  assert (worst_first o n_sign
          = take (Z.to_nat (ftrunc (fmul (of_Z (Z.of_nat n)) (keep_ratio o))))
                 (np_argsort (Z.opp <$> n_sign))) as Hworst.
  { unfold worst_first, py_prefix. rewrite Hn.
    destruct (Z.ltb_spec (ftrunc (fmul (of_Z (Z.of_nat n)) (keep_ratio o))) 0); [lia|done]. }
  destruct (capped o n_sign n_idx) eqn:Hcap; simpl.
  - destruct (worst_first_rows o n_sign Hsorts) as [Hnd Hlt]. rewrite Hn in Hlt.
    split; [done|]. split.
    { pose proof (remove_streamlines_length s (worst_first o n_sign) Hnd) as E.
      rewrite (curves_length s Hwf) in E. by apply E. }
    split.
    { rewrite (mul_commutes F Hlaws).
      eapply (not_below_smaller F Hlaws); [|by apply (trunc_not_above F Hlaws)].
      rewrite Hworst, length_take. lia. }
    intros _. split; [done|]. intros r c sr sc Hr Hc Hnot Hsr Hsc.
    rewrite Hworst in Hr, Hnot.
    assert (c ∈ drop (Z.to_nat (ftrunc (fmul (of_Z (Z.of_nat n)) (keep_ratio o))))
                     (np_argsort (Z.opp <$> n_sign))) as Hdrop.
    { assert (c ∈ np_argsort (Z.opp <$> n_sign)) as Hin.
      { rewrite (np_argsort_perm F Hsorts), length_fmap, Hn. apply elem_of_seq. lia. }
      rewrite <- (take_drop (Z.to_nat (ftrunc (fmul (of_Z (Z.of_nat n)) (keep_ratio o)))))
        in Hin.
      apply elem_of_app in Hin as [Hin|Hin]; done. }
    destruct (np_argsort_sorted F Hsorts _ _ _ _ Hr Hdrop) as (kr & kc & Hkr & Hkc & Hle).
    rewrite list_lookup_fmap, Hsr in Hkr. rewrite list_lookup_fmap, Hsc in Hkc.
    simpl in Hkr, Hkc. injection Hkr as <-. injection Hkc as <-. lia.
  - destruct (flagged_rows o n_sign (crossed_node_count n dens)) as [Hnd Hlt].
    rewrite Hn in Hlt. fold n_idx in Hnd, Hlt.
    split; [done|]. split.
    { pose proof (remove_streamlines_length s n_idx Hnd) as E.
      rewrite (curves_length s Hwf) in E. by apply E. }
    split; [|done]. unfold capped in Hcap. by rewrite Hn in Hcap.
Qed.
End CapClaim.

Lemma Q_ratio_arith : ratio_arith Q.
Proof.
  split; simpl.
  - intros x Hx%negb_false_iff%Qle_bool_iff. unfold Qle in Hx. simpl in Hx.
    apply Z.quot_pos; lia.
  - intros x Hx%negb_false_iff%Qle_bool_iff. apply negb_false_iff, Qle_bool_iff.
    unfold Qle in *. simpl in *.
    pose proof (Z.mul_quot_le (Qnum x) (Z.pos (Qden x))). lia.
  - intros k n Hk%negb_false_iff%Qle_bool_iff Hn. apply negb_false_iff, Qle_bool_iff.
    apply Qmult_le_0_compat; [|done]. unfold Qle. simpl. lia.
  - intros a b. unfold Qmult. by rewrite Z.mul_comm, Pos.mul_comm.
  - intros x a b Hab Hb%negb_false_iff%Qle_bool_iff. apply negb_false_iff, Qle_bool_iff.
    eapply Qle_trans; [|exact Hb]. unfold Qle. simpl. lia.
Qed.

Lemma Q_argsort_sorts : argsort_sorts Q.
Proof. split; [exact argsort_perm | exact argsort_split_sorted]. Qed.

Lemma position_removals_within_keep_ratio_witness :
  exists kept,
    remove_outlier_streamlines stacked_lines x_nodes default_options = Ok kept
    /\ length kept = 2
    /\ exists dens,
         density_map stacked_lines x_nodes (scaled_bandwidth default_options) = Ok dens.
Proof.
  eexists. split; [vm_compute; reflexivity|]. split; [reflexivity|].
  edestruct (position_removals_within_keep_ratio stacked_lines x_nodes default_options)
    as (dens & Hdens & _);
    [exact Q_ratio_arith | exact Q_argsort_sorts | reflexivity | reflexivity | reflexivity
     | vm_compute; reflexivity |].
  exists dens. exact Hdens.
Defined.

(** C2, on the code: the cap holds back the curves removed for their
    position only. The direction pass runs after it and adds its own
    outliers: with it, the eight curves of [eight_lines] are all removed,
    although keep_ratio is 1/2 and keep_ratio is documented as the largest
    share of the curves that can be removed. (The density of a direction is
    at most the number of curves, eight, times the kernel at distance zero,
    which is under the threshold of ten times that kernel: every curve of a
    bundle of fewer than neighbors_required_dir curves is a direction
    outlier.) *)
Theorem direction_pass_exceeds_keep_ratio :
  remove_outlier_streamlines eight_lines two_nodes direction_options = Ok []
  /\ length (curves eight_lines) = 8
  /\ keep_ratio direction_options = (1 # 2)%Q
  /\ fltb (fmul (keep_ratio direction_options) (of_Z 8)) (of_Z (8 - 0)) = true.
Proof. repeat split; vm_compute; reflexivity. Qed.

(** C9, on the code: the clamp at the start of the sequence is not what
    the code does. For the first section of [bent_nodes] the reference
    [point_array[i-2]] is the last node, not node[i-1] = node 0 as the claim
    has it (the fall-back written for it is never taken), and the labels
    differ from those of the clamped reference: voxel (0,1,0), which lies
    behind the first node, is given label 1. For the last section the
    reference [point_array[i+1]] does fall back to node[i]. *)
Theorem first_section_reference_is_last_node :
  previous_node bent_nodes 1 = Ok (mkV3 (13 # 4) (13 # 4) (1 # 2))
  /\ clamped_previous_node bent_nodes 1 = Ok (mkV3 (3 # 4) (3 # 4) (1 # 2))
  /\ next_node bent_nodes 3 = Ok (mkV3 (13 # 4) (13 # 4) (1 # 2))
  /\ exists labels clamped,
       get_roi_sections_from_nodes bent_roi bent_nodes false = Ok labels
       /\ partition_sections_clamped bent_roi bent_nodes false = Ok clamped
       /\ labels !! 1 = Some 1%Z
       /\ clamped !! 1 = Some 0%Z.
Proof.
  pose proof (previous_node_wraps bent_nodes) as [Hprev Hnext].
  split; [exact Hprev|]. split; [reflexivity|]. split; [exact Hnext|].
  eexists _, _. split; [vm_compute; reflexivity|]. split; [vm_compute; reflexivity|].
  split; reflexivity.
Qed.

Section CapAndDirection.
Context {F : Type} `{Scalar F} `{Extern F}.

(** When the cap has applied, the positional indexes are a slice of shape
    (k,) of [argsort], the direction indexes an [argwhere] result of shape
    (m,1), and [np.concatenate] of the two raises: with the direction pass
    on, nothing is removed and nothing is saved. *)
Theorem cap_then_direction_pass_raises (s : streams F) (point_array : list (V3 F))
    (o : outlier_options F) (dens : list (list F)) (n_idx_gaus : index_array) :
  density_map s point_array (scaled_bandwidth o) = Ok dens ->
  capped o (outlier_node_count (length (s_offsets s)) dens (density_threshold o))
         (flagged o (outlier_node_count (length (s_offsets s)) dens (density_threshold o))
                    (crossed_node_count (length (s_offsets s)) dens)) = true ->
  remove_outlier_dir o = true ->
  direction_outliers s o = Ok n_idx_gaus ->
  remove_outlier_streamlines s point_array o = Raise ValueError.
Proof.
  intros Hdens Hcap Hdir Hgaus. unfold remove_outlier_streamlines, removed_indexes.
  rewrite Hdens. simpl. rewrite Hdir, Hgaus. simpl.
  unfold position_outliers. rewrite Hcap.
  unfold direction_outliers in Hgaus.
  apply bind_Ok in Hgaus as (se & _ & Hgaus). apply bind_Ok in Hgaus as (selec & _ & Hgaus).
  apply bind_Ok in Hgaus as (m & _ & Hgaus).
  destruct (mask_select selec se.1); [discriminate|]. by injection Hgaus as <-.
Qed.
End CapAndDirection.

Lemma cap_then_direction_pass_raises_witness :
  remove_outlier_streamlines stacked_lines x_nodes direction_options = Raise ValueError
  /\ exists kept, remove_outlier_streamlines stacked_lines x_nodes default_options = Ok kept
                  /\ length kept = 2.
Proof.
  split.
  - edestruct (density_map stacked_lines x_nodes (scaled_bandwidth direction_options))
      as [dens|e] eqn:Hdens; [|vm_compute in Hdens; discriminate].
    edestruct (direction_outliers stacked_lines direction_options)
      as [gaus|e] eqn:Hgaus; [|vm_compute in Hgaus; discriminate].
    apply (cap_then_direction_pass_raises stacked_lines x_nodes direction_options dens gaus
             Hdens); [|reflexivity|exact Hgaus].
    vm_compute in Hdens. injection Hdens as <-. vm_compute. reflexivity.
  - eexists. split; [vm_compute; reflexivity|]. reflexivity.
Defined.

(** ** Nodes without a crossing outside the Skeleton Builder *)

Lemma for_each_every_pass {A S : Type} (body : S -> A -> result S) (l : list A)
    (st st' : S) (x : A) :
  for_each l body st = Ok st' -> x ∈ l -> exists st1 st2, body st1 x = Ok st2.
Proof.
  revert st. induction l as [|y t IH]; simpl; intros st Hrun Hx; [by apply elem_of_nil in Hx|].
  apply bind_Ok in Hrun as (st1 & Hy & Hrun).
  apply elem_of_cons in Hx as [->|Hx]; eauto.
Qed.

Section NoFallback.
Context {F : Type} `{Scalar F} `{Extern F}.

(** Only the Skeleton Builder falls back to a midpoint. In the median pass
    and in the outlier filter an interior node that keeps no crossing makes
    [np.take_along_axis] raise, and nothing is returned: neither by
    [get_dist_from_median_trajectory], with or without distances (nor, then,
    by [extract_nodes] with smoothing), nor by [remove_outlier_streamlines]. *)
Theorem node_without_crossing_raises (s : streams F) (trk_roi : volume)
    (point_array : list (V3 F)) (i : nat) :
  0 < i < length point_array - 1 ->
  (idx_rows (median_crossings s (center_of_mass trk_roi) point_array i) = [] ->
   forall compute_dist r,
     get_dist_from_median_trajectory s trk_roi point_array compute_dist ≠ Ok r)
  /\ (idx_rows (outlier_crossings s point_array i) = [] ->
      forall o r, remove_outlier_streamlines s point_array o ≠ Ok r).
Proof.
  intros Hi. assert (i ∈ seq 0 (length point_array)) as Hin by (apply elem_of_seq; lia).
  split.
  - intros Hempty compute_dist r Hrun. unfold get_dist_from_median_trajectory in Hrun.
    destruct (for_each_every_pass _ _ _ _ i Hrun Hin) as (st1 & st2 & Hbody).
    unfold median_body in Hbody. rewrite !decide_False in Hbody by lia.
    unfold median_crossings in Hempty, Hbody. rewrite idx_rows_np_array in Hempty.
    rewrite Hempty in Hbody. discriminate.
  - intros Hempty o r Hrun. unfold remove_outlier_streamlines, removed_indexes in Hrun.
    apply bind_Ok in Hrun as (n_idx & Hrun & _).
    apply bind_Ok in Hrun as (dens & Hdens & _). unfold density_map in Hdens.
    destruct (for_each_every_pass _ _ _ _ i Hdens Hin) as (st1 & st2 & Hbody).
    unfold density_body in Hbody. rewrite !decide_False in Hbody by lia.
    unfold crossing_density in Hbody.
    unfold outlier_crossings in Hempty, Hbody. rewrite idx_rows_np_array in Hempty.
    rewrite Hempty in Hbody. discriminate.
Qed.
End NoFallback.

Lemma node_without_crossing_raises_witness :
  get_dist_from_median_trajectory two_lines eight_lines_roi
    [qv 0 0 10; qv 0 0 12; qv 0 0 14] false = Raise IndexError
  /\ forall r, remove_outlier_streamlines two_lines [qv 0 0 10; qv 0 0 12; qv 0 0 14]
                 default_options ≠ Ok r.
Proof.
  split; [vm_compute; reflexivity|].
  refine (proj2 (node_without_crossing_raises two_lines eight_lines_roi
                   [qv 0 0 10; qv 0 0 12; qv 0 0 14] 1 _) _ default_options).
  - simpl. lia.
  - vm_compute. reflexivity.
Defined.

(** * Further properties *)

(** ** The layout of a curve set *)

Section Layout.
Context {A : Type}.
Implicit Types cs : list (list A).

Lemma start_of_0 cs : start_of cs 0 = 0.
Proof. done. Qed.

Lemma start_of_S cs k c :
  cs !! k = Some c -> start_of cs (S k) = start_of cs k + length c.
Proof.
  intros Hk. unfold start_of. rewrite (take_S_r _ _ _ Hk), concat_app, length_app.
  simpl. by rewrite app_nil_r.
Qed.

Lemma start_of_all cs : start_of cs (length cs) = length (concat cs).
Proof. unfold start_of. by rewrite firstn_all. Qed.

Lemma start_of_cons c cs k : start_of (c :: cs) (S k) = length c + start_of cs k.
Proof. unfold start_of. simpl. by rewrite length_app. Qed.

Lemma start_of_lt cs i j :
  Forall (fun c => c ≠ []) cs -> i < j -> j <= length cs -> start_of cs i < start_of cs j.
Proof.
  intros Hne Hij. induction j as [|j IH]; [lia|]. intros Hj.
  destruct (lookup_lt_is_Some_2 cs j) as [c Hc]; [lia|].
  rewrite (start_of_S _ _ _ Hc).
  assert (0 < length c).
  { rewrite Forall_forall in Hne. apply list_elem_of_lookup_2 in Hc.
    specialize (Hne c Hc). destruct c; simpl; [done|lia]. }
  destruct (decide (i = j)) as [->|]; [lia|]. specialize (IH ltac:(lia) ltac:(lia)). lia.
Qed.

Lemma start_of_le cs i j :
  Forall (fun c => c ≠ []) cs -> i <= j -> j <= length cs -> start_of cs i <= start_of cs j.
Proof.
  intros Hne Hij Hj. destruct (decide (i = j)) as [->|]; [done|].
  pose proof (start_of_lt cs i j Hne). lia.
Qed.

Lemma offsets_from_length o cs : length (offsets_from o cs) = length cs.
Proof. revert o. induction cs as [|c t IH]; intros o; simpl; [done|]. by rewrite IH. Qed.

Lemma offsets_from_lookup o cs k :
  k < length cs -> offsets_from o cs !! k = Some (o + start_of cs k).
Proof.
  revert o k. induction cs as [|c t IH]; intros o k Hk; simpl in *; [lia|].
  destruct k as [|k]; simpl.
  - by rewrite start_of_0, Nat.add_0_r.
  - rewrite IH by lia. rewrite start_of_cons. f_equal. lia.
Qed.

Lemma offsets_from_elem o cs x :
  x ∈ offsets_from o cs <-> exists k, k < length cs /\ x = o + start_of cs k.
Proof.
  rewrite list_elem_of_lookup. split.
  - intros [k Hk]. exists k. pose proof (lookup_lt_Some _ _ _ Hk) as Hlt.
    rewrite offsets_from_length in Hlt. rewrite offsets_from_lookup in Hk by done.
    split; [done|congruence].
  - intros (k & Hk & ->). exists k. by apply offsets_from_lookup.
Qed.

(** Point j of curve c is row [start_of cs c + j] of the data. *)
Lemma concat_lookup_curve cs c curve j :
  cs !! c = Some curve -> j < length curve ->
  concat cs !! (start_of cs c + j) = curve !! j.
Proof.
  intros Hc Hj. unfold start_of.
  pose proof (take_drop_middle _ _ _ Hc) as E.
  assert (concat cs = concat (take c cs) ++ curve ++ concat (drop (S c) cs)) as ->.
  { rewrite <- E at 1. by rewrite concat_app. }
  rewrite lookup_app_r by lia.
  replace (length (concat (take c cs)) + j - length (concat (take c cs))) with j by lia.
  by rewrite lookup_app_l.
Qed.

(** Every row of the data is a point of exactly one curve. *)
Lemma concat_row_curve cs p :
  p < length (concat cs) ->
  exists c curve j, cs !! c = Some curve /\ j < length curve /\ p = start_of cs c + j.
Proof.
  revert p. induction cs as [|c0 t IH]; intros p Hp; simpl in Hp; [lia|].
  rewrite length_app in Hp. destruct (decide (p < length c0)) as [Hlt|Hge].
  - exists 0, c0, p. by rewrite start_of_0.
  - destruct (IH (p - length c0) ltac:(lia)) as (c & curve & j & Hc & Hj & Heq).
    exists (S c), curve, j. rewrite start_of_cons. repeat split; [done..|]. lia.
Qed.

Lemma curve_rows_disjoint cs c c' curve curve' j j' :
  Forall (fun c => c ≠ []) cs ->
  cs !! c = Some curve -> j < length curve ->
  cs !! c' = Some curve' -> j' < length curve' ->
  start_of cs c + j = start_of cs c' + j' -> c = c' /\ j = j'.
Proof.
  intros Hne Hc Hj Hc' Hj' Heq.
  pose proof (lookup_lt_Some _ _ _ Hc) as Hlt. pose proof (lookup_lt_Some _ _ _ Hc') as Hlt'.
  pose proof (start_of_S _ _ _ Hc) as HS. pose proof (start_of_S _ _ _ Hc') as HS'.
  destruct (Nat.lt_trichotomy c c') as [Hcc|[->|Hcc]].
  - pose proof (start_of_le cs (S c) c' Hne ltac:(lia) ltac:(lia)). lia.
  - split; [done|lia].
  - pose proof (start_of_le cs (S c') c Hne ltac:(lia) ltac:(lia)). lia.
Qed.
End Layout.

Lemma roll_1_lookup {A : Type} (a : list A) (p : nat) :
  p < length a ->
  roll_1 a !! p = a !! (if decide (S p = length a) then 0 else S p).
Proof.
  intros Hp. destruct a as [|x t]; simpl in *; [lia|].
  destruct (decide (S p = S (length t))) as [E|E].
  - rewrite lookup_app_r by lia. replace (p - length t) with 0 by lia. done.
  - rewrite lookup_app_l by lia. done.
Qed.

Lemma roll_1_length {A : Type} (a : list A) : length (roll_1 a) = length a.
Proof. destruct a; simpl; [done|]. rewrite length_app. simpl. lia. Qed.

Lemma singleton_of_spec (l : list nat) (c : nat) :
  NoDup l -> (forall x, x ∈ l <-> x = c) -> l = [c].
Proof.
  intros Hnd Hl. apply Permutation_singleton_r. apply NoDup_Permutation; [done|apply NoDup_singleton|].
  intros x. rewrite Hl, list_elem_of_singleton. done.
Qed.

Lemma nil_of_spec (l : list nat) : (forall x, x ∉ l) -> l = [].
Proof. destruct l as [|x t]; [done|]. intros Hl. destruct (Hl x). left. Qed.

(** ** The owner of a row: [get_streamline_number_from_index] *)

Section Owner.
Context {F : Type}.
Implicit Types (s : streams F) (cs : list (list (V3 F))).

(* the offsets with the number of points appended *)
Lemma offsets_ext_lookup cs s k :
  arrayseq cs s -> k <= length cs ->
  ((Z.of_nat <$> s_offsets s) ++ [Z.of_nat (length (s_data s))]) !! k
  = Some (Z.of_nat (start_of cs k)).
Proof.
  intros (Hd & Ho & _ & _) Hk. rewrite Hd, Ho.
  destruct (decide (k = length cs)) as [->|Hne].
  - rewrite lookup_app_r by (rewrite length_fmap, offsets_from_length; lia).
    rewrite length_fmap, offsets_from_length, Nat.sub_diag. simpl.
    by rewrite start_of_all.
  - rewrite lookup_app_l by (rewrite length_fmap, offsets_from_length; lia).
    rewrite list_lookup_fmap, offsets_from_lookup by lia. done.
Qed.

Lemma offsets_ext_length cs s :
  arrayseq cs s ->
  length ((Z.of_nat <$> s_offsets s) ++ [Z.of_nat (length (s_data s))]) = S (length cs).
Proof.
  intros (_ & Ho & _ & _). rewrite length_app, length_fmap, Ho, offsets_from_length.
  simpl. lia.
Qed.

(* the columns found for the index ix: k with offsets[k] <= ix < offsets[k+1] *)
Lemma hits_spec cs s (ix : Z) (k : nat) :
  arrayseq cs s ->
  let offsets := (Z.of_nat <$> s_offsets s) ++ [Z.of_nat (length (s_data s))] in
  let isin := (fun o => bool_to_Z (0 <? o - ix)%Z) <$> offsets in
  k ∈ argwhere (zip_with (fun r a => (r - a =? 1)%Z) (roll_1 isin) isin)
  <-> k < length cs
      /\ (Z.of_nat (start_of cs k) <= ix < Z.of_nat (start_of cs (S k)))%Z.
Proof.
  intros Hs offsets isin.
  assert (length isin = S (length cs)) as Hlen.
  { unfold isin. rewrite length_fmap. by apply offsets_ext_length. }
  assert (forall i, i <= length cs ->
            isin !! i = Some (bool_to_Z (0 <? Z.of_nat (start_of cs i) - ix)%Z)) as Hisin.
  { intros i Hi. unfold isin, offsets. rewrite list_lookup_fmap.
    by rewrite (offsets_ext_lookup cs s i Hs Hi). }
  rewrite argwhere_spec, lookup_zip_with_Some. split.
  - intros (r & a & Heq & Hr & Ha).
    pose proof (lookup_lt_Some _ _ _ Ha) as Hk. rewrite Hlen in Hk.
    rewrite roll_1_lookup in Hr by lia. rewrite Hlen in Hr.
    rewrite Hisin in Ha by lia. injection Ha as <-.
    apply eq_sym, Z.eqb_eq in Heq.
    destruct (decide (S k = S (length cs))) as [E|E].
    + rewrite Hisin in Hr by lia. injection Hr as <-.
      rewrite start_of_0 in Heq. assert (k = length cs) as -> by lia.
      unfold bool_to_Z in Heq. repeat case_match; try lia.
      destruct (Z.ltb_spec 0 (Z.of_nat 0 - ix)); [|done].
      destruct (Z.ltb_spec 0 (Z.of_nat (start_of cs (length cs)) - ix)); [done|]. lia.
    + rewrite Hisin in Hr by lia. injection Hr as <-.
      split; [lia|]. unfold bool_to_Z in Heq.
      destruct (Z.ltb_spec 0 (Z.of_nat (start_of cs (S k)) - ix));
        destruct (Z.ltb_spec 0 (Z.of_nat (start_of cs k) - ix)); lia.
  - intros (Hk & Hlo & Hhi).
    exists 1%Z, 0%Z. split; [done|]. split.
    + rewrite roll_1_lookup by lia. rewrite Hlen.
      destruct (decide (S k = S (length cs))) as [E|E]; [lia|].
      rewrite Hisin by lia. f_equal. unfold bool_to_Z.
      by destruct (Z.ltb_spec 0 (Z.of_nat (start_of cs (S k)) - ix)); [|lia].
    + rewrite Hisin by lia. f_equal. unfold bool_to_Z.
      by destruct (Z.ltb_spec 0 (Z.of_nat (start_of cs k) - ix)); [lia|].
Qed.

Lemma hits_owner cs s c curve j :
  arrayseq cs s -> cs !! c = Some curve -> j < length curve ->
  let ix := Z.of_nat (start_of cs c + j) in
  let offsets := (Z.of_nat <$> s_offsets s) ++ [Z.of_nat (length (s_data s))] in
  let isin := (fun o => bool_to_Z (0 <? o - ix)%Z) <$> offsets in
  argwhere (zip_with (fun r a => (r - a =? 1)%Z) (roll_1 isin) isin) = [c].
Proof.
  intros Hs Hc Hj ix offsets isin. apply singleton_of_spec; [apply argwhere_NoDup|].
  intros k. unfold isin, offsets. rewrite (hits_spec cs s ix k Hs).
  pose proof Hs as (_ & _ & _ & Hne).
  pose proof (lookup_lt_Some _ _ _ Hc) as Hlt.
  pose proof (start_of_S _ _ _ Hc) as HS. split.
  - intros (Hk & Hlo & Hhi).
    destruct (lookup_lt_is_Some_2 cs k Hk) as [curve' Hc'].
    pose proof (start_of_S _ _ _ Hc') as HS'.
    assert (start_of cs k + (start_of cs c + j - start_of cs k) = start_of cs c + j)
      as E by (unfold ix in *; lia).
    symmetry in E.
    apply (curve_rows_disjoint cs c k curve curve' _ _ Hne Hc Hj Hc') in E; [by destruct E as [-> _]|].
    unfold ix in *. lia.
  - intros ->. split; [done|]. unfold ix. lia.
Qed.

Lemma hits_out_of_range cs s (ix : Z) :
  arrayseq cs s -> (ix < 0 \/ Z.of_nat (length (s_data s)) <= ix)%Z ->
  let offsets := (Z.of_nat <$> s_offsets s) ++ [Z.of_nat (length (s_data s))] in
  let isin := (fun o => bool_to_Z (0 <? o - ix)%Z) <$> offsets in
  argwhere (zip_with (fun r a => (r - a =? 1)%Z) (roll_1 isin) isin) = [].
Proof.
  intros Hs Hix offsets isin. apply nil_of_spec. intros k.
  unfold isin, offsets. rewrite (hits_spec cs s ix k Hs). intros (Hk & Hlo & Hhi).
  pose proof Hs as (Hd & _ & _ & Hne). rewrite Hd, <- start_of_all in Hix.
  pose proof (start_of_le cs (S k) (length cs) Hne ltac:(lia) ltac:(lia)). lia.
Qed.

(** X4. The curve that holds a row: for a curve set that stores the
    non-empty curves [cs], the owner of the row of point j of curve c,
    asked for with a Python int, is c. *)
Theorem owner_of_row_is_its_curve cs s c curve j :
  arrayseq cs s -> cs !! c = Some curve -> j < length curve ->
  get_streamline_number_from_index s (ArgInt (Z.of_nat (start_of cs c + j)))
  = Ok (OwnInt c).
Proof.
  intros Hs Hc Hj. unfold get_streamline_number_from_index.
  by rewrite (hits_owner cs s c curve j Hs Hc Hj).
Qed.

(** X5. An int that is no row of the data, negative or past the last row,
    has no owner: the lookup raises IndexError, for every int of the int64
    range whose differences with the offsets stay in that range. A negative
    int is not counted from the end. *)
Theorem owner_of_missing_row_raises cs s (i : Z) :
  arrayseq cs s -> (Z.of_nat (length (s_data s)) - 2 ^ 63 < i < 2 ^ 63)%Z ->
  (i < 0 \/ Z.of_nat (length (s_data s)) <= i)%Z ->
  get_streamline_number_from_index s (ArgInt i) = Raise IndexError.
Proof.
  intros Hs _ Hi. unfold get_streamline_number_from_index.
  by rewrite (hits_out_of_range cs s i Hs Hi).
Qed.

(** X6. For an index array of shape (k,1) the owners come back in the
    order of the rows, one for each row of the data; a row past the end of
    the data is left out without an error, so the result is then shorter
    than the index array. *)
Theorem owners_of_index_array cs s (rows : list nat) :
  arrayseq cs s ->
  exists owners,
    get_streamline_number_from_index s (ArgRows rows) = Ok (OwnArr owners)
    /\ Forall2 (fun p c => exists curve j,
                  cs !! c = Some curve /\ j < length curve /\ p = start_of cs c + j)
               (filter (fun p => p < length (s_data s)) rows) owners.
Proof.
  intros Hs. unfold get_streamline_number_from_index. eexists. split; [done|].
  induction rows as [|p t IH]; simpl; [constructor|].
  rewrite filter_cons. destruct (decide (p < length (s_data s))) as [Hp|Hp].
  - pose proof Hs as (Hd & _). rewrite Hd in Hp.
    destruct (concat_row_curve cs p Hp) as (c & curve & j & Hc & Hj & ->).
    rewrite (hits_owner cs s c curve j Hs Hc Hj). simpl.
    constructor; [|exact IH]. by exists curve, j.
  - rewrite (hits_out_of_range cs s (Z.of_nat p) Hs) by lia. exact IH.
Qed.
End Owner.

(** ** Building and reading a curve set *)

Lemma streams_of_offsets {A : Type} (cs : list (list A)) (l : list nat) (o : nat) :
  (foldl (fun acc c => (acc.1 ++ [acc.2], acc.2 + length c)) (l, o) cs).1
  = l ++ offsets_from o cs.
Proof.
  revert l o. induction cs as [|c t IH]; intros l o; simpl.
  - by rewrite app_nil_r.
  - rewrite IH. by rewrite <- app_assoc.
Qed.

Lemma streams_of_arrayseq {F : Type} (cs : list (list (V3 F))) :
  Forall (fun c => c ≠ []) cs -> arrayseq cs (streams_of cs).
Proof.
  intros Hne. unfold arrayseq, streams_of. simpl.
  split; [done|]. split; [|done]. apply (streams_of_offsets cs [] 0).
Qed.

Lemma curves_from {A : Type} (cs : list (list A)) (data rest : list A) (o : nat) :
  drop o data = concat cs ++ rest ->
  zip_with (fun o l => take l (drop o data)) (offsets_from o cs) (length <$> cs) = cs.
Proof.
  revert o. induction cs as [|c t IH]; intros o Hd; simpl; [done|]. f_equal.
  - rewrite Hd. simpl. rewrite <- app_assoc. by rewrite take_app_length.
  - apply IH. rewrite <- drop_drop, Hd. simpl.
    rewrite <- app_assoc. by rewrite drop_app_length.
Qed.

(* iterating over the curve set gives the curves back *)
Lemma curves_arrayseq {F : Type} (cs : list (list (V3 F))) (s : streams F) :
  arrayseq cs s -> curves s = cs.
Proof.
  intros (Hd & Ho & Hl & _). unfold curves. rewrite Hd, Ho, Hl.
  apply (curves_from cs (concat cs) [] 0). simpl. by rewrite app_nil_r.
Qed.

(** ** Removing curves: [remove_streamlines] *)

Lemma filter_zip_seq_spec {A : Type} (P : nat -> Prop) `{forall k, Decision (P k)}
    (cs : list A) (o : nat) (x : A) :
  x ∈ (filter (fun p => P p.1) (zip (seq o (length cs)) cs)).*2
  <-> exists k, cs !! k = Some x /\ P (o + k).
Proof.
  rewrite list_elem_of_fmap. split.
  - intros ([k y] & -> & [HP Hin]%list_elem_of_filter). simpl in *.
    apply list_elem_of_lookup in Hin as [i Hi].
    apply lookup_zip_with_Some in Hi as (a & b & [= <- <-] & Ha & Hb).
    apply lookup_seq in Ha as [-> _]. by exists i.
  - intros (k & Hk & HP). exists (o + k, x). split; [done|].
    apply list_elem_of_filter. split; [done|].
    apply list_elem_of_lookup. exists k. apply lookup_zip_with_Some.
    exists (o + k), x. split; [done|]. split; [|done].
    apply lookup_seq. split; [done|]. by eapply lookup_lt_Some.
Qed.

Lemma sublist_filter_zip_snd {A B : Type} (P : A * B -> Prop) `{forall p, Decision (P p)}
    (l : list A) (k : list B) :
  length l = length k -> sublist (filter P (zip l k)).*2 k.
Proof.
  revert k. induction l as [|a l IH]; intros [|b k] Hlen; simpl in *; try done.
  rewrite filter_cons. destruct (decide (P (a, b))); simpl.
  - apply sublist_skip, IH. lia.
  - apply sublist_cons, IH. lia.
Qed.

Lemma filter_ext_in {A : Type} (P1 P2 : A -> Prop) `{forall x, Decision (P1 x)}
    `{forall x, Decision (P2 x)} (l : list A) :
  Forall (fun x => P1 x <-> P2 x) l -> filter P1 l = filter P2 l.
Proof.
  induction 1 as [|x t Hx _ IH]; [done|]. rewrite !filter_cons, IH.
  destruct (decide (P1 x)), (decide (P2 x)); tauto.
Qed.

(** X7. Removal keeps a curve exactly when its number is not in the index
    list, leaves the kept curves unchanged and in their order, and ignores
    an index that is no curve number. *)
Theorem remove_streamlines_keeps_the_others {F : Type} (cs : list (list (V3 F)))
    (s : streams F) (idx : list nat) :
  arrayseq cs s ->
  sublist (remove_streamlines s idx) cs
  /\ (forall curve, curve ∈ remove_streamlines s idx
                    <-> exists k, cs !! k = Some curve /\ k ∉ idx)
  /\ remove_streamlines s idx
     = remove_streamlines s (filter (fun k => k < length cs) idx).
Proof.
  intros Hs. unfold remove_streamlines. rewrite (curves_arrayseq cs s Hs).
  split; [|split].
  - apply sublist_filter_zip_snd. by rewrite length_seq.
  - intros curve. exact (filter_zip_seq_spec (fun k => k ∉ idx) cs 0 curve).
  - f_equal. apply filter_ext_in. apply Forall_forall.
    intros [k curve] Hin. simpl.
    apply list_elem_of_lookup in Hin as [i Hi].
    apply lookup_zip_with_Some in Hi as (a & b & [= <- <-] & Ha & Hb).
    apply lookup_seq in Ha as [-> Hlt]. simpl in *.
    rewrite list_elem_of_filter. tauto.
Qed.

(** ** Where the reported crossings lie *)

Lemma kept_row_inside {F : Type} (cs : list (list (V3 F))) (s : streams F)
    (sign : list Z) (p : nat) :
  arrayseq cs s -> length sign = length (s_data s) ->
  p ∈ not_in (s_offsets s) (crossing_rows sign) ->
  exists c, inside_curve cs p c.
Proof.
  intros Hs Hlen [Hp Hoff]%not_in_spec.
  pose proof (crossing_rows_lt sign) as Hlt. rewrite Forall_forall in Hlt.
  specialize (Hlt p Hp). rewrite Hlen in Hlt.
  pose proof Hs as (Hd & Ho & _ & _). rewrite Hd in Hlt.
  destruct (concat_row_curve cs p Hlt) as (c & curve & j & Hc & Hj & ->).
  exists c, curve, j. split; [done|]. split; [|done]. split; [|done].
  destruct (decide (j = 0)) as [->|]; [|lia]. destruct Hoff.
  rewrite Ho. apply offsets_from_elem. exists c. split; [by eapply lookup_lt_Some|lia].
Qed.

Lemma owners_of_rows_inside {F : Type} (cs : list (list (V3 F))) (s : streams F)
    (rows : list nat) :
  arrayseq cs s -> Forall (fun p => exists c, inside_curve cs p c) rows ->
  exists owners,
    get_streamline_number_from_index s (ArgRows rows) = Ok (OwnArr owners)
    /\ Forall2 (inside_curve cs) rows owners.
Proof.
  intros Hs Hrows. unfold get_streamline_number_from_index. eexists. split; [done|].
  induction Hrows as [|p t (c & curve & j & Hc & Hj & ->) _ IH]; simpl; [constructor|].
  rewrite (hits_owner cs s c curve j Hs Hc ltac:(lia)). simpl.
  constructor; [|exact IH]. by exists curve, j.
Qed.

Section CrossingsInside.
Context {F : Type} `{Scalar F}.

Lemma outlier_crossings_inside (cs : list (list (V3 F))) (s : streams F)
    (point_array : list (V3 F)) (i : nat) :
  arrayseq cs s ->
  Forall (fun p => exists c, inside_curve cs p c)
         (idx_rows (outlier_crossings s point_array i)).
Proof.
  intros Hs. apply Forall_forall. intros p.
  unfold outlier_crossings. rewrite idx_rows_np_array. intros Hp.
  eapply (kept_row_inside cs s); [done| |exact Hp].
  unfold outlier_dot. by rewrite !length_fmap.
Qed.

(** X8. In a curve set that stores the non-empty curves [cs], every row
    reported by the three crossing detectors is a point of some curve other
    than its first point: the detected crossing joins two consecutive points
    of one curve. *)
Theorem crossings_join_points_of_one_curve (cs : list (list (V3 F))) (s : streams F) :
  arrayseq cs s ->
  (forall m_start m_end normal_previous normal_next p,
     p ∈ idx_rows (window_crossings s m_start m_end normal_previous normal_next) ->
     exists c, inside_curve cs p c)
  /\ (forall center point_array i p,
        p ∈ idx_rows (median_crossings s center point_array i) ->
        exists c, inside_curve cs p c)
  /\ (forall point_array i p,
        p ∈ idx_rows (outlier_crossings s point_array i) ->
        exists c, inside_curve cs p c).
Proof.
  intros Hs. split; [|split].
  - intros m_start m_end np nn p. unfold window_crossings.
    rewrite idx_rows_np_array. intros [Hp _]%not_in_spec.
    eapply (kept_row_inside cs s); [done| |exact Hp].
    unfold plane_sign. by rewrite length_fmap.
  - intros center pa i p. unfold median_crossings.
    rewrite idx_rows_np_array. intros [Hp _]%not_in_spec.
    eapply (kept_row_inside cs s); [done| |exact Hp].
    unfold plane_sign. by rewrite length_fmap.
  - intros pa i p Hp.
    pose proof (outlier_crossings_inside cs s pa i Hs) as Hall.
    rewrite Forall_forall in Hall. by apply Hall.
Qed.

(** X9. In the density loop the owners are asked for the whole index array
    of a node at once: the answer has one curve number for each crossing, in
    the order of the crossings, and it is the curve the crossing lies in. *)
Theorem density_owners_match_crossings (cs : list (list (V3 F))) (s : streams F)
    (point_array : list (V3 F)) (i : nat) :
  arrayseq cs s ->
  exists owners,
    get_streamline_number_from_index s
      (ArgRows (idx_rows (outlier_crossings s point_array i))) = Ok (OwnArr owners)
    /\ Forall2 (inside_curve cs) (idx_rows (outlier_crossings s point_array i)) owners.
Proof.
  intros Hs. apply owners_of_rows_inside; [done|]. by apply outlier_crossings_inside.
Qed.
End CrossingsInside.

Section OutlierSublist.
Context {F : Type} `{Scalar F} `{Extern F}.

(** X10. Whatever the options, the curves the outlier filter saves are
    curves of the input, unchanged and in their order. *)
Theorem outlier_filter_saves_input_curves (cs : list (list (V3 F))) (s : streams F)
    (point_array : list (V3 F)) (o : outlier_options F) (out : list (list (V3 F))) :
  arrayseq cs s ->
  remove_outlier_streamlines s point_array o = Ok out ->
  sublist out cs.
Proof.
  intros Hs Hrun. unfold remove_outlier_streamlines in Hrun.
  apply bind_Ok in Hrun as (n_idx & _ & [= <-]).
  unfold remove_streamlines. rewrite (curves_arrayseq cs s Hs).
  apply sublist_filter_zip_snd. by rewrite length_seq.
Qed.
End OutlierSublist.

(** ** Smoothing *)

Lemma py_row_nat (n k : nat) : py_row n (Z.of_nat k) = k.
Proof. unfold py_row. destruct (Z.ltb_spec (Z.of_nat k) 0); lia. Qed.

Lemma py_row_pred (n k : nat) :
  0 < n -> S (py_row n (Z.of_nat k - 1)) = if decide (k = 0) then n else k.
Proof.
  intros Hn. unfold py_row.
  destruct (decide (k = 0)); destruct (Z.ltb_spec (Z.of_nat k - 1) 0); lia.
Qed.

Lemma py_index_row {A : Type} (a : list A) (i : Z) :
  (- Z.of_nat (length a) <= i < Z.of_nat (length a))%Z ->
  exists x, py_index a i = Ok x /\ a !! py_row (length a) i = Some x.
Proof. apply py_index_Ok. Qed.

Lemma py_set_row {A : Type} (a : list A) (i : Z) (v : A) :
  (- Z.of_nat (length a) <= i < Z.of_nat (length a))%Z ->
  py_set a i v = Ok (<[py_row (length a) i := v]> a).
Proof.
  intros Hi. unfold py_set, py_row.
  destruct (Z.ltb_spec i 0).
  - destruct (Z.ltb_spec (i + Z.of_nat (length a)) 0); [lia|].
    by destruct (Z.leb_spec (Z.of_nat (length a)) (i + Z.of_nat (length a))); [lia|].
  - destruct (Z.ltb_spec i 0); [lia|].
    by destruct (Z.leb_spec (Z.of_nat (length a)) i); [lia|].
Qed.

Lemma mapM_py_index {A : Type} (src : list A) (idx : list Z) :
  Forall (fun i => (- Z.of_nat (length src) <= i < Z.of_nat (length src))%Z) idx ->
  exists vals, mapM (py_index src) idx = Ok vals
               /\ Forall2 (fun i v => src !! py_row (length src) i = Some v) idx vals.
Proof.
  induction 1 as [|i t Hi _ (vals & IH & Hvals)]; simpl; [by exists []|].
  destruct (py_index_row src i Hi) as (x & -> & Hx). simpl. rewrite IH. simpl.
  exists (x :: vals). split; [done|]. by constructor.
Qed.

Lemma for_each_py_set {A : Type} (src : list A) (idx : list Z) (vals : list A) :
  Forall (fun i => (- Z.of_nat (length src) <= i < Z.of_nat (length src))%Z) idx ->
  Forall2 (fun i v => src !! py_row (length src) i = Some v) idx vals ->
  forall dst, length dst = length src ->
  exists dst',
    for_each (zip idx vals) (fun d iv => py_set d iv.1 iv.2) dst = Ok dst'
    /\ length dst' = length src
    /\ forall p, dst' !! p
                 = if decide (p ∈ py_row (length src) <$> idx) then src !! p else dst !! p.
Proof.
  intros Hidx Hvals. revert Hidx.
  induction Hvals as [|i v t vs Hv _ IH]; intros Hidx dst Hlen; simpl.
  - exists dst. split; [done|]. split; [done|]. intros p.
    destruct (decide (p ∈ [])) as [Hin|]; [|done]. by apply elem_of_nil in Hin.
  - apply Forall_cons in Hidx as [Hi Hidx].
    rewrite py_set_row by (rewrite Hlen; exact Hi). simpl. rewrite Hlen.
    destruct (IH Hidx (<[py_row (length src) i := v]> dst)) as (dst' & -> & Hlen' & Hdst').
    { by rewrite length_insert. }
    exists dst'. split; [done|]. split; [done|]. intros p. rewrite Hdst'.
    destruct (decide (p ∈ py_row (length src) <$> t)) as [Hin|Hnin].
    + rewrite decide_True; [done|]. by right.
    + destruct (decide (p = py_row (length src) i)) as [->|Hne].
      * rewrite decide_True by left. rewrite list_lookup_insert_eq; [done|].
        rewrite Hlen. by eapply lookup_lt_Some.
      * rewrite list_lookup_insert_ne by done. rewrite decide_False; [done|].
        intros [E|E]%elem_of_cons; done.
Qed.

(* dst[idx] = src[idx]: the rows named by idx are taken from src, the others
   are left as they are *)
Lemma copy_rows_spec {A : Type} (dst src : list A) (idx : list Z) :
  length dst = length src ->
  Forall (fun i => (- Z.of_nat (length src) <= i < Z.of_nat (length src))%Z) idx ->
  exists dst',
    copy_rows dst src idx = Ok dst'
    /\ length dst' = length src
    /\ forall p, dst' !! p
                 = if decide (p ∈ py_row (length src) <$> idx) then src !! p else dst !! p.
Proof.
  intros Hlen Hidx. unfold copy_rows.
  destruct (mapM_py_index src idx Hidx) as (vals & -> & Hvals). simpl.
  by apply for_each_py_set.
Qed.

Section SmoothingProofs.
Context {F : Type} `{Scalar F}.

Lemma smoothed_lookup (point : list (V3 F)) (p : nat) :
  p < length point ->
  ((fun v => vdivs v (of_Z 3))
   <$> zip_with vadd (zip_with vadd (roll1 point) point) (roll_1 point)) !! p
  = Some (vdivs (vadd (vadd (row point (cyclic_pred (length point) p)) (row point p))
                      (row point (if decide (S p = length point) then 0 else S p)))
                (of_Z 3)).
Proof.
  intros Hp. rewrite list_lookup_fmap, !lookup_zip_with.
  rewrite roll1_lookup, roll_1_lookup by done. unfold row.
  destruct (lookup_lt_is_Some_2 point p Hp) as [b ->].
  destruct (lookup_lt_is_Some_2 point (cyclic_pred (length point) p)) as [a ->].
  { unfold cyclic_pred. destruct (decide (p = 0)); lia. }
  destruct (lookup_lt_is_Some_2 point (if decide (S p = length point) then 0 else S p))
    as [d ->].
  { destruct (decide (S p = length point)); lia. }
  done.
Qed.

Lemma smoothed_length (point : list (V3 F)) :
  length ((fun v => vdivs v (of_Z 3))
          <$> zip_with vadd (zip_with vadd (roll1 point) point) (roll_1 point))
  = length point.
Proof.
  rewrite length_fmap, !length_zip_with, roll_1_length.
  assert (length (roll1 point) = length point) as ->; [|lia].
  unfold roll1. destruct point as [|x t] eqn:E; [done|]. rewrite <- E.
  rewrite length_app, length_drop, length_take. lia.
Qed.

Lemma smooth_streamlines_rows (cs : list (list (V3 F))) (s : streams F) :
  arrayseq cs s ->
  exists s',
    smooth_streamlines s = Ok s'
    /\ s_offsets s' = s_offsets s /\ s_lengths s' = s_lengths s
    /\ length (s_data s') = length (s_data s)
    /\ forall c curve j, cs !! c = Some curve -> j < length curve ->
         s_data s' !! (start_of cs c + j)
         = Some (if decide (j = 0 \/ S j = length curve) then row curve j
                 else vdivs (vadd (vadd (row curve (j - 1)) (row curve j))
                                  (row curve (j + 1))) (of_Z 3)).
Proof.
  intros Hs. pose proof Hs as (Hd & Ho & Hl & Hne). unfold smooth_streamlines.
  set (point := s_data s).
  set (smoothed := (fun v => vdivs v (of_Z 3)) <$> _).
  assert (length smoothed = length point) as Hsm by apply smoothed_length.
  assert (length point = start_of cs (length cs)) as HN.
  { unfold point. by rewrite Hd, start_of_all. }
  assert (forall k, k < length cs -> start_of cs k < length point) as Hstart.
  { intros k Hk. rewrite HN. apply start_of_lt; [done|lia|lia]. }
  assert (Forall (fun i => (- Z.of_nat (length point) <= i < Z.of_nat (length point))%Z)
                 (Z.of_nat <$> s_offsets s)) as Hstarts.
  { rewrite Ho. apply Forall_fmap, Forall_forall. intros o (k & Hk & ->)%offsets_from_elem.
    simpl. specialize (Hstart k Hk). lia. }
  assert (Forall (fun i => (- Z.of_nat (length point) <= i < Z.of_nat (length point))%Z)
                 ((fun o => (o - 1)%Z) <$> (Z.of_nat <$> s_offsets s))) as Hends.
  { rewrite Ho. apply Forall_fmap, Forall_fmap, Forall_forall.
    intros o (k & Hk & ->)%offsets_from_elem.
    simpl. specialize (Hstart k Hk). lia. }
  destruct (copy_rows_spec smoothed point _ Hsm Hstarts) as (d1 & -> & Hlen1 & Hd1).
  simpl.
  destruct (copy_rows_spec d1 point _ Hlen1 Hends) as (d2 & -> & Hlen2 & Hd2).
  simpl. eexists. split; [done|]. simpl. split; [done|]. split; [done|].
  split; [done|]. intros c curve j Hc Hj.
  pose proof (lookup_lt_Some _ _ _ Hc) as Hlt.
  pose proof (start_of_S _ _ _ Hc) as HS.
  pose proof (concat_lookup_curve cs c curve) as Hrow. rewrite <- Hd in Hrow. fold point in Hrow.
  assert (start_of cs (S c) <= length point) as HSc.
  { rewrite HN. apply start_of_le; [done|lia|lia]. }
  assert (forall q, q ∈ py_row (length point) <$> (Z.of_nat <$> s_offsets s)
                    <-> exists k, k < length cs /\ q = start_of cs k) as Hin_starts.
  { intros q. rewrite <- list_fmap_compose, Ho, list_elem_of_fmap. split.
    - intros (o & -> & (k & Hk & ->)%offsets_from_elem). exists k. split; [done|].
      simpl. by rewrite py_row_nat.
    - intros (k & Hk & ->). exists (start_of cs k). split.
      + simpl. by rewrite py_row_nat.
      + apply offsets_from_elem. exists k. split; [done|lia]. }
  assert (forall q, q ∈ py_row (length point)
                        <$> ((fun o => (o - 1)%Z) <$> (Z.of_nat <$> s_offsets s))
                    <-> exists k, k < length cs
                                  /\ S q = (if decide (k = 0) then length point
                                            else start_of cs k)) as Hin_ends.
  { intros q. rewrite <- !list_fmap_compose, Ho, list_elem_of_fmap. split.
    - intros (o & -> & (k & Hk & ->)%offsets_from_elem). exists k. split; [done|].
      simpl. specialize (Hstart k Hk). rewrite py_row_pred by lia.
      destruct (decide (k = 0)) as [->|Hk0].
      + by rewrite start_of_0, decide_True.
      + pose proof (start_of_lt cs 0 k Hne ltac:(lia) ltac:(lia)) as H0.
        rewrite start_of_0 in H0. rewrite decide_False by lia. done.
    - intros (k & Hk & Hq). exists (start_of cs k). split.
      + simpl. specialize (Hstart k Hk).
        pose proof (py_row_pred (length point) (start_of cs k) ltac:(lia)) as E.
        destruct (decide (k = 0)) as [->|Hk0].
        * rewrite start_of_0 in *. rewrite decide_True in E by done. lia.
        * pose proof (start_of_lt cs 0 k Hne ltac:(lia) ltac:(lia)) as H0.
          rewrite start_of_0 in H0. rewrite decide_False in E by lia. lia.
      + apply offsets_from_elem. exists k. split; [done|lia]. }
  rewrite Hd2.
  destruct (decide (j = 0 \/ S j = length curve)) as [Hend|Hmid].
  - assert (point !! (start_of cs c + j) = Some (row curve j)) as Hpt.
    { rewrite Hrow by done. unfold row.
      by destruct (lookup_lt_is_Some_2 curve j Hj) as [x ->]. }
    destruct (decide (_ ∈ _)) as [_|Hnin_e]; [done|]. rewrite Hd1.
    destruct (decide (_ ∈ _)) as [_|Hnin_s]; [done|].
    destruct Hend as [->|Hlast].
    + destruct Hnin_s. apply Hin_starts. exists c. split; [done|lia].
    + destruct Hnin_e. apply Hin_ends.
      destruct (decide (S c = length cs)) as [E|E].
      * exists 0. split; [lia|]. rewrite decide_True by done. rewrite HN, <- E. lia.
      * exists (S c). split; [lia|]. rewrite decide_False by done. lia.
  - assert (0 < j /\ S j < length curve) as [Hj0 HjS] by lia.
    rewrite decide_False; [rewrite Hd1, decide_False|].
    + unfold smoothed. rewrite smoothed_lookup by lia. f_equal.
      unfold cyclic_pred. rewrite decide_False by lia. rewrite decide_False by lia.
      assert (forall i, i < length curve -> row point (start_of cs c + i) = row curve i)
        as Hr.
      { intros i Hi. unfold row. by rewrite Hrow. }
      replace (start_of cs c + j - 1) with (start_of cs c + (j - 1)) by lia.
      replace (S (start_of cs c + j)) with (start_of cs c + (j + 1)) by lia.
      by rewrite !Hr by lia.
    + intros (k & Hk & Heq)%Hin_starts.
      destruct (lookup_lt_is_Some_2 cs k Hk) as [curve' Hc'].
      assert (0 < length curve') as Hpos.
      { rewrite Forall_forall in Hne. apply list_elem_of_lookup_2 in Hc'.
        specialize (Hne curve' Hc'). destruct curve'; simpl; [done|lia]. }
      assert (start_of cs c + j = start_of cs k + 0) as E by lia.
      apply (curve_rows_disjoint cs c k curve curve' _ _ Hne Hc Hj Hc' Hpos) in E. lia.
    + intros (k & Hk & Heq)%Hin_ends.
      destruct (decide (k = 0)) as [->|Hk0]; [lia|].
      destruct (lookup_lt_is_Some_2 cs k Hk) as [curve' Hc'].
      assert (0 < length curve') as Hpos.
      { rewrite Forall_forall in Hne. apply list_elem_of_lookup_2 in Hc'.
        specialize (Hne curve' Hc'). destruct curve'; simpl; [done|lia]. }
      assert (start_of cs c + (j + 1) = start_of cs k + 0) as E by lia.
      assert (j + 1 < length curve) as Hj1 by lia.
      apply (curve_rows_disjoint cs c k curve curve' _ _ Hne Hc Hj1 Hc' Hpos) in E. lia.
Qed.
End SmoothingProofs.

Section SmoothingClaims.
Context {F : Type} `{Scalar F}.

(** X11. Smoothing always succeeds on a curve set that stores non-empty
    curves; it keeps the offsets, the lengths and the number of points, and
    the first and the last point of every curve are the original ones. *)
Theorem smoothing_keeps_layout_and_curve_ends (cs : list (list (V3 F)))
    (s : streams F) :
  arrayseq cs s ->
  exists s',
    smooth_streamlines s = Ok s'
    /\ s_offsets s' = s_offsets s /\ s_lengths s' = s_lengths s
    /\ length (s_data s') = length (s_data s)
    /\ forall c curve, cs !! c = Some curve ->
         s_data s' !! start_of cs c = head curve
         /\ s_data s' !! (start_of cs c + (length curve - 1)) = last curve.
Proof.
  intros Hs. destruct (smooth_streamlines_rows cs s Hs) as (s' & Hrun & Ho & Hl & Hn & Hrows).
  exists s'. repeat (split; [done|]). intros c curve Hc.
  pose proof Hs as (_ & _ & _ & Hne).
  assert (0 < length curve) as Hpos.
  { rewrite Forall_forall in Hne. apply list_elem_of_lookup_2 in Hc.
    specialize (Hne curve Hc). destruct curve; simpl; [done|lia]. }
  split.
  - rewrite <- (Nat.add_0_r (start_of cs c)), (Hrows c curve 0 Hc Hpos).
    rewrite decide_True by (by left). unfold row. rewrite head_lookup.
    by destruct (lookup_lt_is_Some_2 curve 0 Hpos) as [x ->].
  - rewrite (Hrows c curve (length curve - 1) Hc ltac:(lia)).
    rewrite decide_True by (right; lia). unfold row. rewrite last_lookup.
    replace (pred (length curve)) with (length curve - 1) by lia.
    by destruct (lookup_lt_is_Some_2 curve (length curve - 1) ltac:(lia)) as [x ->].
Qed.

(** X12. A point that is neither the first nor the last of its curve
    becomes the mean of itself and its two neighbours in the same curve;
    points of other curves never enter it. *)
Theorem smoothing_averages_within_a_curve (cs : list (list (V3 F)))
    (s s' : streams F) (c j : nat) (curve : list (V3 F)) (a b d : V3 F) :
  arrayseq cs s -> smooth_streamlines s = Ok s' ->
  cs !! c = Some curve ->
  curve !! j = Some a -> curve !! S j = Some b -> curve !! S (S j) = Some d ->
  s_data s' !! (start_of cs c + S j) = Some (vdivs (vadd (vadd a b) d) (of_Z 3)).
Proof.
  intros Hs Hrun Hc Ha Hb Hd.
  destruct (smooth_streamlines_rows cs s Hs) as (s'' & Hrun' & _ & _ & _ & Hrows).
  rewrite Hrun in Hrun'. injection Hrun' as <-.
  pose proof (lookup_lt_Some _ _ _ Hd) as Hlt.
  rewrite (Hrows c curve (S j) Hc ltac:(lia)).
  rewrite decide_False by lia. unfold row.
  replace (S j - 1) with j by lia. replace (S j + 1) with (S (S j)) by lia.
  by rewrite Ha, Hb, Hd.
Qed.
End SmoothingClaims.

(** ** The end points of the curves *)

Lemma mapM_Forall2 {A B : Type} (f : A -> result B) (P : A -> B -> Prop) (l : list A) :
  Forall (fun x => exists y, f x = Ok y /\ P x y) l ->
  exists ys, mapM f l = Ok ys /\ Forall2 P l ys.
Proof.
  induction 1 as [|x t (y & Hy & HP) _ (ys & IH & Hys)]; simpl; [by exists []|].
  rewrite Hy. simpl. rewrite IH. simpl. exists (y :: ys). split; [done|]. by constructor.
Qed.

Section EndPoints.
Context {F : Type} `{Scalar F} `{Extern F}.

(* line 45 and line 46 before the clustering: the first and the last point
   of every curve *)
Lemma end_rows (cs : list (list (V3 F))) (s : streams F) :
  arrayseq cs s ->
  exists end_0 ends,
    rows_at (s_data s) (s_offsets s) = Ok end_0
    /\ mapM (fun o => py_index (s_data s) (Z.of_nat o - 1)) (s_offsets s) = Ok ends
    /\ length end_0 = length cs /\ length ends = length cs
    /\ forall k curve, cs !! k = Some curve ->
         end_0 !! k = head curve /\ roll_1 ends !! k = last curve.
Proof.
  intros Hs. pose proof Hs as (Hd & Ho & Hl & Hne).
  assert (length (s_data s) = start_of cs (length cs)) as HN.
  { by rewrite Hd, start_of_all. }
  assert (forall k, k < length cs -> start_of cs k < length (s_data s)) as Hstart.
  { intros k Hk. rewrite HN. apply start_of_lt; [done|lia|lia]. }
  destruct (mapM_Forall2 (fun i => py_index (s_data s) (Z.of_nat i))
              (fun o v => s_data s !! o = Some v) (s_offsets s)) as (end_0 & He0 & Hf0).
  { rewrite Ho. apply Forall_forall. intros o (k & Hk & ->)%offsets_from_elem.
    destruct (lookup_lt_is_Some_2 (s_data s) (0 + start_of cs k)) as [x Hx].
    { specialize (Hstart k Hk). lia. }
    exists x. split; [by apply py_index_nat|done]. }
  destruct (mapM_Forall2 (fun o => py_index (s_data s) (Z.of_nat o - 1))
              (fun o v => s_data s !! py_row (length (s_data s)) (Z.of_nat o - 1) = Some v)
              (s_offsets s)) as (ends & He1 & Hf1).
  { rewrite Ho. apply Forall_forall. intros o (k & Hk & ->)%offsets_from_elem.
    apply py_index_row. specialize (Hstart k Hk). lia. }
  exists end_0, ends. unfold rows_at. split; [done|]. split; [done|].
  pose proof (Forall2_length _ _ _ Hf0) as Hlen0.
  pose proof (Forall2_length _ _ _ Hf1) as Hlen1.
  rewrite Ho, offsets_from_length in Hlen0, Hlen1.
  split; [done|]. split; [done|]. intros k curve Hk.
  pose proof (lookup_lt_Some _ _ _ Hk) as Hlt.
  assert (0 < length curve) as Hpos.
  { rewrite Forall_forall in Hne. apply list_elem_of_lookup_2 in Hk.
    specialize (Hne curve Hk). destruct curve; simpl; [done|lia]. }
  pose proof (start_of_S _ _ _ Hk) as HS.
  pose proof (concat_lookup_curve cs k curve) as Hrow. rewrite <- Hd in Hrow.
  split.
  - destruct (lookup_lt_is_Some_2 end_0 k ltac:(lia)) as [v Hv]. rewrite Hv.
    assert (s_offsets s !! k = Some (start_of cs k)) as Hok.
    { rewrite Ho, offsets_from_lookup by done. done. }
    pose proof (Forall2_lookup_lr _ _ _ _ _ _ Hf0 Hok Hv) as E. simpl in E.
    rewrite head_lookup, <- (Hrow 0 Hk Hpos), Nat.add_0_r. done.
  - rewrite roll_1_lookup by lia. rewrite <- Hlen1.
    set (k' := if decide (S k = length cs) then 0 else S k).
    assert (k' < length cs) as Hk' by (unfold k'; destruct (decide (S k = length cs)); lia).
    destruct (lookup_lt_is_Some_2 ends k' ltac:(lia)) as [v Hv]. rewrite Hv.
    assert (s_offsets s !! k' = Some (start_of cs k')) as Hok.
    { rewrite Ho, offsets_from_lookup by done. done. }
    pose proof (Forall2_lookup_lr _ _ _ _ _ _ Hf1 Hok Hv) as E. simpl in E.
    rewrite last_lookup. replace (pred (length curve)) with (length curve - 1) by lia.
    rewrite <- (Hrow (length curve - 1) Hk ltac:(lia)), <- E. f_equal.
    pose proof (Hstart k Hlt) as Hpos'.
    pose proof (py_row_pred (length (s_data s)) (start_of cs k') ltac:(lia)) as Ep.
    assert ((if decide (start_of cs k' = 0) then length (s_data s) else start_of cs k')
            = start_of cs (S k)) as Eq.
    { unfold k'. destruct (decide (S k = length cs)) as [El|El].
      - rewrite start_of_0, decide_True by done. by rewrite HN, El.
      - rewrite decide_False; [done|]. lia. }
    rewrite Eq in Ep. lia.
Qed.

(** X13. With two curves or more, the start and the end handed on by the
    clustering are, for every curve, its first and its last point, in one
    order or the other: the negative index and the roll of line 46 pick the
    last point of the same curve. *)
Theorem end_points_are_curve_ends (cs : list (list (V3 F))) (s : streams F) :
  arrayseq cs s -> 2 <= length cs ->
  exists start end_,
    end_points s = Ok (start, end_)
    /\ length start = length cs /\ length end_ = length cs
    /\ forall k curve, cs !! k = Some curve ->
         (start !! k = head curve /\ end_ !! k = last curve)
         \/ (start !! k = last curve /\ end_ !! k = head curve).
Proof.
  intros Hs Hn. destruct (end_rows cs s Hs) as (end_0 & ends & He0 & He1 & Hl0 & Hl1 & Hk).
  unfold end_points. rewrite He0. simpl. rewrite He1. simpl.
  rewrite decide_False by (rewrite length_zip_with, roll_1_length; lia).
  eexists _, _. split; [done|]. rewrite !length_fmap, !length_seq.
  split; [done|]. split; [done|]. intros k curve Hc.
  pose proof (lookup_lt_Some _ _ _ Hc) as Hlt.
  destruct (Hk k curve Hc) as [Hfirst Hlast].
  rewrite !list_lookup_fmap, !lookup_seq_lt by lia. simpl.
  assert (exists a, end_0 !! k = Some a) as [a Ha] by (apply lookup_lt_is_Some_2; lia).
  assert (exists b, roll_1 ends !! k = Some b) as [b Hb].
  { apply lookup_lt_is_Some_2. rewrite roll_1_length. lia. }
  rewrite Ha in Hfirst. rewrite Hb in Hlast. rewrite Ha, Hb. simpl.
  rewrite <- Hfirst, <- Hlast.
  destruct (default false (kmeans_labels (zip_with vsub (roll_1 ends) end_0) !! k));
    simpl; [right|left]; done.
Qed.

(** X14. The clustering needs two curves: on a curve set of fewer than two
    curves the skeleton builder raises ValueError, for every level and with
    or without the median pass. *)
Theorem extract_nodes_needs_two_curves (cs : list (list (V3 F))) (s : streams F)
    (trk_roi : volume) (level : nat) (smooth : bool) :
  arrayseq cs s -> length cs < 2 ->
  extract_nodes s trk_roi level smooth = Raise ValueError.
Proof.
  intros Hs Hn. destruct (end_rows cs s Hs) as (end_0 & ends & He0 & He1 & Hl0 & Hl1 & _).
  unfold extract_nodes, resolved_centers, end_points. rewrite He0. simpl. rewrite He1. simpl.
  by rewrite decide_True by (rewrite length_zip_with, roll_1_length; lia).
Qed.
End EndPoints.

(** ** Concrete runs *)

Lemma two_lines_arrayseq : arrayseq [line 0 0 0 4; line 1 0 0 4] two_lines.
Proof. apply streams_of_arrayseq. by repeat constructor. Qed.

Lemma stacked_lines_arrayseq :
  arrayseq [xline 0 0 0 4; xline 0 0 0 5; xline 0 0 0 6; xline 0 0 0 7] stacked_lines.
Proof. apply streams_of_arrayseq. by repeat constructor. Qed.

Lemma owner_of_row_is_its_curve_witness :
  get_streamline_number_from_index two_lines (ArgInt 6) = Ok (OwnInt 1).
Proof.
  exact (owner_of_row_is_its_curve [line 0 0 0 4; line 1 0 0 4] two_lines 1
           (line 1 0 0 4) 2 two_lines_arrayseq eq_refl ltac:(simpl; lia)).
Defined.

Lemma owner_of_missing_row_raises_witness :
  get_streamline_number_from_index two_lines (ArgInt (-1)) = Raise IndexError
  /\ get_streamline_number_from_index two_lines (ArgInt 8) = Raise IndexError.
Proof.
  split.
  - apply (owner_of_missing_row_raises [line 0 0 0 4; line 1 0 0 4] two_lines (-1)%Z
             two_lines_arrayseq); [vm_compute; split; reflexivity|]. left. lia.
  - apply (owner_of_missing_row_raises [line 0 0 0 4; line 1 0 0 4] two_lines 8%Z
             two_lines_arrayseq); [vm_compute; split; reflexivity|]. right.
    vm_compute. discriminate.
Defined.

Lemma owners_of_index_array_witness :
  exists owners,
    get_streamline_number_from_index two_lines (ArgRows [6; 9; 2]) = Ok (OwnArr owners)
    /\ length owners = 2.
Proof.
  destruct (owners_of_index_array [line 0 0 0 4; line 1 0 0 4] two_lines [6; 9; 2]
              two_lines_arrayseq) as (owners & Hrun & Hown).
  exists owners. split; [exact Hrun|]. apply Forall2_length in Hown.
  rewrite <- Hown. reflexivity.
Defined.

Lemma remove_streamlines_keeps_the_others_witness :
  remove_streamlines two_lines [0; 5] = remove_streamlines two_lines [0]
  /\ remove_streamlines two_lines [0; 5] = [line 1 0 0 4].
Proof.
  split; [|vm_compute; reflexivity].
  exact (proj2 (proj2 (remove_streamlines_keeps_the_others
                         [line 0 0 0 4; line 1 0 0 4] two_lines [0; 5]
                         two_lines_arrayseq))).
Defined.

Lemma crossings_join_points_of_one_curve_witness :
  6 ∈ idx_rows (outlier_crossings two_lines [qv 0 0 0; qv 0 0 2; qv 0 0 4] 1)
  /\ exists c, inside_curve [line 0 0 0 4; line 1 0 0 4] 6 c.
Proof.
  assert (6 ∈ idx_rows (outlier_crossings two_lines [qv 0 0 0; qv 0 0 2; qv 0 0 4] 1))
    as Hin by (vm_compute; right; left).
  split; [exact Hin|].
  exact (proj2 (proj2 (crossings_join_points_of_one_curve
                         [line 0 0 0 4; line 1 0 0 4] two_lines two_lines_arrayseq))
           _ _ _ Hin).
Defined.

Lemma density_owners_match_crossings_witness :
  exists owners,
    get_streamline_number_from_index stacked_lines
      (ArgRows (idx_rows (outlier_crossings stacked_lines x_nodes 1)))
    = Ok (OwnArr owners)
    /\ owners = [0; 1; 2; 3].
Proof.
  destruct (density_owners_match_crossings
              [xline 0 0 0 4; xline 0 0 0 5; xline 0 0 0 6; xline 0 0 0 7] stacked_lines
              x_nodes 1 stacked_lines_arrayseq) as (owners & Hrun & _).
  exists owners. split; [exact Hrun|].
  vm_compute in Hrun. by injection Hrun as <-.
Defined.

Lemma outlier_filter_saves_input_curves_witness :
  exists kept,
    remove_outlier_streamlines stacked_lines x_nodes default_options = Ok kept
    /\ sublist kept [xline 0 0 0 4; xline 0 0 0 5; xline 0 0 0 6; xline 0 0 0 7].
Proof.
  eexists. split; [vm_compute; reflexivity|].
  apply (outlier_filter_saves_input_curves _ stacked_lines x_nodes default_options);
    [exact stacked_lines_arrayseq | vm_compute; reflexivity].
Defined.

Lemma smoothing_keeps_layout_and_curve_ends_witness :
  exists s',
    smooth_streamlines two_lines = Ok s'
    /\ s_data s' !! 4 = Some (qv 1 0 0) /\ s_data s' !! 7 = Some (qv 1 0 3).
Proof.
  destruct (smoothing_keeps_layout_and_curve_ends [line 0 0 0 4; line 1 0 0 4] two_lines
              two_lines_arrayseq) as (s' & Hrun & _ & _ & _ & Hends).
  exists s'. split; [exact Hrun|]. exact (Hends 1 (line 1 0 0 4) eq_refl).
Defined.

Lemma smoothing_averages_within_a_curve_witness :
  exists s',
    smooth_streamlines two_lines = Ok s'
    /\ s_data s' !! 5
       = Some (vdivs (vadd (vadd (qv 1 0 0) (qv 1 0 1)) (qv 1 0 2)) (of_Z 3)).
Proof.
  eexists. split; [vm_compute; reflexivity|].
  apply (smoothing_averages_within_a_curve [line 0 0 0 4; line 1 0 0 4] two_lines _
           1 0 (line 1 0 0 4));
    [exact two_lines_arrayseq | vm_compute; reflexivity | reflexivity..].
Defined.

Lemma end_points_are_curve_ends_witness :
  exists start end_,
    end_points two_lines = Ok (start, end_)
    /\ ((start !! 1 = Some (qv 1 0 0) /\ end_ !! 1 = Some (qv 1 0 3))
        \/ (start !! 1 = Some (qv 1 0 3) /\ end_ !! 1 = Some (qv 1 0 0))).
Proof.
  destruct (end_points_are_curve_ends [line 0 0 0 4; line 1 0 0 4] two_lines
              two_lines_arrayseq ltac:(simpl; lia)) as (start & end_ & Hrun & _ & _ & Hk).
  exists start, end_. split; [exact Hrun|]. exact (Hk 1 (line 1 0 0 4) eq_refl).
Defined.

Lemma extract_nodes_needs_two_curves_witness :
  extract_nodes (streams_of [line 0 0 0 4]) block_roi 3 true = Raise ValueError.
Proof.
  apply (extract_nodes_needs_two_curves [line 0 0 0 4]); [|simpl; lia].
  apply streams_of_arrayseq. by repeat constructor.
Defined.

(** ** The density map *)

Lemma rows_at_elem {A : Type} (a : list A) (idx : list nat) (rows : list A) :
  rows_at a idx = Ok rows -> Forall (fun x => x ∈ a) rows.
Proof.
  unfold rows_at. revert rows. induction idx as [|i t IH]; simpl; intros rows.
  - intros [= <-]. constructor.
  - intros Hrun. apply bind_Ok in Hrun as (x & Hx & Hrun).
    apply bind_Ok in Hrun as (ys & Hys & [= <-]).
    constructor; [|by apply IH].
    apply py_index_nat_inv in Hx. by eapply list_elem_of_lookup_2.
Qed.

Section DensityMap.
Context {F : Type} `{Scalar F} `{Extern F}.

Lemma density_body_known (cs : list (list (V3 F))) (s : streams F)
    (point_array : list (V3 F)) (bw : F) (dens dens' : list (list F)) (i : nat) :
  arrayseq cs s -> i < length point_array ->
  density_known cs s point_array dens ->
  density_body s point_array bw dens i = Ok dens' ->
  density_known cs s point_array dens'.
Proof.
  intros Hs Hi Hknown. unfold density_body.
  case_decide as Hi0; [by intros [= <-]|]. case_decide as Hlast; [by intros [= <-]|].
  intros Hrun. apply bind_Ok in Hrun as (kde & _ & Hrun).
  destruct (owners_of_rows_inside cs s _ Hs (outlier_crossings_inside cs s point_array i Hs))
    as (owners & Hown & Hins).
  rewrite Hown in Hrun. simpl in Hrun.
  apply bind_Ok in Hrun as (cols & Hcols & Hrun).
  apply bind_Ok in Hrun as (vals & _ & Hrun).
  apply rows_at_elem in Hcols.
  eapply (for_each_invariant (density_known cs s point_array)
            (fun cv : nat * F => cv.1 ∈ owners));
    [| | exact Hknown | exact Hrun].
  - intros d [c v] d' [Hlen Hrows] Hc Hset. simpl in *. split.
    + apply mat_set_frame in Hset as [-> _]. done.
    + intros r row' Hr.
      destruct (mat_set_entries _ _ _ _ _ Hset r row' Hr) as (row & Hrow & Hl & Hent).
      destruct (Hrows r row Hrow) as [Hrl Hre]. split; [congruence|].
      intros c' e Hc'. destruct (Hent c' e Hc') as [(-> & -> & ->)|Hold]; [|by apply Hre].
      right. split; [lia|].
      apply list_elem_of_lookup in Hc as [k Hk].
      destruct (Forall2_lookup_r _ _ _ _ _ Hins Hk) as (p & Hp & Hin).
      exists p. split; [by eapply list_elem_of_lookup_2|done].
  - apply Forall_forall. intros [c v] Hcv. simpl.
    apply list_elem_of_lookup in Hcv as [k Hk].
    apply lookup_zip_with_Some in Hk as (c' & v' & [= <- <-] & Hc & _).
    rewrite Forall_forall in Hcols. apply Hcols. by eapply list_elem_of_lookup_2.
Qed.

(** X15. The density map of the outlier filter has a row for every node
    and a column for every curve; an entry other than zero stands in the row
    of an interior node, in the column of a curve that has a crossing at the
    plane of that node. *)
Theorem density_map_shape_and_entries (cs : list (list (V3 F))) (s : streams F)
    (point_array : list (V3 F)) (bw : F) (dens : list (list F)) :
  arrayseq cs s ->
  density_map s point_array bw = Ok dens ->
  length dens = length point_array
  /\ forall r row, dens !! r = Some row ->
       length row = length cs
       /\ forall c e, row !! c = Some e -> e ≠ fzero ->
            0 < r < length point_array - 1
            /\ exists p, p ∈ idx_rows (outlier_crossings s point_array r)
                         /\ inside_curve cs p c.
Proof.
  intros Hs Hrun. unfold density_map in Hrun.
  eapply (for_each_invariant (density_known cs s point_array)
            (fun i => i < length point_array)) in Hrun.
  - destruct Hrun as [Hlen Hrows]. split; [exact Hlen|]. intros r row Hr.
    destruct (Hrows r row Hr) as [Hl Hent]. split; [exact Hl|].
    intros c e Hc Hne. by destruct (Hent c e Hc).
  - intros d i d' Hd Hi Hbody. exact (density_body_known cs s point_array bw d d' i Hs Hi Hd Hbody).
  - apply Forall_forall. intros i Hi%elem_of_seq. lia.
  - simpl. split; [by rewrite length_replicate|].
    intros r row [-> _]%lookup_replicate_1. pose proof Hs as (_ & Ho & _).
    split; [by rewrite length_replicate, Ho, offsets_from_length|].
    intros c e [-> _]%lookup_replicate_1. by left.
Qed.
End DensityMap.

Lemma density_map_shape_and_entries_witness :
  exists dens,
    density_map stacked_lines x_nodes (scaled_bandwidth default_options) = Ok dens
    /\ length dens = 3
    /\ forall r row, dens !! r = Some row -> length row = 4.
Proof.
  eexists. split; [vm_compute; reflexivity|].
  edestruct (density_map_shape_and_entries
               [xline 0 0 0 4; xline 0 0 0 5; xline 0 0 0 6; xline 0 0 0 7]
               stacked_lines x_nodes
               (scaled_bandwidth default_options)) as [Hlen Hrows];
    [exact stacked_lines_arrayseq | vm_compute; reflexivity |].
  split; [exact Hlen|]. intros r row Hr. exact (proj1 (Hrows r row Hr)).
Defined.

(** ** What the median pass computes *)

Section MedianPass.
Context {F : Type} `{Scalar F}.

(** X16. Whatever the median pass returns, every interior node of its
    second result is the coordinate-wise median of the points at the
    crossings kept for that node, and these crossings are found with the
    planes of the skeleton that was passed in: a node adjusted earlier in
    the loop has no effect on the nodes adjusted after it. *)
Theorem median_pass_adjusts_nodes_independently (s : streams F) (trk_roi : volume)
    (point_array : list (V3 F)) (compute_dist : bool)
    (dist : list (list F)) (median_array : list (V3 F)) (i : nat) :
  get_dist_from_median_trajectory s trk_roi point_array compute_dist
    = Ok (dist, median_array) ->
  0 < i < length point_array - 1 ->
  exists idx_pos,
    take_along_axis (s_data s)
      (median_crossings s (center_of_mass trk_roi) point_array i) = Ok idx_pos
    /\ median_array !! i = Some (vmedian idx_pos).
Proof.
  intros Hrun Hi. unfold get_dist_from_median_trajectory in Hrun.
  apply (for_each_seq_invariant
           (fun k (st : list (list F) * list (V3 F)) =>
              length st.2 = length point_array
              /\ forall j, 0 < j < length point_array - 1 -> j < k ->
                   exists idx_pos,
                     take_along_axis (s_data s)
                       (median_crossings s (center_of_mass trk_roi) point_array j)
                     = Ok idx_pos
                     /\ st.2 !! j = Some (vmedian idx_pos))) in Hrun.
  - simpl in Hrun. destruct Hrun as [_ Hall]. apply Hall; lia.
  - simpl. split; [done|]. intros j _ Hj. lia.
  - intros k st1 st2 Hk [Hlen Hall] Hbody. unfold median_body in Hbody.
    case_decide as Hk0.
    { injection Hbody as <-. split; [done|]. intros j Hj Hjk. apply Hall; lia. }
    case_decide as Hklast.
    { injection Hbody as <-. split; [done|]. intros j Hj Hjk. apply Hall; lia. }
    apply bind_Ok in Hbody as (idx_pos & Hpos & Hbody).
    assert (st2.2 = <[k := vmedian idx_pos]> st1.2) as ->.
    { destruct compute_dist; simpl in Hbody.
      - by apply bind_Ok in Hbody as (d & _ & [= <-]).
      - by injection Hbody as <-. }
    rewrite length_insert. split; [done|]. intros j Hj Hjk.
    destruct (decide (j = k)) as [->|Hne].
    + exists idx_pos. split; [done|]. apply list_lookup_insert_eq. lia.
    + rewrite list_lookup_insert_ne by done. apply Hall; lia.
Qed.
End MedianPass.

Lemma median_pass_adjusts_nodes_independently_witness :
  exists dist median_array idx_pos,
    get_dist_from_median_trajectory eight_lines eight_lines_roi
      [qv 0 0 1; qv 0 0 3; qv 0 0 6; qv 0 0 8] false = Ok (dist, median_array)
    /\ take_along_axis (s_data eight_lines)
         (median_crossings eight_lines (center_of_mass eight_lines_roi)
            [qv 0 0 1; qv 0 0 3; qv 0 0 6; qv 0 0 8] 2) = Ok idx_pos
    /\ median_array !! 2 = Some (vmedian idx_pos).
Proof.
  eexists _, _.
  assert (get_dist_from_median_trajectory eight_lines eight_lines_roi
            [qv 0 0 1; qv 0 0 3; qv 0 0 6; qv 0 0 8] false = Ok _) as Hrun
    by (vm_compute; reflexivity).
  destruct (median_pass_adjusts_nodes_independently eight_lines eight_lines_roi
              [qv 0 0 1; qv 0 0 3; qv 0 0 6; qv 0 0 8] false _ _ 2 Hrun
              ltac:(simpl; lia))
    as (idx_pos & Hpos & Hmed).
  exists idx_pos. split; [exact Hrun|]. split; [exact Hpos|exact Hmed].
Defined.

(** ** How the sections are laid over one another *)

Lemma for_each_raises_at {A St : Type} (body : St -> A -> result St) (l : list A)
    (x : A) (e0 : exn) :
  (forall st y e, body st y = Raise e -> e = e0) ->
  (forall st st', body st x ≠ Ok st') ->
  x ∈ l -> forall st, for_each l body st = Raise e0.
Proof.
  intros Hexn Hx. induction l as [|y t IH]; intros Hin st; [by apply elem_of_nil in Hin|].
  simpl. destruct (body st y) as [st1|e] eqn:Hy; simpl.
  - apply elem_of_cons in Hin as [->|Hin]; [by destruct (Hx st st1)|by apply IH].
  - by rewrite (Hexn st y e Hy).
Qed.

Section Overlay.
Context {F : Type} `{Scalar F}.

Lemma label_section_roi (trk_roi : volume) (center : V3 F) (simplify_shape : bool)
    (mask mask' : list Z) (i : nat) (a b c d : V3 F) :
  label_section trk_roi center simplify_shape mask i a b c d = Ok mask' ->
  exists roi,
    length roi = length (v_data trk_roi)
    /\ forall m, label_section trk_roi center simplify_shape m i a b c d
                 = Ok (zip_with (fun r m => if (r =? 2)%Z then Z.of_nat i else m) roi m).
Proof.
  unfold label_section. intros Hrun. apply bind_Ok in Hrun as (roi & Hroi & _).
  exists roi. split.
  - destruct simplify_shape.
    + apply bind_Ok in Hroi as (dot & _ & Hroi).
      apply bind_Ok in Hroi as (at_dot & _ & Hroi).
      destruct (at_dot =? 2)%Z; injection Hroi as <-.
      * by rewrite length_fmap, flood_length, !length_zip_with, !length_imap, !Nat.min_id.
      * by rewrite length_zip_with, !length_imap, Nat.min_id.
    + injection Hroi as <-. by rewrite length_zip_with, !length_imap, Nat.min_id.
  - intros m. by rewrite Hroi.
Qed.

Lemma section_body_overlay (trk_roi : volume) (point_array : list (V3 F))
    (simplify_shape : bool) (mask mask' : list Z) (i : nat) :
  length mask = length (v_data trk_roi) ->
  section_body trk_roi (center_of_mass trk_roi) point_array simplify_shape mask i
    = Ok mask' ->
  length mask' = length (v_data trk_roi)
  /\ forall p, p < length (v_data trk_roi) ->
       (section_claims trk_roi point_array simplify_shape i p
        /\ mask' !! p = Some (Z.of_nat i))
       \/ (¬ section_claims trk_roi point_array simplify_shape i p
           /\ mask' !! p = mask !! p).
Proof.
  intros Hlen Hrun. unfold section_claims. unfold section_body in *.
  case_decide as Hi0.
  { injection Hrun as <-. split; [done|]. intros p Hp. right. split; [|done].
    by intros [? _]. }
  apply bind_Ok in Hrun as (a & -> & Hrun). apply bind_Ok in Hrun as (b & -> & Hrun).
  apply bind_Ok in Hrun as (c & -> & Hrun). apply bind_Ok in Hrun as (d & -> & Hrun).
  simpl. destruct (label_section_roi _ _ _ _ _ _ _ _ _ _ Hrun) as (roi & Hrlen & Hroi).
  rewrite Hroi in Hrun. injection Hrun as <-. rewrite length_zip_with.
  split; [lia|]. intros p Hp. rewrite Hroi.
  destruct (lookup_lt_is_Some_2 roi p ltac:(lia)) as [r Hr].
  destruct (lookup_lt_is_Some_2 mask p ltac:(lia)) as [m Hm].
  rewrite lookup_zip_with, Hr, Hm. simpl.
  destruct (Z.eqb_spec r 2) as [->|Hne].
  - left. split; [|done]. split; [done|]. eexists. split; [done|].
    rewrite lookup_zip_with, Hr, lookup_replicate_2 by done. done.
  - right. split; [|done]. intros (_ & m' & [= <-] & Hp').
    rewrite lookup_zip_with, Hr, lookup_replicate_2 in Hp' by done. simpl in Hp'.
    destruct (Z.eqb_spec r 2); [done|]. injection Hp' as Hp'. lia.
Qed.

(** X17. The labelled volume is the overlay of the sections, each computed
    on its own, with later sections on top: the label of a voxel is the
    number of the last section that claims it, and it is 0 exactly when no
    section claims it. *)
Theorem sections_overlay_later_on_top (trk_roi : volume) (point_array : list (V3 F))
    (simplify_shape : bool) (mask : list Z) (p : nat) (l : Z) :
  get_roi_sections_from_nodes trk_roi point_array simplify_shape = Ok mask ->
  mask !! p = Some l ->
  (l ≠ 0%Z ->
   exists i, l = Z.of_nat i /\ 0 < i < length point_array
             /\ section_claims trk_roi point_array simplify_shape i p
             /\ forall k, i < k < length point_array ->
                  ¬ section_claims trk_roi point_array simplify_shape k p)
  /\ (l = 0%Z ->
      forall k, k < length point_array ->
        ¬ section_claims trk_roi point_array simplify_shape k p).
Proof.
  intros Hrun. unfold get_roi_sections_from_nodes in Hrun.
  apply (for_each_seq_invariant
           (fun n (m : list Z) =>
              length m = length (v_data trk_roi)
              /\ forall p l, m !! p = Some l ->
                   (l ≠ 0%Z ->
                    exists i, l = Z.of_nat i /\ 0 < i < n
                              /\ section_claims trk_roi point_array simplify_shape i p
                              /\ forall k, i < k < n ->
                                   ¬ section_claims trk_roi point_array simplify_shape k p)
                   /\ (l = 0%Z ->
                       forall k, k < n ->
                         ¬ section_claims trk_roi point_array simplify_shape k p)))
    in Hrun.
  - simpl in Hrun. destruct Hrun as [_ Hall]. apply Hall.
  - split; [by rewrite length_replicate|].
    intros q v [-> _]%lookup_replicate_1. split; [done|]. intros _ k Hk. lia.
  - intros n m1 m2 _ [Hlen Hall] Hbody.
    apply section_body_overlay in Hbody as [Hlen' Hstep]; [|done].
    split; [done|]. intros q v Hq.
    pose proof (lookup_lt_Some _ _ _ Hq) as Hlt. rewrite Hlen' in Hlt.
    destruct (Hstep q Hlt) as [[Hcl Hnew]|[Hncl Hold]].
    + rewrite Hq in Hnew. injection Hnew as ->. pose proof Hcl as [Hn0 _]. split.
      * intros _. exists n. split; [done|]. split; [lia|]. split; [done|]. intros k Hk. lia.
      * intros Hz. lia.
    + rewrite Hq in Hold. symmetry in Hold. destruct (Hall q v Hold) as [Hnz Hz]. split.
      * intros Hv. destruct (Hnz Hv) as (i & -> & Hi & Hcl & Hlater).
        exists i. split; [done|]. split; [lia|]. split; [done|].
        intros k Hk. destruct (decide (k = n)) as [->|]; [done|]. apply Hlater. lia.
      * intros Hv k Hk. destruct (decide (k = n)) as [->|]; [done|]. apply Hz; [done|lia].
Qed.

Lemma previous_node_raises (point_array : list (V3 F)) (i : nat) (e : exn) :
  previous_node point_array i = Raise e -> e = IndexError.
Proof.
  unfold previous_node. destruct (py_index point_array (Z.of_nat i - 2)) as [|e'] eqn:E.
  - discriminate.
  - apply py_index_raises in E as ->. apply py_index_raises.
Qed.

Lemma next_node_raises (point_array : list (V3 F)) (i : nat) (e : exn) :
  next_node point_array i = Raise e -> e = IndexError.
Proof.
  unfold next_node. destruct (py_index point_array (Z.of_nat i + 1)) as [|e'] eqn:E.
  - discriminate.
  - apply py_index_raises in E as ->. apply py_index_raises.
Qed.

Lemma vol_index_raises (sh : nat * nat * nat) (x y z : Z) (e : exn) :
  vol_index sh x y z = Raise e -> e = IndexError.
Proof.
  unfold vol_index. repeat case_match; simpl; congruence.
Qed.

Lemma section_body_raises (trk_roi : volume) (center : V3 F) (point_array : list (V3 F))
    (simplify_shape : bool) (mask : list Z) (i : nat) (e : exn) :
  section_body trk_roi center point_array simplify_shape mask i = Raise e ->
  e = IndexError.
Proof.
  unfold section_body. case_decide; [discriminate|].
  destruct (previous_node point_array i) as [a|e1] eqn:E1; simpl;
    [|intros [= <-]; by eapply previous_node_raises].
  destruct (py_index point_array (Z.of_nat i - 1)) as [b|e2] eqn:E2; simpl;
    [|intros [= <-]; by eapply py_index_raises].
  destruct (py_index point_array (Z.of_nat i)) as [c|e3] eqn:E3; simpl;
    [|intros [= <-]; by eapply py_index_raises].
  destruct (next_node point_array i) as [d|e4] eqn:E4; simpl;
    [|intros [= <-]; by eapply next_node_raises].
  unfold label_section. destruct simplify_shape; simpl; [|discriminate].
  match goal with |- context [vol_index ?sh ?x ?y ?z] =>
    destruct (vol_index sh x y z) as [dot|e5] eqn:E5 end; simpl;
    [|intros [= <-]; by eapply vol_index_raises].
  match goal with |- context [py_index ?r ?k] =>
    destruct (py_index r k) as [v|e6] eqn:E6 end; simpl;
    [|intros [= <-]; by eapply py_index_raises].
  destruct (v =? 2)%Z; discriminate.
Qed.

(** X18. With the flood-fill cleanup on, a section whose midpoint lies in
    no voxel of the volume makes the partitioner raise IndexError, and no
    labelled volume is returned. *)
Theorem midpoint_outside_volume_raises (trk_roi : volume) (point_array : list (V3 F))
    (i : nat) :
  0 < i < length point_array ->
  (forall dot, seed_voxel trk_roi point_array i ≠ Ok dot) ->
  get_roi_sections_from_nodes trk_roi point_array true = Raise IndexError.
Proof.
  intros Hi Hseed. unfold get_roi_sections_from_nodes.
  apply (for_each_raises_at _ _ i).
  - intros st y e. apply section_body_raises.
  - intros st st' Hbody. unfold section_body in Hbody.
    rewrite decide_False in Hbody by lia.
    apply bind_Ok in Hbody as (a & _ & Hbody).
    apply bind_Ok in Hbody as (b & Hb & Hbody).
    apply bind_Ok in Hbody as (c & Hc & Hbody).
    apply bind_Ok in Hbody as (d & _ & Hbody).
    unfold label_section in Hbody. apply bind_Ok in Hbody as (roi & Hroi & _).
    apply bind_Ok in Hroi as (dot & Hdot & _).
    apply (Hseed dot). unfold seed_voxel, row.
    replace (Z.of_nat i - 1)%Z with (Z.of_nat (i - 1)) in Hb by lia.
    apply py_index_nat_inv in Hb. apply py_index_nat_inv in Hc.
    by rewrite Hb, Hc.
  - apply elem_of_seq. lia.
Qed.
End Overlay.

Lemma sections_overlay_later_on_top_witness :
  exists mask,
    get_roi_sections_from_nodes block_roi block_nodes true = Ok mask
    /\ mask !! 2 = Some 2%Z
    /\ exists i, 2%Z = Z.of_nat i /\ section_claims block_roi block_nodes true i 2.
Proof.
  destruct (get_roi_sections_from_nodes block_roi block_nodes true) as [mask|e] eqn:Hrun;
    [|vm_compute in Hrun; discriminate].
  exists mask. split; [reflexivity|].
  assert (mask !! 2 = Some 2%Z) as Hp
    by (vm_compute in Hrun; injection Hrun as <-; reflexivity).
  split; [exact Hp|].
  destruct (sections_overlay_later_on_top block_roi block_nodes true mask 2 2%Z Hrun Hp)
    as [Hlab _].
  destruct (Hlab ltac:(discriminate)) as (i & Hi & _ & Hcl & _).
  exists i. split; [exact Hi | exact Hcl].
Defined.

Lemma midpoint_outside_volume_raises_witness :
  get_roi_sections_from_nodes block_roi
    [mkV3 (1 # 2) (1 # 2) 0; mkV3 (1 # 2) (1 # 2) 6; mkV3 (1 # 2) (1 # 2) 8]%Q true
  = Raise IndexError.
Proof.
  apply (midpoint_outside_volume_raises block_roi _ 2); [simpl; lia|].
  intros dot. vm_compute. discriminate.
Defined.

(** ** Levels of the Skeleton Builder *)

Lemma for_each_simulation {A St St' : Type} (R : St -> St' -> Prop) (Q : A -> Prop)
    (body : St -> A -> result St) (body' : St' -> A -> result St') (l : list A) :
  (forall st st' x st1 st1', R st st' -> Q x ->
     body st x = Ok st1 -> body' st' x = Ok st1' -> R st1 st1') ->
  Forall Q l ->
  forall st st' r r', R st st' ->
    for_each l body st = Ok r -> for_each l body' st' = Ok r' -> R r r'.
Proof.
  intros Hstep Hl. induction Hl as [|x t Hx _ IH]; simpl; intros st st' r r' HR Hrun Hrun'.
  - injection Hrun as <-. by injection Hrun' as <-.
  - apply bind_Ok in Hrun as (st1 & Hb & Hrun). apply bind_Ok in Hrun' as (st1' & Hb' & Hrun').
    eapply IH; [|exact Hrun|exact Hrun']. by eapply Hstep.
Qed.

Lemma windows_S (level : nat) :
  windows (S level) = windows level ++ ((fun i => (level, i)) <$> seq 0 (2 ^ level)).
Proof.
  unfold windows. rewrite seq_S, bind_app. simpl. by rewrite app_nil_r.
Qed.

Lemma doubled_insert {A : Type} (l l' : list A) (m : nat) (v : A) :
  doubled l l' -> m < length l -> 2 * m < length l' ->
  doubled (<[m := v]> l) (<[2 * m := v]> l').
Proof.
  intros Hd Hm Hm' k. destruct (decide (k = m)) as [->|Hne].
  - by rewrite !list_lookup_insert_eq.
  - rewrite !list_lookup_insert_ne by lia. apply Hd.
Qed.

Lemma doubled_insert_odd {A : Type} (l l' : list A) (m : nat) (v : A) :
  doubled l l' -> (forall k, m ≠ 2 * k) -> doubled l (<[m := v]> l').
Proof. intros Hd Hm k. rewrite list_lookup_insert_ne by apply Hm. apply Hd. Qed.

Lemma doubled_replicate {A : Type} (n : nat) (x : A) :
  doubled (replicate (n + 1) x) (replicate (2 * n + 1) x).
Proof.
  intros k. destruct (decide (k <= n)).
  - by rewrite !lookup_replicate_2 by lia.
  - rewrite !lookup_ge_None_2; [done|rewrite length_replicate; lia..].
Qed.

Section Levels.
Context {F : Type} `{Scalar F} `{Extern F}.

Lemma row_doubled (l l' : list (V3 F)) (k : nat) : doubled l l' -> row l' (2 * k) = row l k.
Proof. intros Hd. unfold row. by rewrite Hd. Qed.

Lemma bisect_window_nested (s : streams F) (level j i : nat)
    (st st' st1 st1' : list (V3 F) * list (V3 F)) :
  nested level st st' -> j < level -> i < 2 ^ j ->
  bisect_window s level st (j, i) = Ok st1 ->
  bisect_window s (S level) st' (j, i) = Ok st1' ->
  nested level st1 st1'.
Proof.
  destruct st as [pa na], st' as [pa' na'].
  intros (Hp & Hn & Hl1 & Hl2 & Hl1' & Hl2') Hj Hi.
  cbn [fst snd] in Hp, Hn, Hl1, Hl2, Hl1', Hl2'.
  destruct (window_mid_between level j i Hj Hi) as [Hlo Hhi]. cbn [fst snd] in Hlo, Hhi.
  unfold bisect_window. cbv beta iota zeta.
  assert (2 ^ (S level - j - 1) = 2 * 2 ^ (level - j - 1)) as ->.
  { replace (S level - j - 1) with (S (level - j - 1)) by lia. by rewrite Nat.pow_succ_r'. }
  set (stride := 2 ^ (level - j - 1)) in *.
  replace (2 * stride * 2 * i) with (2 * (stride * 2 * i)) by lia.
  replace (2 * stride * (2 * i + 2)) with (2 * (stride * (2 * i + 2))) by lia.
  replace (2 * stride * (2 * i + 1)) with (2 * (stride * (2 * i + 1))) by lia.
  replace (2 * stride * (2 * i)) with (2 * (stride * (2 * i))) by lia.
  rewrite !(row_doubled pa pa') by done.
  set (normal := vsub (row pa (stride * 2 * i)) (row pa (stride * (2 * i + 2)))).
  assert (doubled (<[stride * (2 * i + 1) := normal]> na)
                  (<[2 * (stride * (2 * i + 1)) := normal]> na')) as Hn1.
  { apply doubled_insert; [done|lia|lia]. }
  rewrite !(row_doubled _ _ _ Hn1).
  match goal with |- context [fancy_rows ?a ?b] =>
    destruct (fancy_rows a b) as [pts|e] eqn:Hf end.
  - intros [= <-] [= <-]. unfold nested. cbn [fst snd]. rewrite !length_insert.
    split; [apply doubled_insert; [done|lia|lia]|]. split; [exact Hn1|]. done.
  - apply fancy_rows_raises in Hf as ->. intros [= <-] [= <-].
    unfold nested. cbn [fst snd]. rewrite !length_insert.
    split; [apply doubled_insert; [done|lia|lia]|]. split; [exact Hn1|]. done.
Qed.

Lemma bisect_window_last_level (s : streams F) (level i : nat)
    (st st' st1' : list (V3 F) * list (V3 F)) :
  nested level st st' ->
  bisect_window s (S level) st' (level, i) = Ok st1' ->
  nested level st st1'.
Proof.
  intros (Hp & Hn & Hl1 & Hl2 & Hl1' & Hl2') Hrun.
  destruct (bisect_window_total s (S level) st' (level, i)) as [p Hp'].
  rewrite Hp' in Hrun. injection Hrun as <-. unfold nested. cbn [fst snd].
  replace (S level - level - 1) with 0 by lia.
  rewrite !length_insert.
  split; [apply doubled_insert_odd; [done|intros k; simpl; lia]|].
  split; [apply doubled_insert_odd; [done|intros k; simpl; lia]|]. done.
Qed.

Lemma bisect_nested (s : streams F) (level : nat) (m_start m_end : V3 F)
    (coarse fine : list (V3 F)) :
  bisect s level m_start m_end = Ok coarse ->
  bisect s (S level) m_start m_end = Ok fine ->
  doubled coarse fine.
Proof.
  unfold bisect. cbv zeta. intros Hc Hf.
  apply bind_Ok in Hc as (st & Hc & [= <-]). apply bind_Ok in Hf as (st' & Hf & [= <-]).
  rewrite windows_S, for_each_app in Hf. apply bind_Ok in Hf as (mid & Hf1 & Hf2).
  assert (0 < 2 ^ level) as Hpos by (apply Nat.neq_0_lt_0, Nat.pow_nonzero; lia).
  assert (nested level st mid) as Hmid.
  { eapply (for_each_simulation (nested level) (fun ji => ji.1 < level /\ ji.2 < 2 ^ ji.1));
      [| |  | exact Hc | exact Hf1].
    - intros s1 s1' [j i] s2 s2' HR [Hj Hi]. by apply bisect_window_nested.
    - apply Forall_forall. intros [j i] Hji%windows_spec. done.
    - unfold nested. cbn [fst snd]. rewrite !length_insert, !length_replicate.
      rewrite Nat.pow_succ_r'.
      replace (2 ^ level + 1 - 1) with (2 ^ level) by lia.
      replace (2 * 2 ^ level + 1 - 1) with (2 * 2 ^ level) by lia.
      split; [|split; [|done]].
      + apply doubled_insert; [|rewrite length_insert, length_replicate; lia..].
        apply (doubled_insert _ _ 0); [|rewrite length_replicate; lia..].
        apply doubled_replicate.
      + apply doubled_insert; [|rewrite length_insert, length_replicate; lia..].
        apply (doubled_insert _ _ 0); [|rewrite length_replicate; lia..].
        apply doubled_replicate. }
  assert (nested level st st') as (Hd & _).
  { eapply (for_each_invariant (nested level st) (fun ji => ji.1 = level));
      [| | exact Hmid | exact Hf2].
    - intros s1' [j i] s2' HR Hj Hbody. simpl in Hj. subst j.
      by eapply bisect_window_last_level.
    - apply Forall_forall. intros ji (i & -> & _)%list_elem_of_fmap. done. }
  exact Hd.
Qed.

(** X19. For the same two centres the levels of the bisection are
    nested: node k of the skeleton of level [level] is node 2k of the
    skeleton of level [level + 1], so raising the level only adds nodes
    between those already found. *)
Theorem raising_the_level_keeps_the_nodes (s : streams F) (level : nat)
    (m_start m_end : V3 F) (coarse fine : list (V3 F)) (k : nat) :
  bisect s level m_start m_end = Ok coarse ->
  bisect s (S level) m_start m_end = Ok fine ->
  fine !! (2 * k) = coarse !! k.
Proof.
  intros Hc Hf. apply (bisect_nested s level m_start m_end coarse fine Hc Hf).
Qed.
End Levels.

Lemma raising_the_level_keeps_the_nodes_witness :
  exists m_start m_end coarse fine,
    resolved_centers eight_lines = Ok (m_start, m_end)
    /\ bisect eight_lines 1 m_start m_end = Ok coarse
    /\ bisect eight_lines 2 m_start m_end = Ok fine
    /\ fine !! 2 = coarse !! 1.
Proof.
  eexists _, _, _, _. split; [vm_compute; reflexivity|].
  match goal with |- bisect _ 1 ?a ?b = _ /\ _ =>
    assert (bisect eight_lines 1 a b = Ok _) as Hc by (vm_compute; reflexivity);
    assert (bisect eight_lines 2 a b = Ok _) as Hf by (vm_compute; reflexivity)
  end.
  split; [exact Hc|]. split; [exact Hf|].
  exact (raising_the_level_keeps_the_nodes eight_lines 1 _ _ _ _ 1 Hc Hf).
Defined.

(** ** The outlier filter on a skeleton without interior nodes *)





Section NoInteriorNode.
Context {F : Type} `{Scalar F} `{Extern F}.


End NoInteriorNode.


(** ** The long curves of a bundle of equal lengths *)

Lemma sort_by_replicate {A : Type} (leb : A -> A -> bool) (n : nat) (x : A) :
  sort_by leb (replicate n x) = replicate n x.
Proof.
  symmetry. apply replicate_Permutation. symmetry. apply sort_by_perm.
Qed.

Lemma py_index_replicate {A : Type} (n : nat) (x : A) (i : Z) :
  (- Z.of_nat n <= i < Z.of_nat n)%Z -> py_index (replicate n x) i = Ok x.
Proof.
  intros Hi. destruct (py_index_Ok (replicate n x) i) as (y & -> & Hy).
  { by rewrite length_replicate. }
  by apply lookup_replicate_1 in Hy as [-> _].
Qed.

Section UniformLengths.
Context {F : Type} `{Scalar F} `{Extern F}.

Lemma percentile_uniform (n c : nat) (q : Z) :
  uniform_arith F ->
  exists r, percentile (replicate (S n) c) q = Ok r
            /\ fltb r (of_Z (Z.of_nat c)) = false.
Proof.
  intros [Hfloor Hdown Hup]. unfold percentile.
  rewrite sort_by_replicate, length_replicate.
  set (virtual := fmul (of_Z (Z.of_nat (S n) - 1)) (fdiv (of_Z q) (of_Z 100))).
  assert (exists previous next,
            (if fltb virtual fzero then 0%Z
             else if fleb (of_Z (Z.of_nat (S n) - 1)) virtual then (-1)%Z
                  else ffloor virtual) = previous
            /\ (if fltb virtual fzero then 0%Z
                else if fleb (of_Z (Z.of_nat (S n) - 1)) virtual then (-1)%Z
                     else (ffloor virtual + 1)%Z) = next
            /\ (- Z.of_nat (S n) <= previous < Z.of_nat (S n))%Z
            /\ (- Z.of_nat (S n) <= next < Z.of_nat (S n))%Z)
    as (previous & next & -> & -> & Hp & Hn).
  { destruct (fltb virtual fzero) eqn:Hb; [eexists _, _; repeat split; lia|].
    destruct (fleb (of_Z (Z.of_nat (S n) - 1)) virtual) eqn:Ha;
      [eexists _, _; repeat split; lia|].
    pose proof (Hfloor virtual _ Hb Ha). eexists _, _. repeat split; lia. }
  rewrite !py_index_replicate by done. simpl. rewrite Z.sub_diag.
  eexists. split; [done|]. case_match; [apply Hdown | apply Hup].
Qed.

(** X21. In a bundle whose curves all have the same number of points no
    curve is longer than the third quartile, so no curve counts as long:
    the two centres are means over an empty selection. *)
Theorem equal_lengths_select_no_curve (s : streams F) (n c : nat)
    (start end_ : list (V3 F)) :
  uniform_arith F ->
  s_lengths s = replicate (S n) c ->
  selec_streamlines s = Ok (replicate (S n) false)
  /\ mean_end_points s start end_ = Ok (vmean [], vmean []).
Proof.
  intros Harith Hlen.
  assert (selec_streamlines s = Ok (replicate (S n) false)) as Hsel.
  { unfold selec_streamlines. rewrite Hlen.
    destruct (percentile_uniform n c 25 Harith) as (q1 & -> & _).
    destruct (percentile_uniform n c 75 Harith) as (q3 & -> & Hq3).
    cbn [mbind result_bind]. rewrite fmap_replicate, Hq3. done. }
  split; [exact Hsel|]. unfold mean_end_points. rewrite Hsel.
  assert (forall a : list (V3 F), mask_select (replicate (S n) false) a = []) as Hmask.
  { intros a. unfold mask_select. generalize (S n). intros k. revert a.
    induction k as [|k IH]; intros [|x t]; try done. simpl.
    rewrite filter_cons_False by (simpl; congruence). apply IH. }
  cbn [mbind result_bind]. by rewrite !Hmask.
Qed.
End UniformLengths.

Lemma Q_uniform_arith : uniform_arith Q.
Proof.
  split; simpl.
  - intros v m Hlo%negb_false_iff%Qle_bool_iff Hhi. split.
    + change 0%Z with (Qfloor 0). by apply Qfloor_resp_le.
    + destruct (Z.lt_ge_cases (Qfloor v) m) as [|Hge]; [done|].
      assert (Qle_bool (inject_Z m) v = true); [|congruence].
      apply Qle_bool_iff. eapply Qle_trans; [|apply Qfloor_le].
      rewrite <- Zle_Qle. lia.
  - intros c x. apply negb_false_iff, Qle_bool_iff.
    assert (inject_Z c - inject_Z 0 * x == inject_Z c)%Q as -> by ring. apply Qle_refl.
  - intros c x. apply negb_false_iff, Qle_bool_iff.
    assert (inject_Z c + inject_Z 0 * x == inject_Z c)%Q as -> by ring. apply Qle_refl.
Qed.

Lemma equal_lengths_select_no_curve_witness :
  selec_streamlines two_lines = Ok [false; false]
  /\ mean_end_points two_lines [qv 0 0 0; qv 1 0 0] [qv 0 0 3; qv 1 0 3]
     = Ok (vmean [], vmean []).
Proof.
  exact (equal_lengths_select_no_curve two_lines 1 4 _ _ Q_uniform_arith eq_refl).
Defined.

(** ** The orientation of a pair and of its mirror image *)

Section OrientationTwice.
Context {F : Type} `{Scalar F}.

Lemma vabs_vsub_sym (a b : V3 F) : order_arith F -> vabs (vsub a b) = vabs (vsub b a).
Proof.
  intros [Habs _ _]. unfold vabs, vsub. simpl. f_equal; apply Habs.
Qed.

Lemma vote_mirror (a b : V3 F) : order_arith F -> (0 < vote a b)%Z -> (vote b a <= 0)%Z.
Proof.
  intros [_ _ Hpos]. unfold vote, sign_pm, vsub. simpl.
  destruct (fltb fzero (fsub (vx a) (vx b))) eqn:Ex;
    [rewrite (Hpos _ _ Ex)|destruct (fltb fzero (fsub (vx b) (vx a)))];
    (destruct (fltb fzero (fsub (vy a) (vy b))) eqn:Ey;
       [rewrite (Hpos _ _ Ey)|destruct (fltb fzero (fsub (vy b) (vy a)))]);
    (destruct (fltb fzero (fsub (vz a) (vz b))) eqn:Ez;
       [rewrite (Hpos _ _ Ez)|destruct (fltb fzero (fsub (vz b) (vz a)))]); lia.
Qed.

(** X22. The orientation rules never exchange both a pair of centres and
    its mirror image: if (m_start, m_end) is exchanged, (m_end, m_start) is
    left as it is, whichever of the three rules decides. Hence a pair that
    has been oriented is not changed by orienting it again. *)
Theorem orientation_never_swaps_both (m_start m_end : V3 F) :
  order_arith F ->
  (swaps m_start m_end = true -> swaps m_end m_start = false)
  /\ orient (orient (m_start, m_end)) = orient (m_start, m_end).
Proof.
  intros Harith.
  assert (forall a b, swaps a b = true -> swaps b a = false) as Hswap.
  { intros a b. unfold swaps, dominant_axis_rule, smallest_axis_rule.
    rewrite (vabs_vsub_sym b a Harith).
    pose proof Harith as [_ Hlt _]. case_match.
    - apply Hlt.
    - case_match.
      + apply Hlt.
      + intros Hv%Z.ltb_lt. apply Z.ltb_ge. by apply vote_mirror. }
  split; [apply Hswap|].
  unfold orient. simpl. destruct (swaps m_start m_end) eqn:E; simpl.
  - by rewrite (Hswap _ _ E).
  - by rewrite E.
Qed.
End OrientationTwice.

Lemma Q_order_arith : order_arith Q.
Proof.
  split; simpl.
  - intros [an ad] [bn bd]. unfold Qabs, Qminus, Qplus, Qopp. simpl.
    f_equal; [lia|apply Pos.mul_comm].
  - intros a b Hab%negb_true_iff. apply negb_false_iff, Qle_bool_iff.
    destruct (Qlt_le_dec a b) as [Hlt|Hle]; [by apply Qlt_le_weak|].
    apply Qle_bool_iff in Hle. congruence.
  - intros a b Hab%negb_true_iff. apply negb_false_iff, Qle_bool_iff.
    destruct (Qlt_le_dec 0 (a - b)) as [Hlt|Hle].
    + apply Qlt_le_weak in Hlt.
      assert (b - a == - (a - b))%Q as -> by ring.
      apply (Qopp_le_compat 0 (a - b)) in Hlt. exact Hlt.
    + apply Qle_bool_iff in Hle. congruence.
Qed.

Lemma orientation_never_swaps_both_witness :
  swaps (qv 0 0 3) (qv 0 0 0) = true
  /\ swaps (qv 0 0 0) (qv 0 0 3) = false
  /\ orient (orient (qv 0 0 3, qv 0 0 0)) = orient (qv 0 0 3, qv 0 0 0).
Proof.
  assert (swaps (qv 0 0 3) (qv 0 0 0) = true) as Hswap by (vm_compute; reflexivity).
  split; [exact Hswap|].
  destruct (orientation_never_swaps_both (qv 0 0 3) (qv 0 0 0) Q_order_arith)
    as [Hmirror Htwice].
  split; [exact (Hmirror Hswap) | exact Htwice].
Defined.
